(** * Revolution attitude module (flight/Modules/Attitude/revolution/attitude.c)

    A shallow embedding of the estimation cycle of the OpenPilot Revolution
    attitude module: the complementary filter [updateAttitudeComplimentary],
    the staged INSGPS filter [updateAttitudeINSGPS], the tangent-plane
    transform [getNED] and the settings callback [settingsUpdatedCb].

    C [float] is IEEE-754 binary32.  It is embedded as [spec_float] with the
    operations of the Standard Library's [SpecFloat] at precision 24 and
    maximal exponent 128: every C operator is one correctly rounded
    operation (round to nearest, ties to even), evaluated in single
    precision and never fused. *)

From Stdlib Require Import ZArith Bool List Lia QArith Lqa.
From Stdlib Require Import Floats.SpecFloat.
Import ListNotations.

Local Open Scope Z_scope.

(** ** Binary32 arithmetic *)

Module F32.

Definition prec : Z := 24.
Definition emax : Z := 128.

Definition float := spec_float.

Definition add : float -> float -> float := SFadd prec emax.
Definition sub : float -> float -> float := SFsub prec emax.
Definition mul : float -> float -> float := SFmul prec emax.
Definition div : float -> float -> float := SFdiv prec emax.
Definition sqrtf : float -> float := SFsqrt prec emax.
Definition neg : float -> float := SFopp.
Definition fabs : float -> float := SFabs.

Definition ltb : float -> float -> bool := SFltb.
Definition leb : float -> float -> bool := SFleb.
Definition eqb : float -> float -> bool := SFeqb.
(** C's [a != b]: true as soon as one side is a NaN. *)
Definition neb (a b : float) : bool := negb (SFeqb a b).

Definition is_nan (x : float) : bool :=
  match x with S754_nan => true | _ => false end.

Definition is_finite (x : float) : bool :=
  match x with S754_zero _ | S754_finite _ _ _ => true | _ => false end.

Definition is_zero (x : float) : bool :=
  match x with S754_zero _ => true | _ => false end.

Definition valid (x : float) : bool := valid_binary prec emax x.

(** Conversion of a C integer to [float] (round to nearest even). *)
Definition of_Z (z : Z) : float := binary_normalize prec emax z 0 false.

(** The exact rational value of a finite float. *)
Definition to_Q (x : float) : option Q :=
  match x with
  | S754_zero _ => Some 0%Q
  | S754_finite s m e =>
      let v := if 0 <=? e
               then inject_Z (Z.pos m * 2 ^ e)
               else Qmake (Z.pos m) (Z.to_pos (2 ^ (- e))) in
      Some (if s then Qopp v else v)
  | _ => None
  end.

Definition zero : float := S754_zero false.
Definition one : float := S754_finite false 8388608 (-23).
Definition two : float := S754_finite false 8388608 (-22).
Definition nan : float := S754_nan.

End F32.

Abbreviation float := F32.float.

Declare Scope f32_scope.
Delimit Scope f32_scope with f32.
Bind Scope f32_scope with F32.float.
Infix "+" := F32.add : f32_scope.
Infix "-" := F32.sub : f32_scope.
Infix "*" := F32.mul : f32_scope.
Infix "/" := F32.div : f32_scope.
Notation "- x" := (F32.neg x) : f32_scope.
Infix "<?" := F32.ltb : f32_scope.
Infix "<=?" := F32.leb : f32_scope.

(** ** Literals of the source, as binary32 values

    Each decimal literal is the binary32 value nearest to it; [lit_ratios]
    below checks the encodings against a correctly rounded division of two
    exactly representable integers. *)

Module Lit.
Import F32.

Definition b32 (m : positive) (e : Z) : float := S754_finite false m e.

(** [F_PI], 3.14159265358979323846f; also 3.141592653589793f. *)
Definition F_PI : float := b32 13176795 (-22).
Definition c180 : float := of_Z 180.
(** [DEG2RAD = 3.141592653589793f / 180.0f], computed in single precision. *)
Definition DEG2RAD : float := (F_PI / c180)%f32.

Definition c0_9 : float := b32 15099494 (-24).      (* 0.9 *)
Definition c0_23 : float := b32 15435039 (-26).     (* 0.23 *)
Definition c1em3 : float := b32 8589935 (-33).      (* 1.0e-3f, 0.001f *)
Definition c1em6 : float := b32 8796093 (-43).      (* 0.000001f *)
Definition c1em4 : float := b32 13743895 (-37).     (* 0.0001f, 1e-4f *)
Definition c1em5 : float := b32 10995116 (-40).     (* 1e-5f *)
Definition c1em2 : float := b32 10737418 (-30).     (* 0.01f, 1e-2f *)
Definition c0_002 : float := b32 8589935 (-32).     (* 0.002f *)
Definition c0_1 : float := b32 13421773 (-27).      (* 0.1f *)
Definition c1e6 : float := of_Z 1000000.            (* 1000000.0f, 1.0e6f *)
Definition c1e7 : float := of_Z 10000000.           (* 10.0e6f *)
Definition c4 : float := of_Z 4.                    (* 4.0f *)
Definition c5 : float := of_Z 5.                    (* 5.0f *)
Definition c25 : float := of_Z 25.                  (* 25.0f *)
Definition earth_radius : float := of_Z 6378137.    (* 6.378137E6f *)
Definition minus_one : float := of_Z (-1).          (* -1.0f *)

End Lit.

(** ** Predicates on binary32 values *)

(** Zero or NaN: what is left of a product with a zero factor. *)
Definition zero_or_nan (a : float) : bool :=
  match a with S754_zero _ | S754_nan => true | _ => false end.

(** The sign a rounding carries is the sign it was given. *)
Definition sign_is (s : bool) (a : float) : Prop :=
  match a with
  | S754_zero s' | S754_infinity s' | S754_finite s' _ _ => s' = s
  | S754_nan => True
  end.

(** Not negative under C's [<]: a NaN is not negative either. *)
Definition not_negative (a : float) : Prop := (a <? F32.zero)%f32 = false.

(** Two floats denote the same value: both NaN, or equal under C's [==]
    (which identifies the two zeros). *)
Definition same_value (a b : float) : Prop :=
  match a, b with
  | S754_nan, S754_nan => True
  | _, _ => F32.eqb a b = true
  end.

(** ** Data model: the UAVObjects and structures the module touches

    The generated UAVObject headers are not part of the sources; the fields
    below are the ones attitude.c reads or writes, with the units the
    interface lists (latitude and longitude are integers in 1e-7 degree). *)

Record Vec3 := mkVec3 { v0 : float; v1 : float; v2 : float }.

Record Quat := mkQuat { qa : float; qb : float; qc : float; qd : float }.

(** A row-major 3x3 matrix, [float Rbe[3][3]]. *)
Record Mat3 := mkMat3 { row0 : Vec3; row1 : Vec3; row2 : Vec3 }.

(** [GyrosData], [AccelsData], [MagnetometerData], [GyrosBiasData]. *)
Record XYZ := mkXYZ { x : float; y : float; z : float }.

(** [PositionActualData], [VelocityActualData], [NEDPositionData]. *)
Record NEDData := mkNED { North : float; East : float; Down : float }.

Record AttitudeActualData := mkAttitudeActual {
  q1 : float; q2 : float; q3 : float; q4 : float;
  Roll : float; Pitch : float; Yaw : float }.

Record GPSPositionData := mkGPSPosition {
  gps_Latitude : Z;            (* int32, 1e-7 degree *)
  gps_Longitude : Z;           (* int32, 1e-7 degree *)
  gps_Altitude : float;
  gps_GeoidSeparation : float;
  gps_Heading : float;
  gps_Groundspeed : float;
  gps_PDOP : float;
  gps_Satellites : Z }.

Record HomeLocationData := mkHomeLocation {
  home_Latitude : Z;           (* int32, 1e-7 degree *)
  home_Longitude : Z;
  home_Altitude : float;
  home_Be : Vec3;
  home_Set : bool }.           (* Set == HOMELOCATION_SET_TRUE *)

Record AttitudeSettingsData := mkAttitudeSettings {
  AccelKp : float;
  AccelKi : float;
  YawBiasRate : float;
  GyroBias : Z * Z * Z;        (* int16 x 3 *)
  ZeroDuringArming : bool }.   (* == ATTITUDESETTINGS_ZERODURINGARMING_TRUE *)

Record RevoCalibrationData := mkRevoCalibration {
  mag_var : Vec3; accel_var : Vec3; gyro_var : Vec3 }.

Inductive FusionAlgorithm :=
| FUSIONALGORITHM_COMPLIMENTARY
| FUSIONALGORITHM_INSOUTDOOR
| FUSIONALGORITHM_INSINDOOR
| FUSIONALGORITHM_other (raw : Z).

Inductive ArmedState := DISARMED | ARMING | ARMED.

Inductive AlarmLevel := ALARM_CLEARED | ALARM_WARNING | ALARM_ERROR.

(** The state the INS engine (insgps.h) exposes through [Nav]. *)
Record NavStruct := mkNav {
  Nav_Pos : Vec3; Nav_Vel : Vec3; Nav_q : Quat; Nav_gyro_bias : Vec3 }.

(** The engine is opaque: the model records the calls made to it, newest
    first, and reads [Nav] as a function of that history. *)
Inductive ins_call :=
| INSGPSInit
| INSSetMagVar (v : Vec3)
| INSSetAccelVar (v : Vec3)
| INSSetGyroVar (v : Vec3)
| INSSetMagNorth (B : Vec3)
| INSSetPosVelVar (posvar velvar : float)
| INSSetGyroBias (b : Vec3)
| INSSetState (pos vel : Vec3) (q : Quat) (gyro_bias accel_bias : Vec3)
| INSResetP (Pdiag : list float)
| INSStatePrediction (gyros accels : Vec3) (dT : float)
| INSCovariancePrediction (dT : float)
| INSCorrection (mag NED vel : Vec3) (baro : float) (sensors : Z).

(** Objects published with a [...Set] call, for the publication log. *)
Inductive uavo :=
| OBJ_AttitudeActual | OBJ_GyrosBias | OBJ_PositionActual
| OBJ_VelocityActual | OBJ_NEDPosition.

(** The objects this module publishes, with the log of [...Set] calls
    (newest first) and the attitude alarm. *)
Record Published := mkPublished {
  AttitudeActual : AttitudeActualData;
  GyrosBias : XYZ;
  PositionActual : NEDData;
  VelocityActual : NEDData;
  NEDPosition : NEDData;
  set_log : list uavo;
  alarm : AlarmLevel }.

(** File-scope cache refreshed by [settingsUpdatedCb]. *)
Record Config := mkConfig {
  attitudeSettings : AttitudeSettingsData;
  homeLocation : HomeLocationData;
  revoCalibration : RevoCalibrationData;
  revoSettings : FusionAlgorithm;
  T : Vec3 }.

(** Statics and globals of the complementary filter. *)
Record CompState := mkCompState {
  timeval : Z;
  init : Z;                    (* uint8_t init, 0 or 1 *)
  accel_mag : float;
  qmag : float;
  mag_err : Vec3 }.

(** Statics and globals of the INSGPS filter. *)
Record InsState := mkInsState {
  init_stage : Z;              (* int32_t *)
  inited : bool;
  mag_updated : bool;
  baro_updated : bool;
  gps_updated : bool;
  ins_last_time : Z }.

Record State := mkState {
  pub : Published;
  cfg : Config;
  comp : CompState;
  insst : InsState;
  ins : list ins_call }.

(** What one cycle reads from its environment: the outcome of each
    [xQueueReceive] it may perform, the current value of every input
    UAVObject, and the readings of the tick counter and of the delay
    timer. *)
Record Inputs := mkInputs {
  gyro_rx : bool;
  accel_rx : bool;
  mag_rx : bool;
  baro_rx : bool;
  gps_rx : bool;
  Gyros : XYZ;
  Accels : XYZ;
  Magnetometer : XYZ;
  BaroAltitude : float;
  GPSPosition : GPSPositionData;
  HomeLocation : HomeLocationData;
  AttitudeSettings : AttitudeSettingsData;
  RevoCalibration : RevoCalibrationData;
  RevoSettings : FusionAlgorithm;
  FlightStatus_Armed : ArmedState;
  tick_first : Z;              (* first xTaskGetTickCount() of the cycle *)
  tick_second : Z;             (* second xTaskGetTickCount() of the cycle *)
  delay_diff_us : Z;           (* PIOS_DELAY_DiffuS(...), uint32 *)
  delay_raw : Z }.             (* PIOS_DELAY_GetRaw() *)

(** ** Record updates *)

Definition set_alarm (a : AlarmLevel) (p : Published) : Published :=
  mkPublished (AttitudeActual p) (GyrosBias p) (PositionActual p)
    (VelocityActual p) (NEDPosition p) (set_log p) a.

Definition AttitudeActualSet (d : AttitudeActualData) (p : Published) : Published :=
  mkPublished d (GyrosBias p) (PositionActual p) (VelocityActual p)
    (NEDPosition p) (OBJ_AttitudeActual :: set_log p) (alarm p).

Definition GyrosBiasSet (d : XYZ) (p : Published) : Published :=
  mkPublished (AttitudeActual p) d (PositionActual p) (VelocityActual p)
    (NEDPosition p) (OBJ_GyrosBias :: set_log p) (alarm p).

Definition PositionActualSet (d : NEDData) (p : Published) : Published :=
  mkPublished (AttitudeActual p) (GyrosBias p) d (VelocityActual p)
    (NEDPosition p) (OBJ_PositionActual :: set_log p) (alarm p).

Definition VelocityActualSet (d : NEDData) (p : Published) : Published :=
  mkPublished (AttitudeActual p) (GyrosBias p) (PositionActual p) d
    (NEDPosition p) (OBJ_VelocityActual :: set_log p) (alarm p).

Definition NEDPositionSet (d : NEDData) (p : Published) : Published :=
  mkPublished (AttitudeActual p) (GyrosBias p) (PositionActual p)
    (VelocityActual p) d (OBJ_NEDPosition :: set_log p) (alarm p).

Definition with_pub (p : Published) (s : State) : State :=
  mkState p (cfg s) (comp s) (insst s) (ins s).
Definition with_cfg (c : Config) (s : State) : State :=
  mkState (pub s) c (comp s) (insst s) (ins s).
Definition with_comp (c : CompState) (s : State) : State :=
  mkState (pub s) (cfg s) c (insst s) (ins s).
Definition with_insst (c : InsState) (s : State) : State :=
  mkState (pub s) (cfg s) (comp s) c (ins s).
Definition with_ins (l : list ins_call) (s : State) : State :=
  mkState (pub s) (cfg s) (comp s) (insst s) l.

Definition AlarmsSet (a : AlarmLevel) (s : State) : State :=
  with_pub (set_alarm a (pub s)) s.
Definition AlarmsClear (s : State) : State :=
  with_pub (set_alarm ALARM_CLEARED (pub s)) s.

Definition set_attitudeSettings (a : AttitudeSettingsData) (c : Config) : Config :=
  mkConfig a (homeLocation c) (revoCalibration c) (revoSettings c) (T c).

(** [AccelKp = 1; AccelKi = 0.9; YawBiasRate = 0.23] on the cached settings. *)
Definition force_high_gains (a : AttitudeSettingsData) : AttitudeSettingsData :=
  mkAttitudeSettings F32.one Lit.c0_9 Lit.c0_23 (GyroBias a) (ZeroDuringArming a).

(** ** Machine integers *)

Definition int32_wrap (n : Z) : Z := (n + 2 ^ 31) mod 2 ^ 32 - 2 ^ 31.
Definition uint16_wrap (n : Z) : Z := n mod 2 ^ 16.
Definition INT32_MAX : Z := 2 ^ 31 - 1.

(** ** CoordinateConversions helpers *)

Definition quat_of_attitude (a : AttitudeActualData) : Quat :=
  mkQuat (q1 a) (q2 a) (q3 a) (q4 a).

Local Open Scope f32_scope.

(** Modelled from the spec: [CrossProduct] of CoordinateConversions.h is not
    among the sources; the spec has the two vectors crossed, which is the
    usual component formula, each product and difference rounded. *)
Definition CrossProduct (a b : Vec3) : Vec3 :=
  mkVec3 (v1 a * v2 b - v1 b * v2 a)
         (v0 b * v2 a - v0 a * v2 b)
         (v0 a * v1 b - v0 b * v1 a).

(** Modelled from the spec: [Quaternion2R] of CoordinateConversions.h is not
    among the sources; the spec has the quaternion rotate an earth-frame
    vector into the body frame.  Its third column is the gravity rotation
    attitude.c writes out inline. *)
Definition Quaternion2R (q : Quat) : Mat3 :=
  let q0s := qa q * qa q in
  let q1s := qb q * qb q in
  let q2s := qc q * qc q in
  let q3s := qd q * qd q in
  mkMat3
    (mkVec3 (q0s + q1s - q2s - q3s)
            (F32.two * (qb q * qc q + qa q * qd q))
            (F32.two * (qb q * qd q - qa q * qc q)))
    (mkVec3 (F32.two * (qb q * qc q - qa q * qd q))
            (q0s - q1s + q2s - q3s)
            (F32.two * (qc q * qd q + qa q * qb q)))
    (mkVec3 (F32.two * (qb q * qd q + qa q * qc q))
            (F32.two * (qc q * qd q - qa q * qb q))
            (q0s - q1s - q2s + q3s)).

(** Modelled from the spec: [rot_mult] of CoordinateConversions.h is not
    among the sources; it applies the rotation matrix to a vector. *)
Definition rot_mult (R : Mat3) (v : Vec3) : Vec3 :=
  let dot r := v0 r * v0 v + v1 r * v1 v + v2 r * v2 v in
  mkVec3 (dot (row0 R)) (dot (row1 R)) (dot (row2 R)).

Definition vec3_of_xyz (a : XYZ) : Vec3 := mkVec3 (x a) (y a) (z a).

Definition vec3_div (a : Vec3) (d : float) : Vec3 :=
  mkVec3 (v0 a / d) (v1 a / d) (v2 a / d).

Definition norm3 (a : Vec3) : float :=
  F32.sqrtf (v0 a * v0 a + v1 a * v1 a + v2 a * v2 a).

Definition zero3 : Vec3 := mkVec3 F32.zero F32.zero F32.zero.

Definition identity_quat : Quat := mkQuat F32.one F32.zero F32.zero F32.zero.

(** [float magKi = 0.000001f; float magKp = 0.0001f;] *)
Definition magKi : float := Lit.c1em6.
Definition magKp : float := Lit.c1em4.

(** ** Coordinate transform *)

(** [getNED]: the linearised LLA to NED conversion around the cached home
    location, with the coefficients [T] of the cache.  The latitude and
    longitude differences are [int32] subtractions. *)
Definition getNED (c : Config) (gpsPosition : GPSPositionData) : Z * Vec3 :=
  let h := homeLocation c in
  let dL0 := F32.of_Z (int32_wrap (gps_Latitude gpsPosition - home_Latitude h))
             / Lit.c1e7 * Lit.DEG2RAD in
  let dL1 := F32.of_Z (int32_wrap (gps_Longitude gpsPosition - home_Longitude h))
             / Lit.c1e7 * Lit.DEG2RAD in
  let dL2 := gps_Altitude gpsPosition + gps_GeoidSeparation gpsPosition
             - home_Altitude h in
  (0%Z, mkVec3 (v0 (T c) * dL0) (v1 (T c) * dL1) (v2 (T c) * dL2)).

Local Close Scope f32_scope.

(** ** The estimation code

    What the sources take from outside the file is gathered in one
    interface: the C library's trigonometry, the Euler-angle conversions of
    CoordinateConversions.h, the [Nav] structure of the INS engine (read as
    a function of the calls made so far) and the sensor masks of insgps.h. *)

Class Externals := mkExternals {
  cosf : float -> float;
  sinf : float -> float;
  atan2f : float -> float -> float;
  Quaternion2RPY : Quat -> Vec3;
  RPY2Quaternion : Vec3 -> Quat;
  Nav : list ins_call -> NavStruct;
  MAG_SENSORS : Z;
  BARO_SENSOR : Z;
  POS_SENSORS : Z;
  HORIZ_SENSORS : Z;
  HORIZ_POS_SENSORS : Z }.

Section Attitude.

Context {ext : Externals}.

Local Open Scope f32_scope.

(** *** settingsUpdatedCb *)

Definition settingsUpdatedCb (i : Inputs) (s : State) : State :=
  let a := AttitudeSettings i in
  let cal := RevoCalibration i in
  let h := HomeLocation i in
  let '(bx, by_, bz) := GyroBias a in
  let gyrosBias := mkXYZ (F32.of_Z bx / F32.of_Z 100)
                         (F32.of_Z by_ / F32.of_Z 100)
                         (F32.of_Z bz / F32.of_Z 100) in
  let lat := F32.of_Z (home_Latitude h) / Lit.c1e7 * Lit.DEG2RAD in
  let alt := home_Altitude h in
  let T' := mkVec3 (alt + Lit.earth_radius)
                   (cosf lat * (alt + Lit.earth_radius))
                   Lit.minus_one in
  mkState (GyrosBiasSet gyrosBias (pub s))
          (mkConfig a h cal (RevoSettings i) T')
          (comp s) (insst s)
          (INSSetGyroVar (gyro_var cal) :: INSSetAccelVar (accel_var cal)
             :: INSSetMagVar (mag_var cal) :: ins s).

(** *** updateAttitudeComplimentary *)

(** Lines 299-310: gravity rotated to the body frame, crossed with the
    accelerometer vector, divided by the accelerometer magnitude. *)
Definition gravity_body (q : Quat) : Vec3 :=
  mkVec3 (- (F32.two * (qb q * qd q - qa q * qc q)))
         (- (F32.two * (qc q * qd q + qa q * qb q)))
         (- (qa q * qa q - qb q * qb q - qc q * qc q + qd q * qd q)).

Definition accel_magnitude (a : XYZ) : float :=
  F32.sqrtf (x a * x a + y a * y a + z a * z a).

Definition accel_error (q : Quat) (a : XYZ) : Vec3 :=
  vec3_div (CrossProduct (vec3_of_xyz a) (gravity_body q)) (accel_magnitude a).

(** Lines 320-339: the home field rotated to the body frame, both vectors
    normalised, and their cross product unless a magnitude is below 1. *)
Definition mag_cross (q : Quat) (mag : XYZ) (home : HomeLocationData) : Vec3 :=
  let brot := rot_mult (Quaternion2R q) (home_Be home) in
  let mag_len := norm3 (vec3_of_xyz mag) in
  let magn := vec3_div (vec3_of_xyz mag) mag_len in
  let bmag := norm3 brot in
  let brotn := vec3_div brot bmag in
  if (bmag <? F32.one) || (mag_len <? F32.one) then zero3
  else CrossProduct magn brotn.

(** Lines 312-342: the magnetometer error.  [received] is
    [xQueueReceive(magQueue, &ev, 0) == pdTRUE]; the source enters the
    computing branch when the receive does NOT return pdTRUE. *)
Definition mag_error (received : bool) (q : Quat) (mag : XYZ)
           (home : HomeLocationData) : Vec3 :=
  if negb received then mag_cross q mag home else zero3.

(** The yaw error as the specification words it (4.2, step 5): with a new
    magnetometer sample the cross product above, zero under the threshold;
    without a new sample, zero. *)
Definition yaw_error_spec (new_sample : bool) (q : Quat) (mag : XYZ)
           (home : HomeLocationData) : Vec3 :=
  if new_sample then mag_cross q mag home else zero3.

(** Lines 357-363: the quaternion derivative times [dT], gyros in deg/s. *)
Definition quat_step (q : Quat) (g : XYZ) (dT : float) : Quat :=
  let scale v := v * dT * Lit.F_PI / Lit.c180 / F32.two in
  mkQuat
    (qa q + scale (- qb q * x g - qc q * y g - qd q * z g))
    (qb q + scale (qa q * x g - qd q * y g + qc q * z g))
    (qc q + scale (qd q * x g + qa q * y g - qb q * z g))
    (qd q + scale (- qc q * x g + qb q * y g + qa q * z g)).

(** Lines 371-376: sign canonicalisation. *)
Definition quat_positive (q : Quat) : Quat :=
  if qa q <? F32.zero
  then mkQuat (- qa q) (- qb q) (- qc q) (- qd q)
  else q.

Definition quat_norm (q : Quat) : float :=
  F32.sqrtf (qa q * qa q + qb q * qb q + qc q * qc q + qd q * qd q).

(** Lines 378-392: renormalisation and the reinitialisation guard. *)
Definition quat_renormalize (q : Quat) : Quat :=
  let m := quat_norm q in
  if (F32.fabs m <? Lit.c1em3) || F32.neb m m
  then identity_quat
  else mkQuat (qa q / m) (qb q / m) (qc q / m) (qd q / m).

(** Lines 259-279: gain scheduling; returns the cached settings and [init]. *)
Definition gain_schedule (first_run : bool) (i : Inputs) (s : State)
  : AttitudeSettingsData * Z :=
  let init0 := if first_run then 0%Z else init (comp s) in
  let a := attitudeSettings (cfg s) in
  if (init0 =? 0)%Z && (tick_first i <? 7000)%Z && (1000 <? tick_second i)%Z
  then (force_high_gains a, init0)
  else if ZeroDuringArming a
          && match FlightStatus_Armed i with ARMING => true | _ => false end
  then (force_high_gains a, 0%Z)
  else if (init0 =? 0)%Z
  then (AttitudeSettings i, 1%Z)
  else (a, init0).

(** Lines 401-423: GPS passthrough to PositionActual and VelocityActual. *)
Definition gps_passthrough (i : Inputs) (c : Config) (p : Published) : Published :=
  if gps_rx i && home_Set (homeLocation c) then
    let g := GPSPosition i in
    let NED := snd (getNED c g) in
    let p1 := PositionActualSet (mkNED (v0 NED) (v1 NED) (v2 NED)) p in
    let course := gps_Heading g * Lit.F_PI / Lit.c180 in
    VelocityActualSet
      (mkNED (gps_Groundspeed g * cosf course)
             (gps_Groundspeed g * sinf course)
             F32.zero) p1
  else p.

Definition updateAttitudeComplimentary (first_run : bool) (i : Inputs)
           (s : State) : State * Z :=
  if negb (gyro_rx i) then (AlarmsSet ALARM_WARNING s, (-1)%Z)
  else if negb (accel_rx i) then (AlarmsSet ALARM_WARNING s, (-1)%Z)
  else
    let '(settings, init') := gain_schedule first_run i s in
    let c := set_attitudeSettings settings (cfg s) in
    let gyrosData := Gyros i in
    let accelsData := Accels i in
    let dT := F32.of_Z (delay_diff_us i) / Lit.c1e6 in
    let q := quat_of_attitude (AttitudeActual (pub s)) in
    let accel_err := accel_error q accelsData in
    let mag_err' := mag_error (mag_rx i) q (Magnetometer i) (HomeLocation i) in
    let b := GyrosBias (pub s) in
    let gyrosBias := mkXYZ (x b + v0 accel_err * AccelKi settings)
                           (y b + v1 accel_err * AccelKi settings)
                           (z b + v2 mag_err' * magKi) in
    let p1 := GyrosBiasSet gyrosBias (pub s) in
    let g := mkXYZ
               (x gyrosData + v0 accel_err * AccelKp settings / dT)
               (y gyrosData + v1 accel_err * AccelKp settings / dT)
               (z gyrosData + (v2 accel_err * AccelKp settings / dT
                               + v2 mag_err' * magKp / dT)) in
    let qn := quat_positive (quat_step q g dT) in
    let q' := quat_renormalize qn in
    let rpy := Quaternion2RPY q' in
    let p2 := AttitudeActualSet
                (mkAttitudeActual (qa q') (qb q') (qc q') (qd q')
                                  (v0 rpy) (v1 rpy) (v2 rpy)) p1 in
    let p3 := gps_passthrough i c p2 in
    (mkState (set_alarm ALARM_CLEARED p3) c
             (mkCompState (delay_raw i) init' (accel_magnitude accelsData)
                          (quat_norm qn) mag_err')
             (insst s) (ins s),
     0%Z).

(** *** updateAttitudeINSGPS *)

(** [Pdiag] of lines 508 and 533. *)
Definition Pdiag : list float :=
  [Lit.c25; Lit.c25; Lit.c25; Lit.c5; Lit.c5; Lit.c5;
   Lit.c1em5; Lit.c1em5; Lit.c1em5; Lit.c1em5; Lit.c1em5; Lit.c1em5;
   Lit.c1em5; Lit.c1em4; Lit.c1em4; Lit.c1em4].

(** Lines 520-524 and 553-556: levelling from the accelerometer and the
    heading from the magnetometer. *)
Definition initial_attitude (a m : XYZ) : Quat :=
  RPY2Quaternion
    (mkVec3 (atan2f (x a) (z a) * Lit.c180 / Lit.F_PI)
            (atan2f (y a) (z a) * Lit.c180 / Lit.F_PI)
            (atan2f (x m) (- y m) * Lit.c180 / Lit.F_PI)).

(** Lines 563-565 and 593-595: the bias is added back, degrees to radians. *)
Definition gyros_rad (g b : XYZ) : Vec3 :=
  mkVec3 ((x g + x b) * Lit.F_PI / Lit.c180)
         ((y g + y b) * Lit.F_PI / Lit.c180)
         ((z g + z b) * Lit.F_PI / Lit.c180).

(** Lines 584-588. *)
Definition clamp_dT (dT : float) : float :=
  if Lit.c1em2 <? dT then Lit.c1em2
  else if dT <=? Lit.c1em3 then Lit.c1em3
  else dT.

(** Lines 507-567: the engine calls of one initialisation cycle. *)
Definition init_calls (outdoor_mode : bool) (i : Inputs) (s : State)
  : list ins_call :=
  let cal := revoCalibration (cfg s) in
  let stage := init_stage (insst s) in
  let q := initial_attitude (Accels i) (Magnetometer i) in
  if (stage =? 0)%Z && negb outdoor_mode then
    let pos := mkVec3 F32.zero F32.zero (BaroAltitude i * Lit.minus_one) in
    INSResetP Pdiag :: INSSetState pos zero3 q zero3 zero3
      :: INSSetGyroVar (gyro_var cal) :: INSSetAccelVar (accel_var cal)
      :: INSSetMagVar (mag_var cal) :: INSGPSInit :: ins s
  else if (stage =? 0)%Z && outdoor_mode then
    let NED := snd (getNED (cfg s) (GPSPosition i)) in
    INSResetP Pdiag :: INSSetState NED zero3 q zero3 zero3
      :: INSSetMagNorth (home_Be (HomeLocation i))
      :: INSSetGyroVar (gyro_var cal) :: INSSetAccelVar (accel_var cal)
      :: INSSetMagVar (mag_var cal) :: INSGPSInit :: ins s
  else if (0 <? stage)%Z then
    INSStatePrediction (gyros_rad (Gyros i) (GyrosBias (pub s)))
                       (vec3_of_xyz (Accels i)) Lit.c0_002 :: ins s
  else ins s.

Definition xyz_of_vec3 (v : Vec3) : XYZ := mkXYZ (v0 v) (v1 v) (v2 v).
Definition ned_of_vec3 (v : Vec3) : NEDData := mkNED (v0 v) (v1 v) (v2 v).

(** Lines 619-655: the measurement vectors and the mask handed to
    [INSCorrection]; [sensors] is a [uint16_t]. *)
Definition sensor_mask (outdoor_mode mag_u baro_u gps_u : bool) : Z :=
  let s0 := 0%Z in
  let s1 := if mag_u then uint16_wrap (Z.lor s0 MAG_SENSORS) else s0 in
  let s2 := if baro_u then uint16_wrap (Z.lor s1 BARO_SENSOR) else s1 in
  if gps_u && outdoor_mode then uint16_wrap (Z.lor POS_SENSORS HORIZ_SENSORS)
  else if negb outdoor_mode
  then uint16_wrap (Z.lor s2 (Z.lor HORIZ_SENSORS HORIZ_POS_SENSORS))
  else s2.

Definition gps_velocity (g : GPSPositionData) : Vec3 :=
  let course := gps_Heading g * Lit.F_PI / Lit.c180 in
  mkVec3 (gps_Groundspeed g * cosf course)
         (gps_Groundspeed g * sinf course)
         F32.zero.

(** Lines 581-684: one cycle of the running filter. *)
Definition ins_running (outdoor_mode mag_u baro_u gps_u : bool) (i : Inputs)
           (p0 : Published) (s : State) : State * Z :=
  let dT := clamp_dT (F32.of_Z (delay_diff_us i) / Lit.c1e6) in
  let accels := vec3_of_xyz (Accels i) in
  let e1 := INSStatePrediction (gyros_rad (Gyros i) (GyrosBias p0)) accels dT
              :: ins s in
  let nq := Nav_q (Nav e1) in
  let rpy := Quaternion2RPY nq in
  let p1 := AttitudeActualSet
              (mkAttitudeActual (qa nq) (qb nq) (qc nq) (qd nq)
                                (v0 rpy) (v1 rpy) (v2 rpy)) p0 in
  let p2 := GyrosBiasSet (xyz_of_vec3 (Nav_gyro_bias (Nav e1))) p1 in
  let e2 := INSCovariancePrediction dT :: e1 in
  let e3 := INSSetMagNorth (home_Be (HomeLocation i)) :: e2 in
  let sensors := sensor_mask outdoor_mode mag_u baro_u gps_u in
  let '(e4, p3, NED, vel) :=
    if gps_u && outdoor_mode then
      let NED := snd (getNED (cfg s) (GPSPosition i)) in
      (INSSetPosVelVar Lit.c1em2 Lit.c1em2 :: e3,
       NEDPositionSet (ned_of_vec3 NED) p2,
       NED, gps_velocity (GPSPosition i))
    else if negb outdoor_mode then
      (INSSetPosVelVar Lit.c1em2 Lit.c1em2 :: e3, p2,
       mkVec3 F32.zero F32.zero (BaroAltitude i), zero3)
    else (e3, p2, zero3, zero3) in
  let e5 := if (sensors =? 0)%Z then e4
            else INSCorrection (vec3_of_xyz (Magnetometer i)) NED vel
                               (BaroAltitude i) sensors :: e4 in
  let p4 := PositionActualSet (ned_of_vec3 (Nav_Pos (Nav e5))) p3 in
  let p5 := VelocityActualSet (ned_of_vec3 (Nav_Vel (Nav e5))) p4 in
  let b := Nav_gyro_bias (Nav e5) in
  let e6 := if (Lit.c0_1 <? F32.fabs (v0 b)) || (Lit.c0_1 <? F32.fabs (v1 b))
               || (Lit.c0_1 <? F32.fabs (v2 b))
            then INSSetGyroBias zero3 :: e5 else e5 in
  (mkState p5 (cfg s) (comp s)
           (mkInsState (init_stage (insst s)) true mag_u baro_u gps_u
                       (delay_raw i))
           e6,
   0%Z).

Definition updateAttitudeINSGPS (first_run outdoor_mode : bool) (i : Inputs)
           (s : State) : State * Z :=
  let st := insst s in
  let inited0 := if first_run then false else inited st in
  if negb (gyro_rx i) || negb (accel_rx i) then
    (AlarmsSet ALARM_WARNING
       (with_insst (mkInsState (init_stage st) inited0 (mag_updated st)
                               (baro_updated st) (gps_updated st)
                               (ins_last_time st)) s),
     (-1)%Z)
  else
    let mag_u := (if inited0 then false else mag_updated st) || mag_rx i in
    let baro_u := (if inited0 then false else baro_updated st) || baro_rx i in
    let gps_u0 := (if inited0 then false else gps_updated st)
                  || (gps_rx i && outdoor_mode) in
    let g := GPSPosition i in
    let gps_u := gps_u0 && ((7 <=? gps_Satellites g)%Z
                            && (gps_PDOP g <=? Lit.c4)
                            && home_Set (homeLocation (cfg s))) in
    let level := if negb inited0 then ALARM_ERROR
                 else if outdoor_mode && (gps_Satellites g <? 7)%Z
                 then ALARM_ERROR
                 else ALARM_CLEARED in
    let p0 := set_alarm level (pub s) in
    if negb inited0 && mag_u && baro_u && (gps_u || negb outdoor_mode) then
      let stage' := int32_wrap (init_stage st + 1) in
      let inited' := if (10 <? stage')%Z then true else inited0 in
      (mkState p0 (cfg s) (comp s)
               (mkInsState stage' inited' mag_u baro_u gps_u (delay_raw i))
               (init_calls outdoor_mode i s),
       (-1)%Z)
    else if negb inited0 then
      (mkState p0 (cfg s) (comp s)
               (mkInsState (init_stage st) inited0 mag_u baro_u gps_u
                           (ins_last_time st))
               (ins s),
       (-1)%Z)
    else ins_running outdoor_mode mag_u baro_u gps_u i p0 s.

(** *** AttitudeTask: one iteration of the main loop *)

Definition FusionAlgorithm_eqb (a b : FusionAlgorithm) : bool :=
  match a, b with
  | FUSIONALGORITHM_COMPLIMENTARY, FUSIONALGORITHM_COMPLIMENTARY => true
  | FUSIONALGORITHM_INSOUTDOOR, FUSIONALGORITHM_INSOUTDOOR => true
  | FUSIONALGORITHM_INSINDOOR, FUSIONALGORITHM_INSINDOOR => true
  | FUSIONALGORITHM_other n, FUSIONALGORITHM_other m => (n =? m)%Z
  | _, _ => false
  end.

Record TaskLocals := mkTaskLocals {
  first_run : bool;
  last_algorithm : FusionAlgorithm }.

(** [last_algorithm = 0xfffffff] before the loop; [first_run] is set by
    the first iteration. *)
Definition task_start : TaskLocals :=
  mkTaskLocals false (FUSIONALGORITHM_other 268435455).

Definition AttitudeTask_iteration (l : TaskLocals) (i : Inputs) (s : State)
  : TaskLocals * State :=
  let alg := revoSettings (cfg s) in
  let changed := negb (FusionAlgorithm_eqb (last_algorithm l) alg) in
  let fr := if changed then true else first_run l in
  let s' :=
    match alg with
    | FUSIONALGORITHM_COMPLIMENTARY => fst (updateAttitudeComplimentary fr i s)
    | FUSIONALGORITHM_INSOUTDOOR => fst (updateAttitudeINSGPS fr true i s)
    | FUSIONALGORITHM_INSINDOOR => fst (updateAttitudeINSGPS fr false i s)
    | FUSIONALGORITHM_other _ => AlarmsSet ALARM_ERROR s
    end in
  (mkTaskLocals false alg, s').

Local Close Scope f32_scope.

End Attitude.

(** ** Observations on states and traces *)

(** The estimates a cycle may publish: every object with its [...Set] log. *)
Definition estimates (s : State) :=
  (AttitudeActual (pub s), GyrosBias (pub s), PositionActual (pub s),
   VelocityActual (pub s), NEDPosition (pub s), set_log (pub s)).

(** The engine calls made between two states, newest first. *)
Definition new_calls (before after : State) : list ins_call :=
  firstn (length (ins after) - length (ins before)) (ins after).

(** The mask of the newest [INSCorrection] of a trace. *)
Fixpoint last_correction (l : list ins_call) : option Z :=
  match l with
  | [] => None
  | INSCorrection _ _ _ _ m :: _ => Some m
  | _ :: r => last_correction r
  end.

Definition is_INSGPSInit (c : ins_call) : bool :=
  match c with INSGPSInit => true | _ => false end.

Definition set_home_Set (b : bool) (c : Config) : Config :=
  let h := homeLocation c in
  mkConfig (attitudeSettings c)
    (mkHomeLocation (home_Latitude h) (home_Longitude h) (home_Altitude h)
                    (home_Be h) b)
    (revoCalibration c) (revoSettings c) (T c).

Definition set_YawBiasRate (r : float) (a : AttitudeSettingsData)
  : AttitudeSettingsData :=
  mkAttitudeSettings (AccelKp a) (AccelKi a) r (GyroBias a) (ZeroDuringArming a).

(** The cached settings with another [YawBiasRate]. *)
Definition state_with_YawBiasRate (r : float) (s : State) : State :=
  with_cfg (set_attitudeSettings
              (set_YawBiasRate r (attitudeSettings (cfg s))) (cfg s)) s.

(** The AttitudeSettings object with another [YawBiasRate]. *)
Definition inputs_with_YawBiasRate (r : float) (i : Inputs) : Inputs :=
  mkInputs (gyro_rx i) (accel_rx i) (mag_rx i) (baro_rx i) (gps_rx i)
    (Gyros i) (Accels i) (Magnetometer i) (BaroAltitude i) (GPSPosition i)
    (HomeLocation i) (set_YawBiasRate r (AttitudeSettings i))
    (RevoCalibration i) (RevoSettings i) (FlightStatus_Armed i)
    (tick_first i) (tick_second i) (delay_diff_us i) (delay_raw i).

(** ** A concrete instance of the interface

    To run the code on examples.  The masks occupy disjoint bit fields, in
    the layout of OpenPilot's insgps.h (which is not among the sources); the
    functions are stand-ins, on which no example depends. *)
Definition example_externals : Externals :=
  {| cosf := fun _ => F32.one;
     sinf := fun _ => F32.zero;
     atan2f := fun _ _ => F32.zero;
     Quaternion2RPY := fun _ => zero3;
     RPY2Quaternion := fun _ => identity_quat;
     Nav := fun _ => mkNav zero3 zero3 identity_quat zero3;
     MAG_SENSORS := 448;
     BARO_SENSOR := 512;
     POS_SENSORS := 7;
     HORIZ_SENSORS := 24;
     HORIZ_POS_SENSORS := 3 |}.

(** ** Example states and inputs *)

Definition example_settings : AttitudeSettingsData :=
  mkAttitudeSettings (F32.of_Z 1) Lit.c1em2 Lit.c1em2 (0, 0, 0) false.

Definition example_home : HomeLocationData :=
  mkHomeLocation 370000000 (-1220000000) (F32.of_Z 10)
                 (mkVec3 (F32.of_Z 200) (F32.of_Z 50) (F32.of_Z 400)) true.

Definition example_calibration : RevoCalibrationData :=
  mkRevoCalibration zero3 zero3 zero3.

Definition example_gps : GPSPositionData :=
  mkGPSPosition 370001000 (-1220000000) (F32.of_Z 10) F32.zero
                F32.zero F32.zero F32.one 9.

(** All sensors report; the vehicle is level and at rest, 2 ms after the
    previous cycle, well after boot. *)
Definition example_inputs : Inputs :=
  mkInputs true true true true true
    (mkXYZ F32.zero F32.zero F32.zero)
    (mkXYZ F32.zero F32.zero (F32.of_Z (-10)))
    (mkXYZ (F32.of_Z 300) F32.zero (F32.of_Z 400))
    (F32.of_Z 12) example_gps example_home example_settings
    example_calibration FUSIONALGORITHM_COMPLIMENTARY DISARMED
    10000 10000 2000 123456.

Definition startup_published : Published :=
  mkPublished
    (mkAttitudeActual F32.one F32.zero F32.zero F32.zero
                      F32.zero F32.zero F32.zero)
    (mkXYZ F32.zero F32.zero F32.zero)
    (mkNED F32.zero F32.zero F32.zero)
    (mkNED F32.zero F32.zero F32.zero)
    (mkNED F32.zero F32.zero F32.zero)
    [] ALARM_CLEARED.

(** The state after [AttitudeInitialize]: identity attitude, zero bias, all
    statics at their C initial value. *)
Definition startup_state : State :=
  mkState startup_published
    (mkConfig example_settings example_home example_calibration
              FUSIONALGORITHM_COMPLIMENTARY zero3)
    (mkCompState 0 0 F32.zero F32.zero zero3)
    (mkInsState 0 false false false false 0)
    [].

(** ** Runs of the staged filter *)

Section Runs.

Context {ext : Externals}.

(** The test of line 505 in a cycle that starts uninitialised: gyro and
    accel received, and magnetometer, baro and (outdoors) a qualifying GPS
    fix seen since the flags were last cleared. *)
Definition sensors_ready (outdoor_mode : bool) (i : Inputs) (s : State) : bool :=
  let st := insst s in
  let g := GPSPosition i in
  gyro_rx i && accel_rx i
  && ((mag_updated st || mag_rx i)
      && (baro_updated st || baro_rx i)
      && ((gps_updated st || gps_rx i && outdoor_mode)
          && ((7 <=? gps_Satellites g)
              && (gps_PDOP g <=? Lit.c4)%f32
              && home_Set (homeLocation (cfg s)))
          || negb outdoor_mode)).

(** Consecutive cycles of [updateAttitudeINSGPS], each with its [first_run]
    flag and inputs; the final state and the return codes in order. *)
Fixpoint run_INSGPS (outdoor_mode : bool) (cs : list (bool * Inputs))
         (s : State) : State * list Z :=
  match cs with
  | [] => (s, [])
  | (fr, i) :: rest =>
      let r := updateAttitudeINSGPS fr outdoor_mode i s in
      let r' := run_INSGPS outdoor_mode rest (fst r) in
      (fst r', snd r :: snd r')
  end.

(** The number of cycles of a run in which [sensors_ready] held. *)
Fixpoint ready_cycles (outdoor_mode : bool) (cs : list (bool * Inputs))
         (s : State) : nat :=
  match cs with
  | [] => 0%nat
  | (fr, i) :: rest =>
      ((if sensors_ready outdoor_mode i s then 1 else 0)
       + ready_cycles outdoor_mode rest
           (fst (updateAttitudeINSGPS fr outdoor_mode i s)))%nat
  end.

End Runs.

(** The example inputs without a new magnetometer sample: the Magnetometer
    object still holds its last value. *)
Definition example_inputs_no_mag : Inputs :=
  mkInputs true true false true true
    (Gyros example_inputs) (Accels example_inputs)
    (Magnetometer example_inputs) (BaroAltitude example_inputs)
    example_gps example_home example_settings example_calibration
    FUSIONALGORITHM_COMPLIMENTARY DISARMED 10000 10000 2000 123456.

(** A gyro x rate of 3e38 deg/s, a finite binary32 value; [dT] is 2 ms. *)
Definition overflow_inputs : Inputs :=
  mkInputs true true true true false
    (mkXYZ (S754_finite false 14791142 104) F32.zero F32.zero)
    (Accels example_inputs) (Magnetometer example_inputs)
    (BaroAltitude example_inputs)
    example_gps example_home example_settings example_calibration
    FUSIONALGORITHM_COMPLIMENTARY DISARMED 10000 10000 2000 123456.

(** The same rate over a [dT] of 2 s. *)
Definition overflow_inputs_2s : Inputs :=
  mkInputs true true true true false
    (mkXYZ (S754_finite false 14791142 104) F32.zero F32.zero)
    (Accels example_inputs) (Magnetometer example_inputs)
    (BaroAltitude example_inputs)
    example_gps example_home example_settings example_calibration
    FUSIONALGORITHM_COMPLIMENTARY DISARMED 10000 10000 2000000 123456.

(** The squared norm of a quaternion as an exact rational, when all four
    components are finite. *)
Definition norm2_Q (q : Quat) : option Q :=
  match F32.to_Q (qa q), F32.to_Q (qb q), F32.to_Q (qc q), F32.to_Q (qd q) with
  | Some a, Some b, Some c, Some d => Some (a * a + b * b + c * c + d * d)%Q
  | _, _, _, _ => None
  end.

(** Norm 1 within the tolerance 1e-4. *)
Definition unit_within_tolerance (q : Quat) : Prop :=
  match norm2_Q q with
  | Some n => ((9999 # 10000) * (9999 # 10000) <= n)%Q
              /\ (n <= (10001 # 10000) * (10001 # 10000))%Q
  | None => False
  end.

(** The gyro queue times out. *)
Definition timeout_inputs : Inputs :=
  mkInputs false true true true true
    (Gyros example_inputs) (Accels example_inputs)
    (Magnetometer example_inputs) (BaroAltitude example_inputs)
    example_gps example_home example_settings example_calibration
    FUSIONALGORITHM_COMPLIMENTARY DISARMED 10000 10000 2000 123456.

(** The accelerometer reads exactly zero on every axis. *)
Definition zero_accel_inputs : Inputs :=
  mkInputs true true true true false
    (Gyros example_inputs) (mkXYZ F32.zero F32.zero F32.zero)
    (Magnetometer example_inputs) (BaroAltitude example_inputs)
    example_gps example_home example_settings example_calibration
    FUSIONALGORITHM_COMPLIMENTARY DISARMED 10000 10000 2000 123456.

(** Ten and eleven cycles of the staged filter with every sensor present. *)
Definition ten_ready_cycles : list (bool * Inputs) :=
  repeat (false, example_inputs) 10.

Definition eleven_ready_cycles : list (bool * Inputs) :=
  repeat (false, example_inputs) 11.

(** The staged filter after a completed outdoor initialisation. *)
Definition initialised_state : State :=
  fst (run_INSGPS (ext := example_externals) true eleven_ready_cycles
                  startup_state).

(** ** Runs of the complementary filter and of the task *)

Section MoreRuns.

Context {ext : Externals}.

(** Consecutive cycles of [updateAttitudeComplimentary]. *)
Fixpoint run_Complimentary (cs : list (bool * Inputs)) (s : State)
  : State * list Z :=
  match cs with
  | [] => (s, [])
  | (fr, i) :: rest =>
      let r := updateAttitudeComplimentary fr i s in
      let r' := run_Complimentary rest (fst r) in
      (fst r', snd r :: snd r')
  end.

(** Consecutive iterations of the loop of [AttitudeTask]. *)
Fixpoint run_AttitudeTask (l : TaskLocals) (inps : list Inputs) (s : State)
  : TaskLocals * State :=
  match inps with
  | [] => (l, s)
  | i :: rest =>
      let r := AttitudeTask_iteration l i s in
      run_AttitudeTask (fst r) rest (snd r)
  end.

End MoreRuns.

(** ** More observations on traces *)


Definition is_INSCorrection (c : ins_call) : bool :=
  match c with INSCorrection _ _ _ _ _ => true | _ => false end.


Definition is_INSSetGyroBias (c : ins_call) : bool :=
  match c with INSSetGyroBias _ => true | _ => false end.


Definition count_calls (p : ins_call -> bool) (l : list ins_call) : nat :=
  length (filter p l).

(** The time steps handed to the engine's two prediction calls. *)
Fixpoint prediction_steps (l : list ins_call) : list float :=
  match l with
  | [] => []
  | INSStatePrediction _ _ dT :: r => dT :: prediction_steps r
  | INSCovariancePrediction dT :: r => dT :: prediction_steps r
  | _ :: r => prediction_steps r
  end.

(** The test of line 679 on the engine's bias. *)
Definition bias_exceeds (b : Vec3) : bool :=
  (Lit.c0_1 <? F32.fabs (v0 b))%f32 || (Lit.c0_1 <? F32.fabs (v1 b))%f32
  || (Lit.c0_1 <? F32.fabs (v2 b))%f32.

(** Within the bounds of the clamp of lines 585-588. *)
Definition dT_in_range (dT : float) : bool :=
  (Lit.c1em3 <=? dT)%f32 && (dT <=? Lit.c1em2)%f32.

Definition xyz_is_nan (a : XYZ) : bool :=
  F32.is_nan (x a) || F32.is_nan (y a) || F32.is_nan (z a).

Definition xyz_is_zero (a : XYZ) : bool :=
  F32.is_zero (x a) && F32.is_zero (y a) && F32.is_zero (z a).

Definition xyz_is_finite (a : XYZ) : bool :=
  F32.is_finite (x a) && F32.is_finite (y a) && F32.is_finite (z a).

(** The cycle is an arming cycle with the zero-during-arming option. *)
Definition arming_zero (i : Inputs) (s : State) : bool :=
  ZeroDuringArming (attitudeSettings (cfg s))
  && match FlightStatus_Armed i with ARMING => true | _ => false end.

(** ** More example states and inputs *)

(** The example inputs with only 5 satellites in view. *)
Definition few_satellites_inputs : Inputs :=
  mkInputs true true true true true
    (Gyros example_inputs) (Accels example_inputs)
    (Magnetometer example_inputs) (BaroAltitude example_inputs)
    (mkGPSPosition 370001000 (-1220000000) (F32.of_Z 10) F32.zero
                   F32.zero F32.zero F32.one 5)
    example_home example_settings example_calibration
    FUSIONALGORITHM_INSOUTDOOR DISARMED 10000 10000 2000 123456.

(** Gyro and accel samples only. *)
Definition gyro_accel_only_inputs : Inputs :=
  mkInputs true true false false false
    (Gyros example_inputs) (Accels example_inputs)
    (Magnetometer example_inputs) (BaroAltitude example_inputs)
    example_gps example_home example_settings example_calibration
    FUSIONALGORITHM_INSINDOOR DISARMED 10000 10000 2000 123456.

(** The staged filter, indoors, after one cycle with every sensor. *)
Definition indoor_stage_one_state : State :=
  fst (updateAttitudeINSGPS (ext := example_externals) false false
                            example_inputs startup_state).

(** The gyro reports a NaN on its y axis. *)
Definition nan_gyro_inputs : Inputs :=
  mkInputs true true true true false
    (mkXYZ F32.zero F32.nan F32.zero) (Accels example_inputs)
    (Magnetometer example_inputs) (BaroAltitude example_inputs)
    example_gps example_home example_settings example_calibration
    FUSIONALGORITHM_COMPLIMENTARY DISARMED 10000 10000 2000 123456.

(** The magnetometer reads zero on every axis. *)
Definition zero_mag_inputs : Inputs :=
  mkInputs true true false true false
    (Gyros example_inputs) (Accels example_inputs)
    (mkXYZ F32.zero F32.zero F32.zero) (BaroAltitude example_inputs)
    example_gps example_home example_settings example_calibration
    FUSIONALGORITHM_COMPLIMENTARY DISARMED 10000 10000 2000 123456.

(** The example inputs at another tick count and arming state. *)
Definition inputs_at (tick : Z) (armed : ArmedState) : Inputs :=
  mkInputs true true true true true
    (Gyros example_inputs) (Accels example_inputs)
    (Magnetometer example_inputs) (BaroAltitude example_inputs)
    example_gps example_home example_settings example_calibration
    FUSIONALGORITHM_COMPLIMENTARY armed tick tick 2000 123456.

(** The start-up state with the zero-during-arming option cached. *)
Definition arming_option_state : State :=
  with_cfg (set_attitudeSettings
              (mkAttitudeSettings (F32.of_Z 1) Lit.c1em2 Lit.c1em2 (0, 0, 0) true)
              (cfg startup_state))
           startup_state.

(** The cache after the settings callback at the example home. *)
Definition example_config : Config :=
  cfg (settingsUpdatedCb (ext := example_externals) example_inputs
                         startup_state).

(** A fix at the example home itself. *)
Definition home_fix : GPSPositionData :=
  mkGPSPosition 370000000 (-1220000000) (F32.of_Z 10) F32.zero
                F32.zero F32.zero F32.one 9.

(** ** The viewer (src/Viewer.cpp)

    The Qt widget is embedded as a record of the members the code reads and
    writes, with the scene as the list of its items and the calls on the
    widget and on the items as histories.  [int] arithmetic wraps as in
    [int32_wrap]. *)

Module QMap.

(** [QMap<int, V>] with the operations Viewer.cpp uses.  The entries are
    kept as an association list with one entry per key; the last key of
    the sorted map is the largest key of the list. *)
Definition t (V : Type) : Type := list (Z * V).

Fixpoint find {V : Type} (k : Z) (m : t V) : option V :=
  match m with
  | [] => None
  | (k', v) :: r => if k' =? k then Some v else find k r
  end.

(** Assignment through [m[k] = v]. *)
Fixpoint set {V : Type} (k : Z) (v : V) (m : t V) : t V :=
  match m with
  | [] => [(k, v)]
  | (k', v') :: r => if k' =? k then (k, v) :: r else (k', v') :: set k v r
  end.

(** [m[k]] as an rvalue: a missing key is inserted with the default value. *)
Definition index {V : Type} (default : V) (k : Z) (m : t V) : V * t V :=
  match find k m with
  | Some v => (v, m)
  | None => (default, set k default m)
  end.

Definition size {V : Type} (m : t V) : Z := Z.of_nat (length m).

(** [(--m.end()).key()]; undefined on an empty map. *)
Fixpoint last_key {V : Type} (m : t V) : option Z :=
  match m with
  | [] => None
  | (k, _) :: r =>
      match last_key r with
      | None => Some k
      | Some j => Some (Z.max k j)
      end
  end.

End QMap.

(** Graphics items are identified by their address; [None] is NULL. *)
Definition item := positive.

Inductive widget_call :=
| Resize (w h : Z)
| SetGeometry (x y w h : Z).

Record Viewer := mkViewer {
  m_imageMosaic : QMap.t (QMap.t (option item));
  scene_items : list item;             (* scene()->items() *)
  deleted_items : list item;           (* delete, newest first *)
  item_pos : list (item * (Z * Z));    (* setPos, newest first *)
  item_z : list (item * Z);            (* setZValue, newest first *)
  m_mosaicWidth : Z;
  m_mosaicHeight : Z;
  m_windowWidth : Z;
  m_windowHeight : Z;
  m_currentZ : Z;                      (* a double holding an integer *)
  widget_calls : list widget_call }.

Definition item_eqb (a b : item) : bool := Pos.eqb a b.

(** [z++] on a double that holds an integer: exact below 2^53, where the
    sum rounds back to 2^53. *)
Definition double_succ (z : Z) : Z := if z <? 2 ^ 53 then z + 1 else z.

(** [scene()->addItem]: an item already in the scene is not added again. *)
Definition scene_add (x : item) (l : list item) : list item :=
  if existsb (item_eqb x) l then l else x :: l.

Definition scene_remove (x : item) (l : list item) : list item :=
  filter (fun y => negb (item_eqb x y)) l.

Section ViewerCode.

(** [ii->boundingRect().toRect()]: width and height of an image view. *)
Variable boundingRect : item -> Z * Z.

(** The constructor, lines 30-50, on a scene that holds [items]. *)
Definition Viewer_new (mosaicWidth mosaicHeight : Z) (items : list item) : Viewer :=
  mkViewer [] items [] [] [] mosaicWidth mosaicHeight (-1) (-1) 0 [].

Definition setWindowSize (width height : Z) (v : Viewer) : Viewer :=
  mkViewer (m_imageMosaic v) (scene_items v) (deleted_items v) (item_pos v)
    (item_z v) (m_mosaicWidth v) (m_mosaicHeight v) width height
    (m_currentZ v) (widget_calls v).

(** [addShape], [addLine] and [addPolyLine], lines 65-79, have one body. *)
Definition addShape (si : item) (v : Viewer) : Viewer :=
  mkViewer (m_imageMosaic v) (scene_add si (scene_items v)) (deleted_items v)
    (item_pos v) ((si, m_currentZ v) :: item_z v)
    (m_mosaicWidth v) (m_mosaicHeight v) (m_windowWidth v) (m_windowHeight v)
    (double_succ (m_currentZ v)) (widget_calls v).

Definition addLine := addShape.
Definition addPolyLine := addShape.

(** [m_imageMosaic[row][col]] read as an rvalue: both levels insert. *)
Definition mosaic_index (row col : Z) (m : QMap.t (QMap.t (option item)))
  : option item * QMap.t (QMap.t (option item)) :=
  let '(inner, m1) := QMap.index [] row m in
  let '(cell, inner1) := QMap.index None col inner in
  (cell, QMap.set row inner1 m1).

(** [m_imageMosaic[row][col] = x]. *)
Definition mosaic_assign (row col : Z) (x : option item)
           (m : QMap.t (QMap.t (option item))) : QMap.t (QMap.t (option item)) :=
  let '(inner, m1) := QMap.index [] row m in
  QMap.set row (QMap.set col x inner) m1.

Definition window_geometry (v : Viewer) : list widget_call :=
  if (0 <? m_windowHeight v) && (0 <? m_windowWidth v)
  then [SetGeometry 0 0 (m_windowWidth v) (m_windowHeight v)]
  else [].

(** [setImageView], lines 81-117. *)
Definition setImageView (ii : option item) (row col : Z) (v : Viewer) : Viewer :=
  match ii with
  | None =>
      let '(cell, m1) := mosaic_index row col (m_imageMosaic v) in
      match cell with
      | Some old =>
          mkViewer (mosaic_assign row col None m1)
            (scene_remove old (scene_items v)) (old :: deleted_items v)
            (item_pos v) (item_z v) (m_mosaicWidth v) (m_mosaicHeight v)
            (m_windowWidth v) (m_windowHeight v) (m_currentZ v) (widget_calls v)
      | None =>
          mkViewer m1 (scene_items v) (deleted_items v)
            (item_pos v) (item_z v) (m_mosaicWidth v) (m_mosaicHeight v)
            (m_windowWidth v) (m_windowHeight v) (m_currentZ v) (widget_calls v)
      end
  | Some i =>
      if existsb (item_eqb i) (scene_items v) then v
      else
        let scene1 := scene_add i (scene_items v) in
        let '(cell, m1) := mosaic_index row col (m_imageMosaic v) in
        let '(scene2, deleted2) :=
          match cell with
          | Some old => (scene_remove old scene1, old :: deleted_items v)
          | None => (scene1, deleted_items v)
          end in
        let m2 := mosaic_assign row col (Some i) m1 in
        let '(w, h, calls1) :=
          if (m_mosaicWidth v =? 0) && (m_mosaicHeight v =? 0)
          then let w := int32_wrap (fst (boundingRect i) + 5) in
               let h := int32_wrap (snd (boundingRect i) + 5) in
               (w, h, Resize w h :: widget_calls v)
          else (m_mosaicWidth v, m_mosaicHeight v, widget_calls v) in
        let v1 := mkViewer m2 scene2 deleted2
                    ((i, (int32_wrap (row * w), int32_wrap (col * h)))
                       :: item_pos v)
                    (item_z v) w h (m_windowWidth v) (m_windowHeight v)
                    (m_currentZ v) calls1 in
        mkViewer (m_imageMosaic v1) (scene_items v1) (deleted_items v1)
          (item_pos v1) (item_z v1) (m_mosaicWidth v1) (m_mosaicHeight v1)
          (m_windowWidth v1) (m_windowHeight v1) (m_currentZ v1)
          (window_geometry v1 ++ widget_calls v1)
  end.

(** [rows], lines 118-129; [None] where the source decrements the end
    iterator of an empty map. *)
Fixpoint rows_loop (m : QMap.t (QMap.t (option item))) (maxrows : Z) : option Z :=
  match m with
  | [] => Some maxrows
  | (_, inner) :: r =>
      match QMap.last_key inner with
      | None => None
      | Some rows => rows_loop r (if maxrows <? rows then rows else maxrows)
      end
  end.

Definition rows (v : Viewer) : option Z :=
  if QMap.size (m_imageMosaic v) =? 0 then Some 0
  else match rows_loop (m_imageMosaic v) 0 with
       | Some maxrows => Some (int32_wrap (maxrows + 1))
       | None => None
       end.

(** [cols], lines 131-136. *)
Definition cols (v : Viewer) : option Z :=
  if QMap.size (m_imageMosaic v) =? 0 then Some 0
  else match QMap.last_key (m_imageMosaic v) with
       | Some k => Some (int32_wrap (k + 1))
       | None => None
       end.

(** The content of a cell, without inserting. *)
Definition cell_of (row col : Z) (m : QMap.t (QMap.t (option item))) : option item :=
  match QMap.find row m with
  | Some inner => match QMap.find col inner with Some c => c | None => None end
  | None => None
  end.

Definition cell (row col : Z) (v : Viewer) : option item :=
  cell_of row col (m_imageMosaic v).

(** [setImageView] returns early on an image view that is in the scene. *)
Definition rejected (ii : option item) (v : Viewer) : bool :=
  match ii with
  | Some i => existsb (item_eqb i) (scene_items v)
  | None => false
  end.

(** The operations of a client on the viewer. *)
Inductive viewer_op :=
| OpSetImageView (ii : option item) (row col : Z)
| OpAddShape (si : item)
| OpSetWindowSize (w h : Z).

Definition apply_op (o : viewer_op) (v : Viewer) : Viewer :=
  match o with
  | OpSetImageView ii row col => setImageView ii row col v
  | OpAddShape si => addShape si v
  | OpSetWindowSize w h => setWindowSize w h v
  end.

Definition run_ops (ops : list viewer_op) (v : Viewer) : Viewer :=
  fold_left (fun v o => apply_op o v) ops v.

End ViewerCode.

(** Every column map of the mosaic has at least one entry. *)
Definition mosaic_wf (m : QMap.t (QMap.t (option item))) : Prop :=
  Forall (fun e => snd e <> []) m.

(** Indices whose successor is an [int]. *)
Definition index_in_range (k : Z) : Prop := - 2 ^ 31 <= k < 2 ^ 31 - 1.

Definition mosaic_in_range (m : QMap.t (QMap.t (option item))) : Prop :=
  forall k inner, In (k, inner) m ->
    index_in_range k /\ forall j c, In (j, c) inner -> index_in_range j.

Definition mosaic_inv (v : Viewer) : Prop :=
  mosaic_wf (m_imageMosaic v) /\ mosaic_in_range (m_imageMosaic v).

Definition first_index_not_negative (o : viewer_op) : Prop :=
  match o with
  | OpSetImageView _ row _ => 0 <= row
  | _ => True
  end.

Definition op_in_range (o : viewer_op) : Prop :=
  match o with
  | OpSetImageView _ row col => index_in_range row /\ index_in_range col
  | _ => True
  end.

(** Cells hold scene items, and no item is in two cells. *)
Definition cells_in_scene (v : Viewer) : Prop :=
  forall row col i,
    cell row col v = Some i ->
    In i (scene_items v)
    /\ forall row' col', cell row' col' v = Some i -> row' = row /\ col' = col.

Definition count_shapes (ops : list viewer_op) : nat :=
  length (filter (fun o => match o with OpAddShape _ => true | _ => false end) ops).

Definition is_Resize (c : widget_call) : bool :=
  match c with Resize _ _ => true | _ => false end.

(** A viewer after a few calls, and the size of every image view. *)
Definition example_boundingRect (i : item) : Z * Z := (640, 480).

Definition example_ops : list viewer_op :=
  [OpSetImageView (Some 1%positive) 0 0; OpAddShape 7%positive;
   OpSetWindowSize 800 600; OpSetImageView (Some 2%positive) 1 0].

(** ** Binary32 facts *)

(** *** Literals *)

Example lit_ratios :
  Lit.c0_9 = (F32.of_Z 9 / F32.of_Z 10)%f32 /\
  Lit.c0_23 = (F32.of_Z 23 / F32.of_Z 100)%f32 /\
  Lit.c1em3 = (F32.of_Z 1 / F32.of_Z 1000)%f32 /\
  Lit.c1em6 = (F32.of_Z 1 / F32.of_Z 1000000)%f32 /\
  Lit.c1em4 = (F32.of_Z 1 / F32.of_Z 10000)%f32 /\
  Lit.c1em5 = (F32.of_Z 1 / F32.of_Z 100000)%f32 /\
  Lit.c1em2 = (F32.of_Z 1 / F32.of_Z 100)%f32 /\
  Lit.c0_002 = (F32.of_Z 2 / F32.of_Z 1000)%f32 /\
  Lit.c0_1 = (F32.of_Z 1 / F32.of_Z 10)%f32 /\
  F32.one = F32.of_Z 1 /\ F32.two = F32.of_Z 2.
Proof. vm_compute. repeat split. Qed.

(** [F_PI] encloses pi to single precision. *)
Example lit_F_PI :
  match F32.to_Q Lit.F_PI with
  | Some p => (3141592 # 1000000 < p)%Q /\ (p < 3141593 # 1000000)%Q
  | None => False
  end.
Proof. vm_compute. split; reflexivity. Qed.

(** *** NaN propagation in binary32 *)

Lemma add_nan_l : forall a, (F32.nan + a)%f32 = F32.nan.
Proof. reflexivity. Qed.
Lemma add_nan_r : forall a, (a + F32.nan)%f32 = F32.nan.
Proof. destruct a; reflexivity. Qed.
Lemma sub_nan_l : forall a, (F32.nan - a)%f32 = F32.nan.
Proof. reflexivity. Qed.
Lemma sub_nan_r : forall a, (a - F32.nan)%f32 = F32.nan.
Proof. destruct a; reflexivity. Qed.
Lemma mul_nan_l : forall a, (F32.nan * a)%f32 = F32.nan.
Proof. reflexivity. Qed.
Lemma mul_nan_r : forall a, (a * F32.nan)%f32 = F32.nan.
Proof. destruct a; reflexivity. Qed.
Lemma div_nan_l : forall a, (F32.nan / a)%f32 = F32.nan.
Proof. reflexivity. Qed.
Lemma div_nan_r : forall a, (a / F32.nan)%f32 = F32.nan.
Proof. destruct a; reflexivity. Qed.
Lemma neg_nan : (- F32.nan)%f32 = F32.nan.
Proof. reflexivity. Qed.
Lemma sqrtf_nan : F32.sqrtf F32.nan = F32.nan.
Proof. reflexivity. Qed.

Create Rewrite HintDb f32_nan.
#[local] Hint Rewrite add_nan_l add_nan_r sub_nan_l sub_nan_r mul_nan_l mul_nan_r
     div_nan_l div_nan_r neg_nan sqrtf_nan : f32_nan.

Lemma zero_or_nan_of_zero : forall a, F32.is_zero a = true -> zero_or_nan a = true.
Proof. destruct a; cbn; auto. Qed.

Lemma mul_zero_or_nan_l :
  forall a b, zero_or_nan a = true -> zero_or_nan (a * b)%f32 = true.
Proof. destruct a, b; cbn; auto; discriminate. Qed.

Lemma mul_zero_or_nan_r :
  forall a b, zero_or_nan b = true -> zero_or_nan (a * b)%f32 = true.
Proof. destruct a, b; cbn; auto; discriminate. Qed.

Lemma add_zero_or_nan :
  forall a b, zero_or_nan a = true -> zero_or_nan b = true ->
              zero_or_nan (a + b)%f32 = true.
Proof.
  destruct a as [[|]| | |], b as [[|]| | |]; cbn; auto; discriminate.
Qed.

Lemma sub_zero_or_nan :
  forall a b, zero_or_nan a = true -> zero_or_nan b = true ->
              zero_or_nan (a - b)%f32 = true.
Proof.
  destruct a as [[|]| | |], b as [[|]| | |]; cbn; auto; discriminate.
Qed.

Lemma sqrtf_zero_or_nan :
  forall a, zero_or_nan a = true -> zero_or_nan (F32.sqrtf a) = true.
Proof. destruct a; cbn; auto; discriminate. Qed.

(** 0/0, 0/NaN, NaN/0 and NaN/NaN are all NaN. *)
Lemma div_zero_or_nan :
  forall a b, zero_or_nan a = true -> zero_or_nan b = true ->
              (a / b)%f32 = F32.nan.
Proof. destruct a, b; cbn; auto; discriminate. Qed.

(** *** Signs *)

Lemma binary_round_aux_sign :
  forall s m e l, sign_is s (binary_round_aux F32.prec F32.emax s m e l).
Proof.
  intros s m e l. unfold binary_round_aux.
  destruct (shr_fexp F32.prec F32.emax m e l) as [mrs' e'].
  destruct (shr_fexp F32.prec F32.emax _ e' loc_Exact) as [mrs'' e''].
  destruct (shr_m mrs''); [exact eq_refl | | exact I].
  destruct (e'' <=? F32.emax - F32.prec); exact eq_refl.
Qed.

Lemma sign_clear_not_negative : forall a, sign_is false a -> not_negative a.
Proof.
  intros a H. unfold not_negative.
  destruct a as [s | s | | s m e]; cbn in *; subst; reflexivity.
Qed.

(** A square root is never a negative number. *)
Lemma sqrtf_sign :
  forall a,
    match F32.sqrtf a with
    | S754_finite true _ _ | S754_infinity true => False
    | _ => True
    end.
Proof.
  intros [s | [|] | | [|] m e]; try exact I.
  unfold F32.sqrtf, SFsqrt.
  destruct (SFsqrt_core_binary F32.prec F32.emax (Z.pos m) e) as [[mz ez] lz].
  pose proof (binary_round_aux_sign false mz ez lz) as S.
  destruct (binary_round_aux F32.prec F32.emax false mz ez lz)
    as [s | s | | s m' e']; try exact I;
    unfold sign_is in S; subst s; exact I.
Qed.

(** A square root that passes the guard of line 387 is a positive number
    or +infinity. *)
Lemma sqrtf_past_guard :
  forall a,
    (F32.fabs (F32.sqrtf a) <? Lit.c1em3)%f32 || F32.neb (F32.sqrtf a) (F32.sqrtf a)
    = false ->
    match F32.sqrtf a with
    | S754_finite false _ _ | S754_infinity false => True
    | _ => False
    end.
Proof.
  intros a. pose proof (sqrtf_sign a) as S. revert S.
  generalize (F32.sqrtf a). intros m S H.
  destruct m as [s | [|] | | [|] m' e']; try exact I; try contradiction;
    discriminate H.
Qed.

Lemma div_not_negative :
  forall a m,
    not_negative a ->
    match m with
    | S754_finite false _ _ | S754_infinity false => True
    | _ => False
    end ->
    not_negative (a / m)%f32.
Proof.
  intros a m Ha Hm. unfold not_negative in *.
  destruct m as [s | [|] | | [|] mm em]; try contradiction;
    destruct a as [s | [|] | | [|] ma ea]; cbn in *;
    try reflexivity; try discriminate.
  unfold F32.div, SFdiv.
  destruct (SFdiv_core_binary F32.prec F32.emax (Z.pos ma) ea (Z.pos mm) em)
    as [[mz ez] lz].
  apply sign_clear_not_negative. apply binary_round_aux_sign.
Qed.

(** *** Rounding yields canonical floats

    The results of [SFadd] and [SFsub] are valid binary floats: the
    mantissa has at most [prec] digits and the exponent is the canonical
    one.  The facts are stated for any format. *)

Section Rounding.

Variables prec emax : Z.
Hypothesis Hprec : 0 < prec.

Lemma digits2_size : forall p, digits2_pos p = Pos.size p.
Proof. induction p; cbn; congruence. Qed.

Lemma Zdigits2_log2 : forall p, Zdigits2 (Zpos p) = Z.log2 (Zpos p) + 1.
Proof.
  intros p. cbn [Zdigits2]. rewrite digits2_size.
  destruct p; cbn [Pos.size Z.log2]; lia.
Qed.

Lemma iter_pos_iter : forall (A : Type) (f : A -> A) n x, iter_pos f n x = Pos.iter f x n.
Proof.
  intros A f. induction n; intros x; cbn.
  - rewrite !IHn, !Pos.iter_swap. reflexivity.
  - rewrite !IHn. reflexivity.
  - reflexivity.
Qed.

Lemma shr_1_m : forall mrs, 0 <= shr_m mrs -> shr_m (shr_1 mrs) = shr_m mrs / 2.
Proof.
  intros [m r s] H. cbn in *.
  destruct m as [ | [p|p|] | p]; cbn; try lia.
  - rewrite Pos2Z.inj_xI. apply Z.div_unique with 1; lia.
  - rewrite Pos2Z.inj_xO. apply Z.div_unique with 0; lia.
Qed.

Lemma shr_iter_m : forall n mrs, 0 <= shr_m mrs ->
  shr_m (iter_pos shr_1 n mrs) = shr_m mrs / 2 ^ Zpos n.
Proof.
  intros n mrs H. rewrite iter_pos_iter.
  induction n using Pos.peano_ind.
  - cbn [Pos.iter]. rewrite shr_1_m by assumption. reflexivity.
  - rewrite Pos.iter_succ. rewrite shr_1_m.
    + rewrite IHn. rewrite Pos2Z.inj_succ, Z.pow_succ_r by lia.
      rewrite Z.div_div by lia. f_equal. lia.
    + rewrite IHn. apply Z.div_pos; lia.
Qed.

Local Abbreviation D := Zdigits2.
Local Abbreviation fexp' := (fexp prec emax).

Lemma digits_pos_bounds : forall p,
  2 ^ (D (Zpos p) - 1) <= Zpos p < 2 ^ D (Zpos p).
Proof.
  intros p. rewrite Zdigits2_log2.
  replace (Z.log2 (Z.pos p) + 1 - 1) with (Z.log2 (Z.pos p)) by lia.
  replace (Z.log2 (Z.pos p) + 1) with (Z.succ (Z.log2 (Z.pos p))) by lia.
  apply Z.log2_spec. lia.
Qed.

Lemma digits_nonneg : forall m, 0 <= D m.
Proof. destruct m; cbn; lia. Qed.

Lemma digits_positive : forall p, 0 < D (Zpos p).
Proof. intros p. cbn. lia. Qed.

(** Dividing by [2^n] drops [n] digits, or everything. *)
Lemma digits_div_pow2 : forall p n, 0 <= n ->
  (n < D (Zpos p) -> D (Zpos p / 2 ^ n) = D (Zpos p) - n /\ 0 < Zpos p / 2 ^ n)
  /\ (D (Zpos p) <= n -> Zpos p / 2 ^ n = 0).
Proof.
  intros p n Hn. pose proof (digits_pos_bounds p) as [Hlo Hhi].
  split; intros H.
  - assert (Hq : 0 < Z.pos p / 2 ^ n).
    { apply Z.div_str_pos. split; [apply Z.pow_pos_nonneg; lia | ].
      eapply Z.le_trans; [ | exact Hlo]. apply Z.pow_le_mono_r; lia. }
    split; [ | exact Hq].
    destruct (Z.pos p / 2 ^ n) as [ | q | q] eqn:E; try lia.
    rewrite Zdigits2_log2. rewrite <- E.
    rewrite <- Z.shiftr_div_pow2 by lia.
    rewrite Z.log2_shiftr by lia.
    rewrite Zdigits2_log2. rewrite Zdigits2_log2 in H. lia.
  - apply Z.div_small. split; [lia | ].
    eapply Z.lt_le_trans; [exact Hhi | ]. apply Z.pow_le_mono_r; lia.
Qed.

Lemma fexp_mono : forall a b, a <= b -> fexp' a <= fexp' b.
Proof. intros a b H. unfold fexp. lia. Qed.

Lemma fexp_ge_emin : forall a, emin prec emax <= fexp' a.
Proof. intros a. unfold fexp. lia. Qed.

Lemma shr_record_of_loc_m : forall m l, shr_m (shr_record_of_loc m l) = m.
Proof. intros m [ | [ | | ]]; reflexivity. Qed.

(** A right shift to the canonical exponent divides the mantissa. *)
Lemma shr_fexp_spec : forall m e l,
  0 <= m -> e <= fexp' (D m + e) ->
  snd (shr_fexp prec emax m e l) = fexp' (D m + e)
  /\ shr_m (fst (shr_fexp prec emax m e l)) = m / 2 ^ (fexp' (D m + e) - e).
Proof.
  intros m e l Hm He. unfold shr_fexp, shr.
  destruct (fexp' (D m + e) - e) as [ | n | n] eqn:E; try lia.
  - cbn [fst snd]. rewrite shr_record_of_loc_m. split; [lia | ].
    rewrite Z.pow_0_r, Z.div_1_r. reflexivity.
  - cbn [fst snd]. split; [lia | ].
    rewrite shr_iter_m by (rewrite shr_record_of_loc_m; exact Hm).
    rewrite shr_record_of_loc_m. reflexivity.
Qed.

Lemma shr_fexp_canonical : forall m e l p,
  0 <= m -> e <= fexp' (D m + e) ->
  shr_m (fst (shr_fexp prec emax m e l)) = Zpos p ->
  canonical_mantissa prec emax p (snd (shr_fexp prec emax m e l)) = true.
Proof.
  intros m e l p Hm He Hp.
  destruct (shr_fexp_spec m e l Hm He) as [He' Hm'].
  rewrite He'. rewrite Hm' in Hp.
  unfold canonical_mantissa. apply Z.eqb_eq.
  destruct m as [ | q | q]; try lia.
  { rewrite Z.div_0_l in Hp; [discriminate | ].
    apply Z.pow_nonzero; lia. }
  set (n := fexp' (D (Z.pos q) + e) - e) in *.
  assert (Hn : 0 <= n) by (unfold n; lia).
  destruct (digits_div_pow2 q n Hn) as [Hlt Hge].
  destruct (Z_lt_le_dec n (D (Zpos q))) as [L | G].
  - destruct (Hlt L) as [Hd _]. rewrite Hp in Hd.
    change (Z.pos (digits2_pos p)) with (D (Zpos p)).
    rewrite Hd. f_equal. unfold n. lia.
  - rewrite (Hge G) in Hp. discriminate.
Qed.

Lemma round_nearest_even_bounds : forall m l,
  0 <= m -> m <= round_nearest_even m l <= m + 1.
Proof.
  intros m [ | [ | | ]] H; cbn; try lia.
  destruct (Z.even m); lia.
Qed.

Lemma digits_mono : forall a b, 0 <= a <= b -> D a <= D b.
Proof.
  intros a b [Ha Hab].
  destruct a as [ | p | p]; try lia.
  - apply digits_nonneg.
  - destruct b as [ | q | q]; try lia.
    rewrite !Zdigits2_log2.
    pose proof (Z.log2_le_mono (Zpos p) (Zpos q) Hab). lia.
Qed.

Theorem binary_round_aux_valid : forall s m e l,
  0 <= m -> e <= fexp' (D m + e) ->
  valid_binary prec emax (binary_round_aux prec emax s m e l) = true.
Proof.
  intros s m e l Hm He. unfold binary_round_aux.
  destruct (shr_fexp_spec m e l Hm He) as [He' Hm'].
  destruct (shr_fexp prec emax m e l) as [mrs' e'] eqn:E1.
  cbn [fst snd] in He', Hm'.
  set (m1 := round_nearest_even (shr_m mrs') (loc_of_shr_record mrs')).
  assert (Hm'0 : 0 <= shr_m mrs').
  { rewrite Hm'. apply Z.div_pos; [exact Hm | apply Z.pow_pos_nonneg; lia]. }
  pose proof (round_nearest_even_bounds (shr_m mrs') (loc_of_shr_record mrs') Hm'0)
    as Hb. fold m1 in Hb.
  assert (Hpre : e' <= fexp' (D m1 + e')).
  { destruct m as [ | q | q]; try lia.
    - (* m = 0 *) cbn [Zdigits2] in He, He'.
      assert (e' = emin prec emax) by (unfold fexp in *; lia).
      subst e'. rewrite H. apply fexp_ge_emin.
    - set (n := fexp' (D (Z.pos q) + e) - e) in *.
      assert (Hn : 0 <= n) by (unfold n; lia).
      destruct (digits_div_pow2 q n Hn) as [Hlt Hge].
      destruct (Z_lt_le_dec n (D (Zpos q))) as [L | G].
      + destruct (Hlt L) as [Hd Hq]. rewrite <- Hm' in Hd.
        rewrite He' at 1. apply fexp_mono.
        assert (D (shr_m mrs') <= D m1) by (apply digits_mono; lia).
        unfold n in Hd. lia.
      + assert (e' = emin prec emax).
        { unfold n in G. unfold fexp in *. lia. }
        rewrite H at 1. apply fexp_ge_emin. }
  assert (Hm1 : 0 <= m1) by lia.
  pose proof (shr_fexp_canonical m1 e' loc_Exact) as Hc.
  destruct (shr_fexp prec emax m1 e' loc_Exact) as [mrs'' e''] eqn:E2.
  cbn [fst snd] in Hc.
  destruct (shr_m mrs'') as [ | p | p] eqn:E3; try reflexivity.
  destruct (e'' <=? emax - prec) eqn:E4; try reflexivity.
  cbn. unfold bounded. rewrite (Hc p Hm1 Hpre eq_refl), E4. reflexivity.
Qed.

Lemma digits_iter_xO : forall d m,
  D (Zpos (Pos.iter xO m d)) = D (Zpos m) + Zpos d.
Proof.
  intros d m. induction d using Pos.peano_ind.
  - cbn. lia.
  - rewrite Pos.iter_succ. cbn [Zdigits2 digits2_pos] in *.
    rewrite Pos2Z.inj_succ. lia.
Qed.

Theorem binary_round_valid : forall s m e,
  valid_binary prec emax (binary_round prec emax s m e) = true.
Proof.
  intros s m e. unfold binary_round, shl_align.
  destruct (fexp' (Z.pos (digits2_pos m) + e) - e) as [ | d | d] eqn:E.
  - apply binary_round_aux_valid; [lia | ]. cbn [Zdigits2]. lia.
  - apply binary_round_aux_valid; [lia | ]. cbn [Zdigits2]. lia.
  - apply binary_round_aux_valid; [lia | ].
    rewrite digits_iter_xO. cbn [Zdigits2].
    replace (Z.pos (digits2_pos m) + Z.pos d + fexp' (Z.pos (digits2_pos m) + e))
      with (Z.pos (digits2_pos m) + e) by lia.
    lia.
Qed.

Theorem binary_normalize_valid : forall m e sz,
  valid_binary prec emax (binary_normalize prec emax m e sz) = true.
Proof.
  intros [ | p | p] e sz; cbn [binary_normalize]; try reflexivity;
    apply binary_round_valid.
Qed.

Theorem SFadd_valid : forall a b,
  valid_binary prec emax a = true -> valid_binary prec emax b = true ->
  valid_binary prec emax (SFadd prec emax a b) = true.
Proof.
  intros a b Ha Hb.
  destruct a as [[|] | [|] | | sa ma ea], b as [[|] | [|] | | sb mb eb];
    try reflexivity; try assumption.
  apply binary_normalize_valid.
Qed.

Theorem SFsub_valid : forall a b,
  valid_binary prec emax a = true -> valid_binary prec emax b = true ->
  valid_binary prec emax (SFsub prec emax a b) = true.
Proof.
  intros a b Ha Hb.
  destruct a as [[|] | [|] | | sa ma ea], b as [[|] | [|] | | sb mb eb];
    try reflexivity; try assumption.
  apply binary_normalize_valid.
Qed.
End Rounding.

(** Multiplying by [-1.0f] negates a valid binary32 value exactly. *)
Lemma mul_minus_one : forall d,
  F32.valid d = true -> (Lit.minus_one * d)%f32 = F32.neg d.
Proof.
  intros [s | s | | s m e] V; try reflexivity.
  unfold F32.valid, valid_binary, bounded, canonical_mantissa in V.
  apply andb_prop in V. destruct V as [C B].
  apply Z.eqb_eq in C.
  change (Lit.minus_one * S754_finite s m e)%f32
    with (binary_round_aux F32.prec F32.emax (negb s)
            (Zpos (Pos.iter xO m 23)) (-23 + e) loc_Exact).
  unfold binary_round_aux, shr_fexp.
  assert (N : fexp F32.prec F32.emax
                (Zdigits2 (Z.pos (Pos.iter xO m 23)) + (-23 + e)) - (-23 + e) = 23).
  { replace (Zdigits2 (Z.pos (Pos.iter xO m 23)))
      with (Z.pos (digits2_pos m) + 23).
    - replace (Z.pos (digits2_pos m) + 23 + (-23 + e))
        with (Z.pos (digits2_pos m) + e) by lia.
      rewrite C. lia.
    - cbn. lia. }
  rewrite N. cbn [shr shr_record_of_loc iter_pos Pos.iter shr_1 shr_m
                  loc_of_shr_record round_nearest_even orb].
  replace (-23 + e + 23) with e by lia.
  change (Zdigits2 (Z.pos m)) with (Z.pos (digits2_pos m)).
  rewrite C, Z.sub_diag. cbn [shr shr_m]. 
  change (F32.emax - F32.prec) with (F32.emax - F32.prec).
  rewrite B. reflexivity.
Qed.

(** Rounding is symmetric in the sign. *)
Lemma binary_round_aux_opp :
  forall s m e l,
    binary_round_aux F32.prec F32.emax (negb s) m e l
    = F32.neg (binary_round_aux F32.prec F32.emax s m e l).
Proof.
  intros s m e l. unfold binary_round_aux.
  destruct (shr_fexp F32.prec F32.emax m e l) as [mrs' e'].
  destruct (shr_fexp F32.prec F32.emax _ e' loc_Exact) as [mrs'' e''].
  destruct (shr_m mrs''); try reflexivity.
  destruct (e'' <=? F32.emax - F32.prec); reflexivity.
Qed.

Lemma binary_round_opp :
  forall s m e,
    binary_round F32.prec F32.emax (negb s) m e
    = F32.neg (binary_round F32.prec F32.emax s m e).
Proof.
  intros s m e. unfold binary_round.
  destruct (shl_align m e _) as [mz ez].
  apply binary_round_aux_opp.
Qed.

Lemma neg_involutive : forall a, F32.neg (F32.neg a) = a.
Proof. intros [s | s | | s m e]; cbn; rewrite ?Bool.negb_involutive; reflexivity. Qed.

Lemma binary_normalize_opp :
  forall m e,
    binary_normalize F32.prec F32.emax (- m) e false
    = match m with
      | 0 => F32.zero
      | _ => F32.neg (binary_normalize F32.prec F32.emax m e false)
      end.
Proof.
  intros [ | p | p] e.
  - reflexivity.
  - change (binary_round F32.prec F32.emax (negb false) p e
            = F32.neg (binary_round F32.prec F32.emax false p e)).
    apply binary_round_opp.
  - change (binary_round F32.prec F32.emax false p e
            = F32.neg (binary_round F32.prec F32.emax (negb false) p e)).
    rewrite binary_round_opp, neg_involutive. reflexivity.
Qed.

Lemma same_value_refl : forall a, same_value a a.
Proof.
  intros [s | [|] | | [|] m e]; cbn; auto;
    unfold F32.eqb, SFeqb, SFcompare;
    rewrite Z.compare_refl, Pos.compare_cont_refl; reflexivity.
Qed.

(** [-(a - b)] and [b - a] are the same value. *)
Lemma neg_sub_same_value :
  forall a b, same_value (F32.neg (a - b)%f32) (b - a)%f32.
Proof.
  intros a b.
  destruct a as [sa | sa | | sa ma ea], b as [sb | sb | | sb mb eb];
    try exact I.
  - destruct sa, sb; reflexivity.
  - destruct sa, sb; reflexivity.
  - cbn [F32.sub SFsub F32.neg SFopp].
    rewrite Bool.negb_involutive. apply same_value_refl.
  - destruct sa, sb; reflexivity.
  - destruct sa, sb; exact I || reflexivity.
  - destruct sa, sb; reflexivity.
  - cbn [F32.sub SFsub F32.neg SFopp]. apply same_value_refl.
  - destruct sa, sb; reflexivity.
  - unfold F32.sub, SFsub. cbv zeta.
    rewrite (Z.min_comm eb ea).
    set (A := cond_Zopp sa (Z.pos (fst (shl_align ma ea (Z.min ea eb))))).
    set (B := cond_Zopp sb (Z.pos (fst (shl_align mb eb (Z.min ea eb))))).
    replace (B - A) with (- (A - B)) by lia.
    rewrite binary_normalize_opp.
    destruct (A - B); [reflexivity | apply same_value_refl | apply same_value_refl].
Qed.

(** ** Properties *)

Section Properties.

Context {ext : Externals}.

(** *** getNED *)

(** C9. [getNED] is total and always reports success: for every fix and
    every cached home location it returns 0, never -1, and its three
    components do not depend on the [Set] flag of the home location. *)
Theorem getNED_always_succeeds :
  forall (c : Config) (g : GPSPositionData) (b : bool),
    fst (getNED c g) = 0
    /\ fst (getNED c g) <> -1
    /\ getNED (set_home_Set b c) g = getNED c g
    /\ exists n e d, snd (getNED c g) = mkVec3 n e d.
Proof.
  intros c g b. unfold getNED. cbn [fst snd].
  repeat split; try discriminate.
  eexists _, _, _. reflexivity.
Qed.

(** *** Coordinate transform *)

(** The filters never write the coefficients [T]. *)
Lemma filters_keep_T :
  forall (fr od : bool) (i : Inputs) (s : State),
    T (cfg (fst (updateAttitudeComplimentary fr i s))) = T (cfg s)
    /\ T (cfg (fst (updateAttitudeINSGPS fr od i s))) = T (cfg s).
Proof.
  intros fr od i s. split.
  - unfold updateAttitudeComplimentary.
    destruct (gyro_rx i); [ | reflexivity ].
    destruct (accel_rx i); [ | reflexivity ].
    cbn [negb]. destruct (gain_schedule fr i s). reflexivity.
  - unfold updateAttitudeINSGPS.
    destruct (negb (gyro_rx i) || negb (accel_rx i)); [reflexivity | ].
    match goal with
    | |- context [if ?c then (_, -1) else _] => destruct c
    end; [reflexivity | ].
    destruct (negb (if fr then false else inited (insst s))); [reflexivity | ].
    unfold ins_running.
    match goal with
    | |- context [if ?c then (INSSetPosVelVar _ _ :: _, NEDPositionSet _ _, _, _)
                  else _] => destruct c
    end; [ | destruct (negb od) ]; reflexivity.
Qed.

(** The specification's example: home at 37 N, 122 W, 10 m; the fix 0.0001
    degree further north at the same altitude.  North is 11.1319... m,
    within 0.1 mm of (0.0001 degree in radians) x (10 + Earth radius) for
    every value of pi between 3.14159 and 3.14160; East is zero as soon as
    the East coefficient is finite; Down is zero. *)
Lemma getNED_example :
  let c := cfg (settingsUpdatedCb example_inputs startup_state) in
  let NED := snd (getNED c example_gps) in
  v0 NED = S754_finite false 11672713 (-20)
  /\ (F32.zero <? v0 NED)%f32 = true
  /\ (forall p : Q,
        (314159 # 100000 <= p)%Q -> (p <= 314160 # 100000)%Q ->
        match F32.to_Q (v0 NED) with
        | Some n =>
            let ideal := ((1 # 10000) * (p * (1 # 180))
                          * ((10 # 1) + (6378137 # 1)))%Q in
            (n - (1 # 10000) <= ideal)%Q /\ (ideal <= n + (1 # 10000))%Q
        | None => False
        end)
  /\ (F32.is_finite (v1 (T c)) = true -> F32.is_zero (v1 NED) = true)
  /\ F32.is_zero (v2 NED) = true.
Proof.
  intros c NED.
  assert (E0 : v0 NED = S754_finite false 11672713 (-20))
    by (vm_compute; reflexivity).
  split; [exact E0 | ]. rewrite E0.
  split; [reflexivity | ].
  split.
  { intros p Hlo Hhi.
    change (F32.to_Q (S754_finite false 11672713 (-20)))
      with (Some (11672713 # 1048576)%Q).
    cbv zeta. split; lra. }
  split.
  - subst NED. unfold getNED. cbn [snd v1].
    generalize (v1 (T c)). intros t Ht.
    replace (F32.of_Z (int32_wrap (gps_Longitude example_gps
                                   - home_Longitude (homeLocation c)))
             / Lit.c1e7 * Lit.DEG2RAD)%f32
      with (S754_zero false) by (vm_compute; reflexivity).
    destruct t as [st | st | | st mt et]; cbn in Ht; try discriminate Ht;
      reflexivity.
  - vm_compute. reflexivity.
Qed.

(** C7. After the settings callback has run for a home location, [getNED]
    returns 0 with North = (home altitude + 6.378137e6) x dLat,
    East = cos(home latitude) x (home altitude + 6.378137e6) x dLon and
    Down = -1 x (altitude + geoid separation - home altitude), the same
    value as home altitude - (altitude + geoid separation); dLat and dLon
    are the int32 differences in 1e-7 degree, divided by 1e7 and multiplied
    by DEG2RAD.  The filters never write the coefficients, only the callback
    does.  The specification's example evaluates as it says. *)
Theorem getNED_after_settings_callback :
  forall (i : Inputs) (s : State) (g : GPSPositionData),
    F32.valid (gps_Altitude g) = true ->
    F32.valid (gps_GeoidSeparation g) = true ->
    F32.valid (home_Altitude (HomeLocation i)) = true ->
    let h := HomeLocation i in
    let c := cfg (settingsUpdatedCb i s) in
    let R := (home_Altitude h + Lit.earth_radius)%f32 in
    let rad (d : Z) := (F32.of_Z d / Lit.c1e7 * Lit.DEG2RAD)%f32 in
    let dlat := rad (int32_wrap (gps_Latitude g - home_Latitude h)) in
    let dlon := rad (int32_wrap (gps_Longitude g - home_Longitude h)) in
    (fst (getNED c g) = 0
     /\ v0 (snd (getNED c g)) = (R * dlat)%f32
     /\ v1 (snd (getNED c g)) = (cosf (rad (home_Latitude h)) * R * dlon)%f32
     /\ v2 (snd (getNED c g))
        = (Lit.minus_one
           * (gps_Altitude g + gps_GeoidSeparation g - home_Altitude h))%f32
     /\ same_value (v2 (snd (getNED c g)))
          (home_Altitude h - (gps_Altitude g + gps_GeoidSeparation g))%f32)
    /\ (forall (fr od : bool) (j : Inputs) (s' : State),
           T (cfg (fst (updateAttitudeComplimentary fr j s'))) = T (cfg s')
           /\ T (cfg (fst (updateAttitudeINSGPS fr od j s'))) = T (cfg s'))
    /\ (let c := cfg (settingsUpdatedCb example_inputs startup_state) in
        let NED := snd (getNED c example_gps) in
        (F32.zero <? v0 NED)%f32 = true
        /\ (forall p : Q,
              (314159 # 100000 <= p)%Q -> (p <= 314160 # 100000)%Q ->
              match F32.to_Q (v0 NED) with
              | Some n =>
                  let ideal := ((1 # 10000) * (p * (1 # 180))
                                * ((10 # 1) + (6378137 # 1)))%Q in
                  (n - (1 # 10000) <= ideal)%Q /\ (ideal <= n + (1 # 10000))%Q
              | None => False
              end)
        /\ (F32.is_finite (v1 (T c)) = true -> F32.is_zero (v1 NED) = true)
        /\ F32.is_zero (v2 NED) = true).
Proof.
  intros i s g Va Vg Vh h c R rad dlat dlon.
  split; [ | split; [exact filters_keep_T | ] ].
  - subst c. unfold settingsUpdatedCb, getNED.
    destruct (GyroBias (AttitudeSettings i)) as [[bx by_] bz].
    cbn [fst snd cfg homeLocation T v0 v1 v2].
    split; [reflexivity | ]. split; [reflexivity | ].
    split; [reflexivity | ]. split; [reflexivity | ].
    rewrite mul_minus_one.
    + apply neg_sub_same_value.
    + apply (SFsub_valid F32.prec F32.emax); [reflexivity | | exact Vh].
      apply (SFadd_valid F32.prec F32.emax); [reflexivity | exact Va | exact Vg].
  - destruct getNED_example as [_ [A [B [C D]]]].
    exact (conj A (conj B (conj C D))).
Qed.

(** *** Sensor timeout *)

(** C6. For both filters, when the gyro sample, or the accel sample after
    it, is not received, the cycle raises the Warning alarm and returns -1,
    and no estimate changes: every published object, the log of [...Set]
    calls and the engine's call history are those of the prior cycle. *)
Theorem timeout_warns_and_keeps_estimates :
  forall (first_run outdoor_mode : bool) (i : Inputs) (s : State),
    gyro_rx i = false \/ accel_rx i = false ->
    let rc := updateAttitudeComplimentary first_run i s in
    let ri := updateAttitudeINSGPS first_run outdoor_mode i s in
    (snd rc = -1 /\ alarm (pub (fst rc)) = ALARM_WARNING
     /\ estimates (fst rc) = estimates s /\ ins (fst rc) = ins s)
    /\ (snd ri = -1 /\ alarm (pub (fst ri)) = ALARM_WARNING
        /\ estimates (fst ri) = estimates s /\ ins (fst ri) = ins s).
Proof.
  intros fr od i s H.
  unfold updateAttitudeComplimentary, updateAttitudeINSGPS.
  destruct H as [H | H]; rewrite H; cbn [negb orb].
  - repeat split; reflexivity.
  - destruct (gyro_rx i); cbn [negb orb]; repeat split; reflexivity.
Qed.

(** *** Quaternion renormalisation *)

(** Line 371: after the sign flip the scalar part is not negative. *)
Lemma quat_positive_not_negative :
  forall q, not_negative (qa (quat_positive q)).
Proof.
  intros q. unfold quat_positive, not_negative.
  destruct (qa q <? F32.zero)%f32 eqn:E; [ | exact E ].
  cbn [qa]. destruct (qa q) as [s | [|] | | [|] m e]; cbn in *;
    try reflexivity; discriminate.
Qed.

(** On every path the renormalised quaternion has a scalar part that is
    not negative, and on the path of the guard it is the identity. *)
Lemma quat_renormalize_not_negative :
  forall q, not_negative (qa (quat_renormalize (quat_positive q))).
Proof.
  intros q. unfold quat_renormalize.
  set (p := quat_positive q).
  destruct ((F32.fabs (quat_norm p) <? Lit.c1em3)%f32
            || F32.neb (quat_norm p) (quat_norm p)) eqn:G.
  - reflexivity.
  - cbn [qa]. unfold quat_norm in *.
    apply div_not_negative; [ | exact (sqrtf_past_guard _ G) ].
    apply quat_positive_not_negative.
Qed.

Lemma quat_renormalize_guard :
  forall q,
    (F32.fabs (quat_norm q) <? Lit.c1em3)%f32 || F32.is_nan (quat_norm q) = true ->
    quat_renormalize q = identity_quat
    /\ unit_within_tolerance identity_quat.
Proof.
  intros q H. unfold quat_renormalize.
  replace (F32.neb (quat_norm q) (quat_norm q)) with (F32.is_nan (quat_norm q)).
  - rewrite H. split; [reflexivity | ].
    vm_compute. split; discriminate.
  - destruct (quat_norm q) as [s | [|] | | [|] m e]; cbn; try reflexivity;
      unfold F32.neb, SFeqb, SFcompare; rewrite Z.compare_refl;
      rewrite Pos.compare_cont_refl; reflexivity.
Qed.

(** The part of C1 that holds on every cycle: the published scalar part is
    never negative. *)
Lemma published_q0_never_negative :
  forall (first_run : bool) (i : Inputs) (s : State),
    gyro_rx i = true -> accel_rx i = true ->
    not_negative
      (q1 (AttitudeActual (pub (fst (updateAttitudeComplimentary first_run i s))))).
Proof.
  intros fr i s Hg Ha.
  unfold updateAttitudeComplimentary. rewrite Hg, Ha. cbn [negb].
  destruct (gain_schedule fr i s) as [settings init'].
  cbn [fst pub].
  unfold gps_passthrough.
  destruct (gps_rx i && home_Set _); cbn [AttitudeActual set_alarm
    VelocityActualSet PositionActualSet AttitudeActualSet q1];
    apply quat_renormalize_not_negative.
Qed.

(** C1. The guard of line 387 tests the norm for being short or NaN, not
    for being infinite.  With a gyro rate of 3e38 deg/s the squared norm
    overflows: the cycle completes with return code 0 and publishes the
    zero quaternion (dT = 2 ms), or a quaternion with a NaN component
    (dT = 2 s); neither has norm 1. *)
Theorem overflowing_norm_publishes_non_unit_quaternion :
  let r := updateAttitudeComplimentary false overflow_inputs startup_state in
  let r' := updateAttitudeComplimentary false overflow_inputs_2s startup_state in
  (snd r = 0
   /\ qmag (comp (fst r)) = S754_infinity false
   /\ quat_of_attitude (AttitudeActual (pub (fst r)))
      = mkQuat F32.zero F32.zero F32.zero F32.zero
   /\ ~ unit_within_tolerance (quat_of_attitude (AttitudeActual (pub (fst r)))))
  /\ (snd r' = 0
      /\ qmag (comp (fst r')) = S754_infinity false
      /\ quat_of_attitude (AttitudeActual (pub (fst r')))
         = mkQuat F32.zero F32.nan F32.zero F32.zero
      /\ ~ unit_within_tolerance (quat_of_attitude (AttitudeActual (pub (fst r'))))).
Proof.
  vm_compute. repeat split; try (intros [H _]; apply H; reflexivity); auto.
Qed.

(** *** Magnetometer yaw error *)

(** C2. The code computes the yaw error the specification describes, but
    under the opposite test: line 312 enters the cross-product branch when
    [xQueueReceive] does not return pdTRUE.  With a new magnetometer sample
    the yaw error of the cycle is zero; without one it is the cross product
    of the normalised stale measurement and the normalised body-frame home
    field (zero under the threshold). *)
Theorem mag_error_uses_inverted_receive_test :
  forall (first_run : bool) (i : Inputs) (s : State),
    gyro_rx i = true -> accel_rx i = true ->
    let q := quat_of_attitude (AttitudeActual (pub s)) in
    let r := updateAttitudeComplimentary first_run i s in
    mag_err (comp (fst r))
    = yaw_error_spec (negb (mag_rx i)) q (Magnetometer i) (HomeLocation i)
    /\ (mag_rx i = true -> mag_err (comp (fst r)) = zero3)
    /\ (mag_rx i = false ->
        mag_err (comp (fst r)) = mag_cross q (Magnetometer i) (HomeLocation i)).
Proof.
  intros fr i s Hg Ha q r. subst r q.
  unfold updateAttitudeComplimentary. rewrite Hg, Ha. cbn [negb].
  destruct (gain_schedule fr i s) as [settings init'].
  cbn [fst comp mag_err].
  unfold mag_error, yaw_error_spec.
  split; [reflexivity | ].
  split; intros H; rewrite H; reflexivity.
Qed.

(** At the example inputs a new magnetometer sample arrives, not parallel
    to the home field: the specification's yaw error is not zero, the code's
    is, and the z bias stays where it was.  Without the sample the code
    applies the correction from the stale measurement. *)
Example fresh_mag_sample_is_ignored :
  let q := quat_of_attitude (AttitudeActual (pub startup_state)) in
  let r := updateAttitudeComplimentary false example_inputs startup_state in
  let r' := updateAttitudeComplimentary false example_inputs_no_mag startup_state in
  mag_rx example_inputs = true
  /\ yaw_error_spec true q (Magnetometer example_inputs) example_home
     = mkVec3 (S754_finite true 11930465 (-27))
              (S754_finite true 11930466 (-26))
              (S754_finite false 8947849 (-27))
  /\ mag_err (comp (fst r)) = zero3
  /\ z (GyrosBias (pub (fst r))) = F32.zero
  /\ mag_err (comp (fst r'))
     = mkVec3 (S754_finite true 11930465 (-27))
              (S754_finite true 11930466 (-26))
              (S754_finite false 8947849 (-27))
  /\ z (GyrosBias (pub (fst r'))) = S754_finite false 9382500 (-47).
Proof. vm_compute. repeat split. Qed.

(** *** Accelerometer normalisation *)

Lemma accel_error_of_zero_accel :
  forall (q : Quat) (a : XYZ),
    F32.is_zero (x a) = true -> F32.is_zero (y a) = true ->
    F32.is_zero (z a) = true ->
    accel_error q a = mkVec3 F32.nan F32.nan F32.nan.
Proof.
  intros q a Hx Hy Hz.
  apply zero_or_nan_of_zero in Hx, Hy, Hz.
  unfold accel_error, vec3_div, CrossProduct, accel_magnitude.
  cbn [v0 v1 v2 vec3_of_xyz].
  assert (Hm : zero_or_nan (F32.sqrtf (x a * x a + y a * y a + z a * z a)%f32) = true).
  { apply sqrtf_zero_or_nan.
    repeat apply add_zero_or_nan; apply mul_zero_or_nan_l; assumption. }
  f_equal; apply div_zero_or_nan; try exact Hm;
    apply sub_zero_or_nan;
    first [ apply mul_zero_or_nan_l; assumption
          | apply mul_zero_or_nan_r; assumption ].
Qed.

(** A NaN rate on the x axis makes every component of the integrated
    quaternion NaN, and the renormalisation guard then restores identity. *)
Lemma quat_step_nan_rate :
  forall (q : Quat) (gy gz dT : float),
    quat_step q (mkXYZ F32.nan gy gz) dT
    = mkQuat F32.nan F32.nan F32.nan F32.nan.
Proof.
  intros q gy gz dT. unfold quat_step. cbn [x y z].
  autorewrite with f32_nan. reflexivity.
Qed.

Lemma quat_renormalize_nan :
  quat_renormalize (quat_positive (mkQuat F32.nan F32.nan F32.nan F32.nan))
  = identity_quat.
Proof. reflexivity. Qed.

(** C4. The division by the accelerometer magnitude (lines 308-310) has no
    guard.  With a zero accelerometer vector the tilt error is 0/0: the
    cycle completes with return code 0 and publishes a GyrosBias whose x and
    y components are NaN; the quaternion is saved only by the
    renormalisation guard, which resets it to identity. *)
Theorem zero_accel_publishes_nan_bias :
  forall (first_run : bool) (i : Inputs) (s : State),
    gyro_rx i = true -> accel_rx i = true ->
    F32.is_zero (x (Accels i)) = true ->
    F32.is_zero (y (Accels i)) = true ->
    F32.is_zero (z (Accels i)) = true ->
    let r := updateAttitudeComplimentary first_run i s in
    snd r = 0
    /\ accel_error (quat_of_attitude (AttitudeActual (pub s))) (Accels i)
       = mkVec3 F32.nan F32.nan F32.nan
    /\ x (GyrosBias (pub (fst r))) = F32.nan
    /\ y (GyrosBias (pub (fst r))) = F32.nan
    /\ In OBJ_GyrosBias (set_log (pub (fst r)))
    /\ quat_of_attitude (AttitudeActual (pub (fst r))) = identity_quat.
Proof.
  intros fr i s Hg Ha Hx Hy Hz r. subst r.
  pose proof (accel_error_of_zero_accel
                (quat_of_attitude (AttitudeActual (pub s))) (Accels i)
                Hx Hy Hz) as Herr.
  unfold updateAttitudeComplimentary. rewrite Hg, Ha. cbn [negb].
  destruct (gain_schedule fr i s) as [settings init'].
  rewrite Herr. cbn [v0 v1 v2].
  autorewrite with f32_nan.
  rewrite quat_step_nan_rate, quat_renormalize_nan.
  cbn [fst snd pub].
  split; [reflexivity | split; [reflexivity | ]].
  unfold gps_passthrough.
  destruct (gps_rx i && home_Set _);
    cbn; repeat split; auto.
Qed.

(** *** Independence from YawBiasRate *)

Lemma gain_schedule_YawBiasRate :
  forall first_run i s r_cached r_object,
    let g := gain_schedule first_run i s in
    let g' := gain_schedule first_run (inputs_with_YawBiasRate r_object i)
                            (state_with_YawBiasRate r_cached s) in
    snd g' = snd g
    /\ exists r, fst g' = set_YawBiasRate r (fst g).
Proof.
  intros fr i s rc ro. unfold gain_schedule.
  cbn [state_with_YawBiasRate with_cfg set_attitudeSettings cfg comp
       attitudeSettings inputs_with_YawBiasRate tick_first tick_second
       FlightStatus_Armed AttitudeSettings set_YawBiasRate ZeroDuringArming].
  destruct ((if fr then 0 else init (comp s)) =? 0) eqn:E0;
    destruct (tick_first i <? 7000); destruct (1000 <? tick_second i);
    cbn [andb];
    try (split; [reflexivity | exists Lit.c0_23; reflexivity]);
    destruct (ZeroDuringArming (attitudeSettings (cfg s)));
    destruct (FlightStatus_Armed i); cbn [andb];
    try (split; [reflexivity | exists Lit.c0_23; reflexivity]);
    try (split; [reflexivity | exists ro; reflexivity]);
    try (split; [reflexivity | exists rc; reflexivity]).
Qed.

(** C10. The complementary filter does not read [YawBiasRate]: a cycle run
    with another value of it, in the cached settings and in the
    AttitudeSettings object alike, returns the same code and publishes the
    same objects, and leaves the same filter statics; the yaw axis uses
    the constants [magKi = 1e-6] and [magKp = 1e-4]. *)
Theorem complementary_ignores_YawBiasRate :
  forall (first_run : bool) (i : Inputs) (s : State) (r_cached r_object : float),
    let a := updateAttitudeComplimentary first_run i s in
    let b := updateAttitudeComplimentary first_run
               (inputs_with_YawBiasRate r_object i)
               (state_with_YawBiasRate r_cached s) in
    snd b = snd a
    /\ pub (fst b) = pub (fst a)
    /\ comp (fst b) = comp (fst a)
    /\ insst (fst b) = insst (fst a)
    /\ ins (fst b) = ins (fst a)
    /\ (magKi = (F32.of_Z 1 / F32.of_Z 1000000)%f32
        /\ magKp = (F32.of_Z 1 / F32.of_Z 10000)%f32).
Proof.
  intros fr i s rc ro a b.
  assert (K : magKi = (F32.of_Z 1 / F32.of_Z 1000000)%f32
              /\ magKp = (F32.of_Z 1 / F32.of_Z 10000)%f32)
    by (split; vm_compute; reflexivity).
  subst a b. unfold updateAttitudeComplimentary.
  replace (gyro_rx (inputs_with_YawBiasRate ro i)) with (gyro_rx i)
    by reflexivity.
  replace (accel_rx (inputs_with_YawBiasRate ro i)) with (accel_rx i)
    by reflexivity.
  destruct (gyro_rx i); cbn [negb];
    [ | repeat split; try reflexivity; apply K ].
  destruct (accel_rx i); cbn [negb];
    [ | repeat split; try reflexivity; apply K ].
  destruct (gain_schedule_YawBiasRate fr i s rc ro) as [Hs [r Hf]].
  destruct (gain_schedule fr (inputs_with_YawBiasRate ro i)
                          (state_with_YawBiasRate rc s)) as [set' init'].
  destruct (gain_schedule fr i s) as [set0 init0].
  cbn [fst snd] in Hs, Hf. subst set' init'.
  cbn [fst snd pub comp insst ins cfg state_with_YawBiasRate with_cfg
       inputs_with_YawBiasRate set_YawBiasRate AccelKi AccelKp
       Gyros Accels Magnetometer HomeLocation mag_rx delay_diff_us delay_raw].
  split; [reflexivity | ].
  split; [ | split; [reflexivity | split; [reflexivity | split; [reflexivity | exact K]]]].
  unfold gps_passthrough.
  cbn [gps_rx GPSPosition inputs_with_YawBiasRate set_attitudeSettings
       homeLocation cfg].
  destruct (gps_rx i && home_Set (homeLocation (cfg s))); reflexivity.
Qed.

(** *** Engine traces *)

Lemma new_calls_app :
  forall (s s' : State) (pre : list ins_call),
    ins s' = pre ++ ins s -> new_calls s s' = pre.
Proof.
  intros s s' pre H. unfold new_calls. rewrite H.
  rewrite length_app, Nat.add_sub.
  rewrite firstn_app, Nat.sub_diag, firstn_all. cbn. apply app_nil_r.
Qed.

Ltac prefix_of l t :=
  lazymatch l with
  | t => constr:(@nil ins_call)
  | ?a :: ?r => let p := prefix_of r t in constr:(a :: p)
  end.

Ltac give_prefix :=
  lazymatch goal with
  | |- exists pre, ?l = pre ++ ?t /\ _ =>
      let p := prefix_of l t in exists p; split; [reflexivity | ]
  end.

Lemma ins_running_trace :
  forall (od mag_u baro_u gps_u : bool) (i : Inputs) (p0 : Published) (s : State),
    let r := ins_running od mag_u baro_u gps_u i p0 s in
    snd r = 0
    /\ exists pre,
        ins (fst r) = pre ++ ins s
        /\ last_correction pre =
             (if sensor_mask od mag_u baro_u gps_u =? 0 then None
              else Some (sensor_mask od mag_u baro_u gps_u)).
Proof.
  intros od mag_u baro_u gps_u i p0 s r. subst r. unfold ins_running.
  destruct (gps_u && od); [ | destruct (negb od) ];
    destruct (sensor_mask od mag_u baro_u gps_u =? 0);
    (split; [reflexivity | ]); cbn [fst ins];
    match goal with
    | |- context [if ?c then INSSetGyroBias _ :: _ else _] => destruct c
    end;
    give_prefix; reflexivity.
Qed.

Lemma land_uint16_wrap_zero :
  forall a m, Z.land a m = 0 -> Z.land (uint16_wrap a) m = 0.
Proof.
  intros a m H. unfold uint16_wrap.
  rewrite <- Z.land_ones by lia.
  rewrite <- Z.land_assoc, (Z.land_comm (Z.ones 16) m), Z.land_assoc, H.
  apply Z.land_0_l.
Qed.

(** *** The sensor mask of a running cycle *)

(** C8. In a running outdoor cycle with a qualifying GPS sample, the mask
    handed to [INSCorrection] is exactly [POS_SENSORS | HORIZ_SENSORS],
    whether or not magnetometer and baro samples arrived: line 630 assigns
    the mask where the indoor branch ors into it.  With masks on disjoint
    bits, neither the magnetometer bits nor the baro bit are set. *)
Theorem outdoor_gps_mask_drops_mag_and_baro :
  forall (i : Inputs) (s : State),
    inited (insst s) = true ->
    gyro_rx i = true -> accel_rx i = true -> gps_rx i = true ->
    (7 <=? gps_Satellites (GPSPosition i)) = true ->
    (gps_PDOP (GPSPosition i) <=? Lit.c4)%f32 = true ->
    home_Set (homeLocation (cfg s)) = true ->
    MAG_SENSORS <> 0 -> BARO_SENSOR <> 0 ->
    Z.land (Z.lor POS_SENSORS HORIZ_SENSORS) MAG_SENSORS = 0 ->
    Z.land (Z.lor POS_SENSORS HORIZ_SENSORS) BARO_SENSOR = 0 ->
    uint16_wrap (Z.lor POS_SENSORS HORIZ_SENSORS) <> 0 ->
    let r := updateAttitudeINSGPS false true i s in
    let m := uint16_wrap (Z.lor POS_SENSORS HORIZ_SENSORS) in
    snd r = 0
    /\ last_correction (new_calls s (fst r)) = Some m
    /\ Z.land m MAG_SENSORS <> MAG_SENSORS
    /\ Z.land m BARO_SENSOR <> BARO_SENSOR.
Proof.
  intros i s Hin Hg Ha Hgps Hsat Hpdop Hset Hmag Hbaro Dm Db Hnz r m.
  subst r. unfold updateAttitudeINSGPS.
  rewrite Hin, Hg, Ha, Hgps, Hsat, Hpdop, Hset.
  cbn [negb orb andb].
  destruct (ins_running_trace true (mag_rx i) (baro_rx i) true i
              (set_alarm (if gps_Satellites (GPSPosition i) <? 7
                          then ALARM_ERROR else ALARM_CLEARED) (pub s)) s)
    as [Hret [pre [Hpre Hlast]]].
  split; [exact Hret | ].
  assert (Hmask : sensor_mask true (mag_rx i) (baro_rx i) true = m).
  { unfold sensor_mask. cbn [andb]. reflexivity. }
  rewrite Hmask in Hlast.
  split.
  - rewrite (new_calls_app _ _ _ Hpre), Hlast.
    destruct (m =? 0) eqn:E; [ | reflexivity ].
    apply Z.eqb_eq in E. contradiction.
  - subst m. rewrite !land_uint16_wrap_zero by assumption.
    split; congruence.
Qed.

(** Where the claim of C8 does hold: indoors, and outdoors without a
    qualifying GPS sample, the bits of the cycle's samples are kept. *)
Lemma sensor_mask_without_gps :
  forall (od mag_u baro_u gps_u : bool),
    gps_u && od = false ->
    sensor_mask od mag_u baro_u gps_u =
    let s1 := if mag_u then uint16_wrap (Z.lor 0 MAG_SENSORS) else 0 in
    let s2 := if baro_u then uint16_wrap (Z.lor s1 BARO_SENSOR) else s1 in
    if od then s2
    else uint16_wrap (Z.lor s2 (Z.lor HORIZ_SENSORS HORIZ_POS_SENSORS)).
Proof.
  intros od mag_u baro_u gps_u H. unfold sensor_mask. rewrite H.
  destruct od; reflexivity.
Qed.

(** *** Staged initialisation *)

Lemma int32_wrap_small :
  forall n, - 2 ^ 31 <= n < 2 ^ 31 -> int32_wrap n = n.
Proof.
  intros n H. unfold int32_wrap.
  rewrite Z.mod_small; lia.
Qed.

(** One cycle of a filter that is not initialised, at a stage below 11. *)
Lemma INSGPS_init_cycle :
  forall (fr od : bool) (i : Inputs) (s : State),
    inited (insst s) = false ->
    0 <= init_stage (insst s) <= 10 ->
    let r := updateAttitudeINSGPS fr od i s in
    snd r = -1
    /\ estimates (fst r) = estimates s
    /\ (if sensors_ready od i s
        then init_stage (insst (fst r)) = init_stage (insst s) + 1
             /\ inited (insst (fst r)) = (10 <? init_stage (insst s) + 1)
        else init_stage (insst (fst r)) = init_stage (insst s)
             /\ inited (insst (fst r)) = false).
Proof.
  intros fr od i s Hin Hst r. subst r.
  unfold updateAttitudeINSGPS, sensors_ready.
  rewrite Hin.
  replace (if fr then false else false) with false by (destruct fr; reflexivity).
  destruct (gyro_rx i); cbn [negb orb andb];
    [ | repeat split; reflexivity ].
  destruct (accel_rx i); cbn [negb orb andb];
    [ | repeat split; reflexivity ].
  match goal with
  | |- context [if ?c then (_, -1) else _] => destruct c
  end.
  - cbn [fst snd insst init_stage inited].
    rewrite int32_wrap_small by lia.
    split; [reflexivity | split; [reflexivity | ]].
    split; [reflexivity | ].
    destruct (10 <? init_stage (insst s) + 1); reflexivity.
  - cbn [fst snd insst init_stage inited].
    repeat split; reflexivity.
Qed.

Lemma run_INSGPS_initialising :
  forall (od : bool) (cs : list (bool * Inputs)) (s : State) (n : nat),
    inited (insst s) = false ->
    init_stage (insst s) = Z.of_nat n ->
    (n + ready_cycles od cs s <= 10)%nat ->
    let r := run_INSGPS od cs s in
    inited (insst (fst r)) = false
    /\ init_stage (insst (fst r)) = Z.of_nat (n + ready_cycles od cs s)
    /\ estimates (fst r) = estimates s
    /\ Forall (fun rc => rc = -1) (snd r).
Proof.
  intros od cs. induction cs as [ | [fr i] rest IH]; intros s n Hin Hst Hle.
  - cbn. rewrite Nat.add_0_r. repeat split; auto.
  - cbn [run_INSGPS ready_cycles] in *.
    destruct (INSGPS_init_cycle fr od i s Hin ltac:(lia)) as [Hrc [Hest Hstep]].
    destruct (sensors_ready od i s).
    + destruct Hstep as [Hs1 Hi1].
      assert (Hlt : (10 <? init_stage (insst s) + 1) = false)
        by (apply Z.ltb_ge; lia).
      rewrite Hlt in Hi1.
      destruct (IH (fst (updateAttitudeINSGPS fr od i s)) (S n) Hi1
                   ltac:(lia) ltac:(lia)) as [A [B [C D]]].
      cbn [fst snd]. split; [exact A | ].
      split; [rewrite B; f_equal; lia | ].
      split; [congruence | constructor; assumption].
    + destruct Hstep as [Hs1 Hi1].
      destruct (IH (fst (updateAttitudeINSGPS fr od i s)) n Hi1
                   ltac:(lia) ltac:(lia)) as [A [B [C D]]].
      cbn [fst snd]. split; [exact A | ].
      split; [rewrite B; f_equal; lia | ].
      split; [congruence | constructor; assumption].
Qed.

(** A running cycle returns 0 and publishes attitude, bias, position and
    velocity, in that order. *)
Lemma INSGPS_running_cycle_publishes :
  forall (od : bool) (i : Inputs) (s : State),
    inited (insst s) = true ->
    gyro_rx i = true -> accel_rx i = true ->
    let r := updateAttitudeINSGPS false od i s in
    snd r = 0
    /\ inited (insst (fst r)) = true
    /\ exists mid,
        set_log (pub (fst r)) =
        [OBJ_VelocityActual; OBJ_PositionActual] ++ mid
          ++ [OBJ_GyrosBias; OBJ_AttitudeActual] ++ set_log (pub s).
Proof.
  intros od i s Hin Hg Ha r. subst r.
  unfold updateAttitudeINSGPS. rewrite Hin, Hg, Ha.
  cbn [negb orb andb]. unfold ins_running.
  match goal with
  | |- context [if ?c then (INSSetPosVelVar _ _ :: _, NEDPositionSet _ _, _, _)
                else _] => destruct c
  end; [ | destruct (negb od) ];
    cbn [fst snd pub insst inited set_log VelocityActualSet PositionActualSet
         NEDPositionSet GyrosBiasSet AttitudeActualSet set_alarm];
    (split; [reflexivity | split; [reflexivity | ]]).
  - exists [OBJ_NEDPosition]. reflexivity.
  - exists []. reflexivity.
  - exists []. reflexivity.
Qed.

(** C5. From a filter that is not initialised and at stage 0, every cycle
    returns -1 and publishes nothing while fewer than 11 cycles have had all
    required sensors; the stage counter equals the number of such cycles.
    The 11th such cycle (stage 10) still returns -1 and publishes nothing,
    and makes the filter initialised at stage 11; the next cycle with gyro
    and accel samples returns 0 and publishes attitude, bias, position and
    velocity. *)
Theorem staged_init_publishes_after_eleven_ready_cycles :
  forall (od : bool) (cs : list (bool * Inputs)) (s : State),
    init_stage (insst s) = 0 ->
    inited (insst s) = false ->
    (ready_cycles od cs s <= 10)%nat ->
    let r := run_INSGPS od cs s in
    (inited (insst (fst r)) = false
     /\ init_stage (insst (fst r)) = Z.of_nat (ready_cycles od cs s)
     /\ estimates (fst r) = estimates s
     /\ Forall (fun rc => rc = -1) (snd r))
    /\ forall (fr : bool) (i : Inputs),
        ready_cycles od cs s = 10%nat ->
        sensors_ready od i (fst r) = true ->
        let r11 := updateAttitudeINSGPS fr od i (fst r) in
        snd r11 = -1
        /\ estimates (fst r11) = estimates s
        /\ init_stage (insst (fst r11)) = 11
        /\ inited (insst (fst r11)) = true
        /\ forall (j : Inputs),
            gyro_rx j = true -> accel_rx j = true ->
            let r12 := updateAttitudeINSGPS false od j (fst r11) in
            snd r12 = 0
            /\ exists mid,
                set_log (pub (fst r12)) =
                [OBJ_VelocityActual; OBJ_PositionActual] ++ mid
                  ++ [OBJ_GyrosBias; OBJ_AttitudeActual] ++ set_log (pub s).
Proof.
  intros od cs s Hst Hin Hle r.
  destruct (run_INSGPS_initialising od cs s 0 Hin Hst ltac:(lia))
    as [A [B [C D]]].
  fold r in A, B, C, D. cbn [Nat.add] in B.
  split; [repeat split; assumption | ].
  intros fr i Hten Hready r11.
  destruct (INSGPS_init_cycle fr od i (fst r) A ltac:(lia)) as [E [F G]].
  fold r11 in E, F, G. rewrite Hready in G. destruct G as [G1 G2].
  rewrite B, Hten in G1, G2. cbn in G1, G2.
  split; [exact E | ]. split; [congruence | ].
  split; [exact G1 | ]. split; [exact G2 | ].
  intros j Hg Ha r12.
  destruct (INSGPS_running_cycle_publishes od j (fst r11) G2 Hg Ha)
    as [P [_ [mid Q]]].
  fold r12 in P, Q. split; [exact P | ].
  exists mid. rewrite Q.
  assert (L : set_log (pub (fst r11)) = set_log (pub s)).
  { unfold estimates in F, C.
    assert (L1 : set_log (pub (fst r11)) = set_log (pub (fst r)))
      by congruence.
    rewrite L1. congruence. }
  rewrite L. reflexivity.
Qed.

(** *** first_run and the stage counter *)

(** A change of [FusionAlgorithm] makes the next iteration of the task call
    the selected filter with [first_run = true]. *)
Lemma AttitudeTask_change_forces_first_run :
  forall (l : TaskLocals) (i : Inputs) (s : State),
    FusionAlgorithm_eqb (last_algorithm l) (revoSettings (cfg s)) = false ->
    snd (AttitudeTask_iteration l i s) =
    match revoSettings (cfg s) with
    | FUSIONALGORITHM_COMPLIMENTARY => fst (updateAttitudeComplimentary true i s)
    | FUSIONALGORITHM_INSOUTDOOR => fst (updateAttitudeINSGPS true true i s)
    | FUSIONALGORITHM_INSINDOOR => fst (updateAttitudeINSGPS true false i s)
    | FUSIONALGORITHM_other _ => AlarmsSet ALARM_ERROR s
    end.
Proof.
  intros l i s H. unfold AttitudeTask_iteration. rewrite H. reflexivity.
Qed.

(** C3. A call of the staged filter with [first_run = true] clears [inited]
    only: the stage counter is never written back to 0.  From a stage above
    0 it stays where it was or goes up by one, no [INSGPSInit] is issued,
    and when the earlier initialisation had completed (stage above 10) one
    cycle with the sensors ready runs a single prediction on the old engine
    state and declares the filter initialised again. *)
Theorem first_run_does_not_reset_init_stage :
  forall (od : bool) (i : Inputs) (s : State),
    0 < init_stage (insst s) < INT32_MAX ->
    let r := updateAttitudeINSGPS true od i s in
    init_stage (insst s) <= init_stage (insst (fst r))
    /\ init_stage (insst (fst r)) <> 0
    /\ existsb is_INSGPSInit (new_calls s (fst r)) = false
    /\ (10 <= init_stage (insst s) -> sensors_ready od i s = true ->
        inited (insst (fst r)) = true
        /\ new_calls s (fst r) =
           [INSStatePrediction (gyros_rad (Gyros i) (GyrosBias (pub s)))
                               (vec3_of_xyz (Accels i)) Lit.c0_002]).
Proof.
  intros od i s [Hpos Hmax] r. subst r.
  unfold INT32_MAX in Hmax.
  unfold updateAttitudeINSGPS, sensors_ready.
  destruct (gyro_rx i); cbn [negb orb andb].
  2:{ cbn [fst insst init_stage AlarmsSet with_insst with_pub].
      split; [lia | split; [lia | split]].
      - erewrite (new_calls_app s _ []) by reflexivity; reflexivity.
      - discriminate. }
  destruct (accel_rx i); cbn [negb orb andb].
  2:{ cbn [fst insst init_stage AlarmsSet with_insst with_pub].
      split; [lia | split; [lia | split]].
      - erewrite (new_calls_app s _ []) by reflexivity; reflexivity.
      - discriminate. }
  assert (Hcalls : init_calls od i s =
                   [INSStatePrediction (gyros_rad (Gyros i) (GyrosBias (pub s)))
                      (vec3_of_xyz (Accels i)) Lit.c0_002] ++ ins s).
  { unfold init_calls.
    replace (init_stage (insst s) =? 0) with false
      by (symmetry; apply Z.eqb_neq; lia).
    replace (0 <? init_stage (insst s)) with true
      by (symmetry; apply Z.ltb_lt; lia).
    reflexivity. }
  match goal with
  | |- context [if ?c then (_, -1) else _] => destruct c
  end.
  - cbn [fst snd insst init_stage inited ins].
    rewrite int32_wrap_small by lia.
    erewrite new_calls_app by (cbn [ins]; exact Hcalls).
    split; [lia | split; [lia | split; [reflexivity | ]]].
    intros H10 _.
    replace (10 <? init_stage (insst s) + 1) with true
      by (symmetry; apply Z.ltb_lt; lia).
    split; reflexivity.
  - cbn [fst snd insst init_stage inited ins].
    split; [lia | split; [lia | split]].
    + erewrite (new_calls_app s _ []) by reflexivity; reflexivity.
    + intros _ H. discriminate.
Qed.

End Properties.

(** ** The theorems at concrete inputs *)

Lemma timeout_warns_and_keeps_estimates_witness :
  gyro_rx timeout_inputs = false
  /\ snd (updateAttitudeComplimentary (ext := example_externals)
            false timeout_inputs startup_state) = -1
  /\ snd (updateAttitudeINSGPS (ext := example_externals)
            false true timeout_inputs startup_state) = -1.
Proof.
  pose proof (@timeout_warns_and_keeps_estimates example_externals
                false true timeout_inputs startup_state
                (or_introl eq_refl)) as H.
  split; [reflexivity | ].
  split; [exact (proj1 (proj1 H)) | exact (proj1 (proj2 H))].
Defined.

Lemma outdoor_gps_mask_drops_mag_and_baro_witness :
  inited (insst initialised_state) = true
  /\ mag_rx example_inputs = true
  /\ baro_rx example_inputs = true
  /\ last_correction
       (new_calls initialised_state
          (fst (updateAttitudeINSGPS (ext := example_externals)
                  false true example_inputs initialised_state)))
     = Some 31.
Proof.
  split; [reflexivity | split; [reflexivity | split; [reflexivity | ]]].
  refine (proj1 (proj2
    (@outdoor_gps_mask_drops_mag_and_baro example_externals
       example_inputs initialised_state
       eq_refl eq_refl eq_refl eq_refl eq_refl eq_refl eq_refl
       _ _ eq_refl eq_refl _))); vm_compute; discriminate.
Defined.

Lemma staged_init_publishes_after_eleven_ready_cycles_witness :
  init_stage (insst startup_state) = 0
  /\ inited (insst startup_state) = false
  /\ ready_cycles (ext := example_externals) true ten_ready_cycles
                  startup_state = 10%nat
  /\ init_stage
       (insst (fst (run_INSGPS (ext := example_externals) true
                               ten_ready_cycles startup_state))) = 10
  /\ estimates (fst (run_INSGPS (ext := example_externals) true
                                ten_ready_cycles startup_state))
     = estimates startup_state.
Proof.
  split; [reflexivity | split; [reflexivity | split; [reflexivity | ]]].
  assert (L : (ready_cycles (ext := example_externals) true ten_ready_cycles
                            startup_state <= 10)%nat)
    by (vm_compute; apply le_n).
  pose proof (proj1 (@staged_init_publishes_after_eleven_ready_cycles
                       example_externals true ten_ready_cycles startup_state
                       eq_refl eq_refl L)) as H.
  split; [exact (proj1 (proj2 H)) | exact (proj1 (proj2 (proj2 H)))].
Defined.

Lemma first_run_does_not_reset_init_stage_witness :
  init_stage (insst initialised_state) = 11
  /\ init_stage
       (insst (fst (updateAttitudeINSGPS (ext := example_externals)
                      true true example_inputs initialised_state))) <> 0
  /\ existsb is_INSGPSInit
       (new_calls initialised_state
          (fst (updateAttitudeINSGPS (ext := example_externals)
                  true true example_inputs initialised_state))) = false.
Proof.
  split; [reflexivity | ].
  assert (B : 0 < init_stage (insst initialised_state) < INT32_MAX)
    by (vm_compute; split; reflexivity).
  pose proof (@first_run_does_not_reset_init_stage example_externals
                true example_inputs initialised_state B) as H.
  split; [exact (proj1 (proj2 H)) | exact (proj1 (proj2 (proj2 H)))].
Defined.

Lemma zero_accel_publishes_nan_bias_witness :
  F32.is_zero (x (Accels zero_accel_inputs)) = true
  /\ x (GyrosBias (pub (fst (updateAttitudeComplimentary
                               (ext := example_externals)
                               false zero_accel_inputs startup_state))))
     = F32.nan.
Proof.
  split; [reflexivity | ].
  exact (proj1 (proj2 (proj2
    (@zero_accel_publishes_nan_bias example_externals false
       zero_accel_inputs startup_state
       eq_refl eq_refl eq_refl eq_refl eq_refl)))).
Defined.

Lemma mag_error_uses_inverted_receive_test_witness :
  mag_rx example_inputs = true
  /\ mag_err (comp (fst (updateAttitudeComplimentary
                           (ext := example_externals)
                           false example_inputs startup_state)))
     = zero3.
Proof.
  split; [reflexivity | ].
  exact (proj1 (proj2
    (@mag_error_uses_inverted_receive_test example_externals false
       example_inputs startup_state eq_refl eq_refl)) eq_refl).
Defined.

Lemma getNED_after_settings_callback_witness :
  F32.valid (gps_Altitude example_gps) = true
  /\ F32.valid (home_Altitude example_home) = true
  /\ same_value
       (v2 (snd (getNED (cfg (settingsUpdatedCb (ext := example_externals)
                                example_inputs startup_state))
                        example_gps)))
       (home_Altitude example_home
        - (gps_Altitude example_gps + gps_GeoidSeparation example_gps))%f32.
Proof.
  split; [reflexivity | split; [reflexivity | ]].
  exact (proj2 (proj2 (proj2 (proj2 (proj1
    (@getNED_after_settings_callback example_externals example_inputs
       startup_state example_gps eq_refl eq_refl eq_refl)))))).
Defined.

(** ** Further properties of the code *)

(** *** Comparisons *)

Lemma SFcompare_antisym :
  forall a b, SFcompare b a = option_map CompOpp (SFcompare a b).
Proof.
  intros a b.
  destruct a as [sa | sa | | sa ma ea], b as [sb | sb | | sb mb eb];
    try reflexivity;
    try (destruct sa; reflexivity);
    try (destruct sb; reflexivity);
    try (destruct sa, sb; reflexivity).
  destruct sa, sb; cbn [SFcompare option_map]; try reflexivity;
    rewrite (Z.compare_antisym ea eb);
    destruct (ea ?= eb); cbn [CompOpp]; try reflexivity;
    rewrite <- (Pos.compare_cont_antisym _ _ Eq); cbn [CompOpp];
    try reflexivity.
Qed.

(** Without a NaN, [a < b] fails exactly when [b <= a]. *)
Lemma ltb_false_leb :
  forall a b, F32.is_nan a = false -> F32.is_nan b = false ->
              (a <? b)%f32 = false -> (b <=? a)%f32 = true.
Proof.
  intros a b Ha Hb H. unfold F32.ltb, F32.leb, SFltb, SFleb in *.
  rewrite (SFcompare_antisym a b).
  destruct (SFcompare a b) as [[ | | ] | ] eqn:E; cbn; try reflexivity;
    try discriminate.
  destruct a, b; cbn in *; discriminate.
Qed.

Lemma leb_false_leb :
  forall a b, F32.is_nan a = false -> F32.is_nan b = false ->
              (a <=? b)%f32 = false -> (b <=? a)%f32 = true.
Proof.
  intros a b Ha Hb H. unfold F32.leb, SFleb in *.
  rewrite (SFcompare_antisym a b).
  destruct (SFcompare a b) as [[ | | ] | ] eqn:E; cbn; try reflexivity;
    try discriminate.
  destruct a, b; cbn in *; discriminate.
Qed.

(** The clamp of lines 585-588 brings every number into [0.001, 0.01]. *)
Lemma clamp_dT_in_range :
  forall dT, F32.is_nan dT = false -> dT_in_range (clamp_dT dT) = true.
Proof.
  intros dT N. unfold clamp_dT, dT_in_range.
  destruct (Lit.c1em2 <? dT)%f32 eqn:E1; [reflexivity | ].
  destruct (dT <=? Lit.c1em3)%f32 eqn:E2; [reflexivity | ].
  rewrite (leb_false_leb dT Lit.c1em3 N eq_refl E2).
  rewrite (ltb_false_leb Lit.c1em2 dT eq_refl N E1). reflexivity.
Qed.

(** *** Results that are never NaN *)

Lemma shr_fexp_nonneg :
  forall m e l, 0 <= m ->
    0 <= shr_m (fst (shr_fexp F32.prec F32.emax m e l)).
Proof.
  intros m e l H. unfold shr_fexp, shr.
  destruct (fexp F32.prec F32.emax (Zdigits2 m + e) - e) as [ | n | n];
    cbn [fst]; rewrite ?shr_iter_m; rewrite ?shr_record_of_loc_m;
    try assumption.
  apply Z.div_pos; [assumption | apply Z.pow_pos_nonneg; lia].
Qed.

Lemma binary_round_aux_not_nan :
  forall s m e l, 0 <= m ->
    F32.is_nan (binary_round_aux F32.prec F32.emax s m e l) = false.
Proof.
  intros s m e l H. unfold binary_round_aux.
  pose proof (shr_fexp_nonneg m e l H) as H1.
  destruct (shr_fexp F32.prec F32.emax m e l) as [mrs' e'].
  cbn [fst] in H1.
  pose proof (round_nearest_even_bounds _ (loc_of_shr_record mrs') H1) as H2.
  set (m1 := round_nearest_even (shr_m mrs') (loc_of_shr_record mrs')) in *.
  pose proof (shr_fexp_nonneg m1 e' loc_Exact ltac:(lia)) as H3.
  destruct (shr_fexp F32.prec F32.emax m1 e' loc_Exact) as [mrs'' e''].
  cbn [fst] in H3.
  destruct (shr_m mrs''); try reflexivity; try lia.
  destruct (e'' <=? F32.emax - F32.prec); reflexivity.
Qed.

Lemma of_Z_not_nan : forall n, F32.is_nan (F32.of_Z n) = false.
Proof.
  intros [ | p | p]; try reflexivity;
    unfold F32.of_Z, binary_normalize, binary_round;
    destruct (shl_align _ _ _) as [mz ez];
    apply binary_round_aux_not_nan; lia.
Qed.

Lemma SFdiv_core_nonneg :
  forall m1 e1 m2 e2,
    0 <= fst (fst (SFdiv_core_binary F32.prec F32.emax (Z.pos m1) e1 (Z.pos m2) e2)).
Proof.
  intros m1 e1 m2 e2. unfold SFdiv_core_binary.
  set (s := e1 - e2 - _).
  set (m' := match s with Z.pos _ => Z.shiftl (Z.pos m1) s | 0 => Z.pos m1
                          | Z.neg _ => 0 end).
  assert (Hm : 0 <= m').
  { subst m'. destruct s; try lia. apply Z.shiftl_nonneg. lia. }
  pose proof (Z.div_pos m' (Z.pos m2) Hm ltac:(lia)) as Hq.
  unfold Z.div in Hq.
  destruct (Z.div_eucl m' (Z.pos m2)) as [q r]. exact Hq.
Qed.

(** A quotient by a finite non-zero number is a NaN only if the dividend is. *)
Lemma div_finite_not_nan :
  forall a s m e, F32.is_nan a = false ->
    F32.is_nan (a / S754_finite s m e)%f32 = false.
Proof.
  intros [sa | sa | | sa ma ea] s m e H; try reflexivity; try discriminate.
  unfold F32.div, SFdiv.
  pose proof (SFdiv_core_nonneg ma ea m e) as Hq.
  destruct (SFdiv_core_binary F32.prec F32.emax (Z.pos ma) ea (Z.pos m) e)
    as [[mz ez] lz].
  apply binary_round_aux_not_nan. exact Hq.
Qed.

Section Further.

Context {ext : Externals}.

(** *** The running cycle of the staged filter *)

Lemma prediction_steps_app :
  forall a b, prediction_steps (a ++ b) = prediction_steps a ++ prediction_steps b.
Proof.
  induction a as [ | c a IH]; intros b; [reflexivity | ].
  destruct c; cbn; rewrite ?IH; reflexivity.
Qed.

Lemma count_calls_app :
  forall p a b, count_calls p (a ++ b) = (count_calls p a + count_calls p b)%nat.
Proof.
  intros p a b. unfold count_calls. rewrite filter_app, length_app. reflexivity.
Qed.

Ltac trace_prefix l t :=
  lazymatch l with
  | t => constr:(@nil ins_call)
  | ?a :: ?r => let p := trace_prefix r t in constr:(a :: p)
  end.

Ltac give_post :=
  lazymatch goal with
  | |- exists post, ?l = post ++ ?t /\ _ =>
      let p := trace_prefix l t in exists p; split; [reflexivity | ]
  end.

(** The calls of a running cycle: the prediction, the covariance
    prediction and the magnetic north first, then at most a variance
    setting, a correction and a bias reset. *)
Lemma ins_running_calls :
  forall (od mag_u baro_u gps_u : bool) (i : Inputs) (p0 : Published) (s : State),
    let r := ins_running od mag_u baro_u gps_u i p0 s in
    let dT := clamp_dT (F32.of_Z (delay_diff_us i) / Lit.c1e6)%f32 in
    let base :=
      INSSetMagNorth (home_Be (HomeLocation i))
        :: INSCovariancePrediction dT
        :: INSStatePrediction (gyros_rad (Gyros i) (GyrosBias p0))
                              (vec3_of_xyz (Accels i)) dT
        :: ins s in
    let mask := sensor_mask od mag_u baro_u gps_u in
    exists post,
      ins (fst r) = post ++ base
      /\ new_calls s (fst r) = post ++ firstn 3 base
      /\ prediction_steps post = []
      /\ last_correction post = (if mask =? 0 then None else Some mask)
      /\ count_calls is_INSCorrection post = (if mask =? 0 then 0%nat else 1%nat)
      /\ ((exists e5, ins (fst r) = INSSetGyroBias zero3 :: e5
                      /\ bias_exceeds (Nav_gyro_bias (Nav e5)) = true
                      /\ count_calls is_INSSetGyroBias post = 1%nat)
          \/ (bias_exceeds (Nav_gyro_bias (Nav (ins (fst r)))) = false
              /\ count_calls is_INSSetGyroBias post = 0%nat)).
Proof.
  intros od mag_u baro_u gps_u i p0 s r dT base mask.
  subst r base. unfold ins_running. fold dT. fold mask.
  destruct (gps_u && od); [ | destruct (negb od) ];
    destruct (mask =? 0); cbn [fst ins];
    match goal with
    | |- context [if ?c then INSSetGyroBias _ :: ?e else _] =>
        change c with (bias_exceeds (Nav_gyro_bias (Nav e)));
        destruct (bias_exceeds (Nav_gyro_bias (Nav e))) eqn:B
    end;
    give_post;
    (split; [apply new_calls_app; cbn [ins firstn]; rewrite <- app_assoc;
             reflexivity | ]);
    (split; [reflexivity | split; [reflexivity | split; [reflexivity | ]]]);
    first [ left; eexists; split; [reflexivity | split; [exact B | reflexivity]]
          | right; split; [exact B | reflexivity] ].
Qed.

Lemma INSGPS_running_is_ins_running :
  forall (od : bool) (i : Inputs) (s : State),
    inited (insst s) = true -> gyro_rx i = true -> accel_rx i = true ->
    let g := GPSPosition i in
    let gps_u := gps_rx i && od
                 && ((7 <=? gps_Satellites g)
                     && (gps_PDOP g <=? Lit.c4)%f32
                     && home_Set (homeLocation (cfg s))) in
    let level := if od && (gps_Satellites g <? 7) then ALARM_ERROR
                 else ALARM_CLEARED in
    updateAttitudeINSGPS false od i s
    = ins_running od (mag_rx i) (baro_rx i) gps_u i
                  (set_alarm level (pub s)) s.
Proof.
  intros od i s Hin Hg Ha g gps_u level.
  unfold updateAttitudeINSGPS. rewrite Hin, Hg, Ha.
  cbn [negb orb andb]. reflexivity.
Qed.

(** X1. In every running cycle the engine's state prediction and covariance
    prediction receive the same time step, and it lies in [0.001, 0.01]
    whatever the delay timer returned. *)
Theorem running_cycle_time_step_is_clamped :
  forall (od : bool) (i : Inputs) (s : State),
    inited (insst s) = true -> gyro_rx i = true -> accel_rx i = true ->
    let s' := fst (updateAttitudeINSGPS false od i s) in
    exists dT,
      prediction_steps (new_calls s s') = [dT; dT]
      /\ dT_in_range dT = true.
Proof.
  intros od i s Hin Hg Ha s'. subst s'.
  rewrite (INSGPS_running_is_ins_running od i s Hin Hg Ha).
  match goal with
  | |- context [ins_running ?a ?b ?c ?d ?e ?f ?g] =>
      destruct (ins_running_calls a b c d e f g) as [post [_ [E [P _]]]]
  end.
  exists (clamp_dT (F32.of_Z (delay_diff_us i) / Lit.c1e6)%f32).
  split.
  - rewrite E, prediction_steps_app, P. reflexivity.
  - apply clamp_dT_in_range.
    change Lit.c1e6 with (S754_finite false 16000000 (-4)).
    apply div_finite_not_nan.
    apply of_Z_not_nan.
Qed.

(** X2. A running cycle resets the engine's gyro bias exactly when an axis
    of the bias read back after the correction exceeds 0.1 in magnitude; the
    reset is then the last call of the cycle, and otherwise the cycle makes
    no [INSSetGyroBias] call. *)
Theorem running_cycle_bias_guard :
  forall (od : bool) (i : Inputs) (s : State),
    inited (insst s) = true -> gyro_rx i = true -> accel_rx i = true ->
    let s' := fst (updateAttitudeINSGPS false od i s) in
    (exists before,
        ins s' = INSSetGyroBias zero3 :: before
        /\ bias_exceeds (Nav_gyro_bias (Nav before)) = true
        /\ count_calls is_INSSetGyroBias (new_calls s s') = 1%nat)
    \/ (bias_exceeds (Nav_gyro_bias (Nav (ins s'))) = false
        /\ count_calls is_INSSetGyroBias (new_calls s s') = 0%nat).
Proof.
  intros od i s Hin Hg Ha s'. subst s'.
  rewrite (INSGPS_running_is_ins_running od i s Hin Hg Ha).
  match goal with
  | |- context [ins_running ?a ?b ?c ?d ?e ?f ?g] =>
      destruct (ins_running_calls a b c d e f g) as [post [_ [E [_ [_ [_ B]]]]]]
  end.
  rewrite E, count_calls_app. cbn [firstn count_calls filter is_INSSetGyroBias length].
  rewrite Nat.add_0_r.
  destruct B as [[e5 [B1 [B2 B3]]] | [B1 B2]].
  - left. exists e5. split; [exact B1 | split; [exact B2 | exact B3]].
  - right. split; [exact B1 | exact B2].
Qed.

(** X3. Outdoors with fewer than 7 satellites a running cycle still returns
    0 and publishes attitude, bias, position and velocity, but raises the
    Error alarm, leaves NEDPosition alone and hands the correction a mask
    with the magnetometer and baro bits of this cycle only (no correction at
    all when neither arrived). *)
Theorem running_outdoor_without_satellites :
  forall (i : Inputs) (s : State),
    inited (insst s) = true -> gyro_rx i = true -> accel_rx i = true ->
    gps_Satellites (GPSPosition i) < 7 ->
    let r := updateAttitudeINSGPS false true i s in
    let m1 := if mag_rx i then uint16_wrap (Z.lor 0 MAG_SENSORS) else 0 in
    let mask := if baro_rx i then uint16_wrap (Z.lor m1 BARO_SENSOR) else m1 in
    snd r = 0
    /\ alarm (pub (fst r)) = ALARM_ERROR
    /\ set_log (pub (fst r))
       = [OBJ_VelocityActual; OBJ_PositionActual; OBJ_GyrosBias;
          OBJ_AttitudeActual] ++ set_log (pub s)
    /\ NEDPosition (pub (fst r)) = NEDPosition (pub s)
    /\ last_correction (new_calls s (fst r))
       = (if mask =? 0 then None else Some mask)
    /\ count_calls is_INSCorrection (new_calls s (fst r))
       = (if mask =? 0 then 0%nat else 1%nat).
Proof.
  intros i s Hin Hg Ha Hsat r m1 mask. subst r.
  rewrite (INSGPS_running_is_ins_running true i s Hin Hg Ha).
  replace (7 <=? gps_Satellites (GPSPosition i)) with false
    by (symmetry; apply Z.leb_gt; exact Hsat).
  replace (gps_Satellites (GPSPosition i) <? 7) with true
    by (symmetry; apply Z.ltb_lt; exact Hsat).
  rewrite !andb_false_r. cbn [andb].
  match goal with
  | |- context [ins_running ?a ?b ?c ?d ?e ?f ?g] =>
      destruct (ins_running_calls a b c d e f g)
        as [post [_ [E [_ [L [C _]]]]]]
  end.
  assert (M : sensor_mask true (mag_rx i) (baro_rx i) false = mask)
    by reflexivity.
  rewrite M in L, C. rewrite E.
  split; [reflexivity | ]. split; [reflexivity | ].
  split; [reflexivity | ]. split; [reflexivity | ].
  split.
  - cbn [firstn]. clear - L. revert L.
    generalize (if mask =? 0 then None else Some mask).
    induction post as [ | c post IH]; intros o L.
    + cbn in L. subst o. reflexivity.
    + destruct c; cbn in *; try (apply IH; exact L); exact L.
  - rewrite count_calls_app, C. cbn. lia.
Qed.
(** *** Return codes *)

(** X4. The complementary filter returns 0 exactly when the gyro and accel
    samples were received, and the staged filter exactly when in addition
    it was entered initialised and without [first_run]; every other call
    returns -1.  A call that returns -1 has published nothing and leaves the
    alarm raised; a complementary cycle that returns 0 has cleared it. *)
Theorem return_code_tells_what_was_published :
  forall (fr od : bool) (i : Inputs) (s : State),
    let rc := updateAttitudeComplimentary fr i s in
    let ri := updateAttitudeINSGPS fr od i s in
    snd rc = (if gyro_rx i && accel_rx i then 0 else -1)
    /\ snd ri = (if gyro_rx i && accel_rx i && negb fr && inited (insst s)
                 then 0 else -1)
    /\ (snd rc = -1 ->
        estimates (fst rc) = estimates s
        /\ alarm (pub (fst rc)) = ALARM_WARNING)
    /\ (snd rc = 0 -> alarm (pub (fst rc)) = ALARM_CLEARED)
    /\ (snd ri = -1 ->
        estimates (fst ri) = estimates s
        /\ alarm (pub (fst ri)) <> ALARM_CLEARED).
Proof.
  intros fr od i s rc ri. subst rc ri.
  split; [ | split; [ | split; [ | split ] ] ].
  - unfold updateAttitudeComplimentary.
    destruct (gyro_rx i), (accel_rx i); cbn [negb andb]; try reflexivity.
    destruct (gain_schedule fr i s). reflexivity.
  - unfold updateAttitudeINSGPS.
    destruct (gyro_rx i), (accel_rx i); cbn [negb andb orb]; try reflexivity.
    destruct fr; cbn [negb andb].
    + match goal with
      | |- context [if ?c then (_, -1) else _] => destruct c
      end; reflexivity.
    + destruct (inited (insst s)); cbn [negb andb].
      * match goal with
        | |- context [ins_running ?a ?b ?c ?d ?e ?f ?g] =>
            exact (proj1 (ins_running_trace a b c d e f g))
        end.
      * match goal with
        | |- context [if ?c then (_, -1) else _] => destruct c
        end; reflexivity.
  - unfold updateAttitudeComplimentary.
    destruct (gyro_rx i), (accel_rx i); cbn [negb andb];
      try (intros _; split; reflexivity).
    destruct (gain_schedule fr i s). cbn [snd]. discriminate.
  - unfold updateAttitudeComplimentary.
    destruct (gyro_rx i), (accel_rx i); cbn [negb andb]; try discriminate.
    destruct (gain_schedule fr i s). intros _. reflexivity.
  - unfold updateAttitudeINSGPS.
    destruct (gyro_rx i), (accel_rx i); cbn [negb andb orb];
      try (intros _; split; [reflexivity | discriminate]).
    destruct (if fr then false else inited (insst s)) eqn:E; cbn [negb andb].
    + match goal with
      | |- context [ins_running ?a ?b ?c ?d ?e ?f ?g] =>
          rewrite (proj1 (ins_running_trace a b c d e f g))
      end. discriminate.
    + match goal with
      | |- context [if ?c then (_, -1) else _] => destruct c
      end; intros _; (split; [reflexivity | discriminate]).
Qed.

(** *** The calls of an initialisation *)




(** *** Sensors seen once *)

(** X6. Indoors the magnetometer and the baro need to be seen only once: with
    both flags set, every cycle that receives gyro and accel advances the
    stage, so from stage [n] the filter is initialised after [11 - n] such
    cycles, having published nothing. *)
Theorem indoor_initialisation_needs_mag_and_baro_once :
  forall (cs : list (bool * Inputs)) (s : State) (n : nat),
    inited (insst s) = false ->
    init_stage (insst s) = Z.of_nat n ->
    (n <= 10)%nat ->
    mag_updated (insst s) = true ->
    baro_updated (insst s) = true ->
    Forall (fun c => gyro_rx (snd c) = true /\ accel_rx (snd c) = true) cs ->
    length cs = (11 - n)%nat ->
    let r := run_INSGPS false cs s in
    inited (insst (fst r)) = true
    /\ init_stage (insst (fst r)) = 11
    /\ estimates (fst r) = estimates s
    /\ Forall (fun rc => rc = -1) (snd r).
Proof.
  induction cs as [ | [fr i] rest IH]; intros s n Hin Hst Hn Hm Hb Hall Hlen.
  - cbn [length] in Hlen. lia.
  - inversion Hall as [ | c l [Hg Ha] Hrest]; subst. cbn [snd] in Hg, Ha.
    cbn [run_INSGPS fst snd].
    destruct (INSGPS_init_cycle fr false i s Hin ltac:(lia)) as [Hrc [Hest Hstep]].
    assert (Hready : sensors_ready false i s = true).
    { unfold sensors_ready. rewrite Hg, Ha, Hm, Hb. cbn.
      rewrite orb_true_r. reflexivity. }
    rewrite Hready in Hstep. destruct Hstep as [Hs1 Hi1].
    assert (Hflags : mag_updated (insst (fst (updateAttitudeINSGPS fr false i s)))
                     = true
                     /\ baro_updated (insst (fst (updateAttitudeINSGPS fr false i s)))
                        = true).
    { unfold updateAttitudeINSGPS. rewrite Hin, Hg, Ha, Hm, Hb.
      replace (if fr then false else false) with false
        by (destruct fr; reflexivity).
      cbn [negb orb andb]. rewrite orb_true_r. cbn [andb].
      split; reflexivity. }
    destruct Hflags as [Hm1 Hb1].
    cbn [length] in Hlen.
    destruct (Nat.eq_dec n 10) as [E10 | N10].
    + subst n. destruct rest; [ | cbn [length] in Hlen; lia ].
      cbn [run_INSGPS fst snd].
      rewrite Hst in Hs1, Hi1. cbn in Hs1, Hi1.
      repeat split; auto.
    + replace (10 <? init_stage (insst s) + 1) with false in Hi1
        by (symmetry; apply Z.ltb_ge; lia).
      destruct (IH (fst (updateAttitudeINSGPS fr false i s)) (S n) Hi1
                  ltac:(lia) ltac:(lia) Hm1 Hb1 Hrest ltac:(lia))
        as [A [B [C D]]].
      split; [exact A | split; [exact B | split; [congruence | ]]].
      constructor; assumption.
Qed.
(** *** NaN in the complementary filter *)

Lemma quat_step_nan :
  forall (q : Quat) (g : XYZ) (dT : float),
    xyz_is_nan g = true ->
    quat_step q g dT = mkQuat F32.nan F32.nan F32.nan F32.nan.
Proof.
  intros q [gx gy gz] dT H. unfold xyz_is_nan in H. cbn [x y z] in H.
  unfold quat_step. cbn [x y z].
  destruct gx; cbn in H;
    try (change S754_nan with F32.nan; autorewrite with f32_nan; reflexivity);
    destruct gy; cbn in H;
    try (change S754_nan with F32.nan; autorewrite with f32_nan; reflexivity);
    destruct gz; cbn in H; try discriminate;
    change S754_nan with F32.nan; autorewrite with f32_nan; reflexivity.
Qed.

(** X7. A NaN on any gyro axis does not reach the published attitude: the
    cycle returns 0 with the alarm cleared and the quaternion reset to
    identity. *)
Theorem nan_gyro_resets_attitude_to_identity :
  forall (fr : bool) (i : Inputs) (s : State),
    gyro_rx i = true -> accel_rx i = true ->
    xyz_is_nan (Gyros i) = true ->
    let r := updateAttitudeComplimentary fr i s in
    snd r = 0
    /\ alarm (pub (fst r)) = ALARM_CLEARED
    /\ quat_of_attitude (AttitudeActual (pub (fst r))) = identity_quat.
Proof.
  intros fr i s Hg Ha Hn r. subst r.
  unfold updateAttitudeComplimentary. rewrite Hg, Ha. cbn [negb].
  destruct (gain_schedule fr i s) as [settings init'].
  rewrite quat_step_nan.
  - rewrite quat_renormalize_nan. cbn [fst snd pub].
    split; [reflexivity | split; [reflexivity | ]].
    unfold gps_passthrough.
    destruct (gps_rx i && home_Set _); reflexivity.
  - unfold xyz_is_nan in *. cbn [x y z].
    destruct (Gyros i) as [gx gy gz]. cbn [x y z] in *.
    destruct gx; cbn in Hn |- *; try reflexivity;
      destruct gy; cbn in Hn |- *; rewrite ?orb_true_r; try reflexivity;
      destruct gz; cbn in Hn |- *; rewrite ?orb_true_r; try reflexivity;
      discriminate.
Qed.

Lemma complementary_cycle_bias :
  forall (fr : bool) (i : Inputs) (s : State),
    let b := GyrosBias (pub s) in
    let b' := GyrosBias (pub (fst (updateAttitudeComplimentary fr i s))) in
    b' = b
    \/ exists ex ey ez, b' = mkXYZ (x b + ex)%f32 (y b + ey)%f32 (z b + ez)%f32.
Proof.
  intros fr i s b b'. subst b b'.
  unfold updateAttitudeComplimentary.
  destruct (gyro_rx i); [ | left; reflexivity ].
  destruct (accel_rx i); [ | left; reflexivity ].
  cbn [negb]. destruct (gain_schedule fr i s) as [settings init'].
  right. cbn [fst pub]. unfold gps_passthrough.
  destruct (gps_rx i && home_Set _); eexists _, _, _; reflexivity.
Qed.

(** X8. A NaN in the gyro bias never goes away by itself: over any run of
    complementary cycles an axis of GyrosBias that is NaN stays NaN. *)
Theorem nan_bias_is_permanent :
  forall (cs : list (bool * Inputs)) (s : State),
    let b := GyrosBias (pub s) in
    let b' := GyrosBias (pub (fst (run_Complimentary cs s))) in
    (F32.is_nan (x b) = true -> F32.is_nan (x b') = true)
    /\ (F32.is_nan (y b) = true -> F32.is_nan (y b') = true)
    /\ (F32.is_nan (z b) = true -> F32.is_nan (z b') = true).
Proof.
  induction cs as [ | [fr i] rest IH]; intros s b b'; subst b b'.
  - cbn. auto.
  - cbn [run_Complimentary fst].
    specialize (IH (fst (updateAttitudeComplimentary fr i s))).
    cbv zeta in IH. destruct IH as [IHx [IHy IHz]].
    assert (K : forall a e, F32.is_nan a = true -> F32.is_nan (a + e)%f32 = true).
    { intros a e H. destruct a; try discriminate. reflexivity. }
    destruct (complementary_cycle_bias fr i s) as [E | [ex [ey [ez E]]]];
      cbv zeta in E; rewrite E in IHx, IHy, IHz; cbn [x y z] in *.
    + auto.
    + repeat split; intros H; auto.
Qed.

(** *** The magnetometer guard *)

Lemma mul_zero_zero :
  forall a, F32.is_zero a = true -> (a * a)%f32 = F32.zero.
Proof. intros [[|] | | | ] H; try discriminate; reflexivity. Qed.

(** X9. A magnetometer reading of zero on all three axes gives a yaw error of
    exactly zero, for every attitude and every home field: no NaN comes out
    of the normalisation by the zero length. *)
Theorem zero_magnetometer_gives_zero_yaw_error :
  forall (fr : bool) (i : Inputs) (s : State),
    gyro_rx i = true -> accel_rx i = true ->
    xyz_is_zero (Magnetometer i) = true ->
    mag_cross (quat_of_attitude (AttitudeActual (pub s))) (Magnetometer i)
              (HomeLocation i) = zero3
    /\ mag_err (comp (fst (updateAttitudeComplimentary fr i s))) = zero3.
Proof.
  intros fr i s Hg Ha Hz.
  assert (M : forall q h, mag_cross q (Magnetometer i) h = zero3).
  { intros q h. unfold mag_cross, norm3. cbn [vec3_of_xyz v0 v1 v2].
    unfold xyz_is_zero in Hz.
    apply andb_prop in Hz. destruct Hz as [Hz Hz3].
    apply andb_prop in Hz. destruct Hz as [Hz1 Hz2].
    rewrite (mul_zero_zero _ Hz1), (mul_zero_zero _ Hz2), (mul_zero_zero _ Hz3).
    change (F32.sqrtf (F32.zero + F32.zero + F32.zero) <? F32.one)%f32 with true.
    rewrite orb_true_r. reflexivity. }
  split; [apply M | ].
  unfold updateAttitudeComplimentary. rewrite Hg, Ha. cbn [negb].
  destruct (gain_schedule fr i s) as [settings init'].
  cbn [fst comp mag_err]. unfold mag_error.
  destruct (negb (mag_rx i)); [apply M | reflexivity].
Qed.

(** *** Gain scheduling *)

Lemma gain_schedule_loaded :
  forall (i : Inputs) (s : State),
    init (comp s) = 1 -> arming_zero i s = false ->
    gain_schedule false i s = (attitudeSettings (cfg s), 1).
Proof.
  intros i s H1 Harm. unfold gain_schedule. rewrite H1.
  unfold arming_zero in Harm. cbn [Z.eqb andb]. rewrite Harm. reflexivity.
Qed.

Lemma gain_schedule_reload :
  forall (fr : bool) (i : Inputs) (s : State),
    fr = true \/ init (comp s) = 0 ->
    7000 <= tick_first i \/ tick_second i <= 1000 ->
    arming_zero i s = false ->
    gain_schedule fr i s = (AttitudeSettings i, 1).
Proof.
  intros fr i s H0 Ht Harm. unfold gain_schedule.
  assert (E : (if fr then 0 else init (comp s)) = 0)
    by (destruct H0 as [-> | ->]; [reflexivity | destruct fr; reflexivity]).
  rewrite E. unfold arming_zero in Harm.
  replace ((0 =? 0) && (tick_first i <? 7000) && (1000 <? tick_second i))
    with false.
  - rewrite Harm. reflexivity.
  - symmetry. cbn [Z.eqb andb]. apply andb_false_iff.
    destruct Ht as [Ht | Ht]; [left; apply Z.ltb_ge | right; apply Z.ltb_ge];
      exact Ht.
Qed.

Lemma gain_schedule_arming :
  forall (fr : bool) (i : Inputs) (s : State),
    arming_zero i s = true ->
    gain_schedule fr i s = (force_high_gains (attitudeSettings (cfg s)), 0).
Proof.
  intros fr i s Harm. unfold gain_schedule. unfold arming_zero in Harm.
  rewrite Harm.
  destruct ((if fr then 0 else init (comp s)) =? 0) eqn:E; cbn [andb].
  - apply Z.eqb_eq in E. rewrite E.
    destruct ((tick_first i <? 7000) && (1000 <? tick_second i)); reflexivity.
  - reflexivity.
Qed.

Lemma complementary_cycle_settings :
  forall (fr : bool) (i : Inputs) (s : State),
    gyro_rx i = true -> accel_rx i = true ->
    let s' := fst (updateAttitudeComplimentary fr i s) in
    attitudeSettings (cfg s') = fst (gain_schedule fr i s)
    /\ init (comp s') = snd (gain_schedule fr i s).
Proof.
  intros fr i s Hg Ha s'. subst s'.
  unfold updateAttitudeComplimentary. rewrite Hg, Ha. cbn [negb].
  destruct (gain_schedule fr i s). split; reflexivity.
Qed.

Lemma complementary_timeout_state :
  forall (fr : bool) (i : Inputs) (s : State),
    gyro_rx i && accel_rx i = false ->
    fst (updateAttitudeComplimentary fr i s) = AlarmsSet ALARM_WARNING s.
Proof.
  intros fr i s H. unfold updateAttitudeComplimentary.
  destruct (gyro_rx i); [ | reflexivity ].
  destruct (accel_rx i); [discriminate | reflexivity].
Qed.

(** Once the settings are loaded, cycles without [first_run] and without an
    arming-zero request keep them. *)
Lemma run_Complimentary_keeps_settings :
  forall (cs : list (bool * Inputs)) (s : State),
    init (comp s) = 1 ->
    Forall (fun c => fst c = false /\ arming_zero (snd c) s = false) cs ->
    let s' := fst (run_Complimentary cs s) in
    attitudeSettings (cfg s') = attitudeSettings (cfg s)
    /\ init (comp s') = 1.
Proof.
  induction cs as [ | [fr i] rest IH]; intros s H1 Hall s'; subst s'.
  - split; [reflexivity | exact H1].
  - inversion Hall as [ | c l [Hfr Harm] Hrest]; subst.
    cbn [fst snd] in Hfr, Harm. subst fr.
    cbn [run_Complimentary fst].
    set (s1 := fst (updateAttitudeComplimentary false i s)).
    assert (K : attitudeSettings (cfg s1) = attitudeSettings (cfg s)
                /\ init (comp s1) = 1).
    { subst s1. destruct (gyro_rx i && accel_rx i) eqn:R.
      - apply andb_prop in R. destruct R as [Hg Ha].
        destruct (complementary_cycle_settings false i s Hg Ha) as [A B].
        rewrite (gain_schedule_loaded i s H1 Harm) in A, B. split; assumption.
      - rewrite (complementary_timeout_state false i s R).
        split; [reflexivity | exact H1]. }
    destruct K as [K1 K2].
    assert (Hrest' : Forall (fun c => fst c = false
                                      /\ arming_zero (snd c) s1 = false) rest).
    { eapply Forall_impl; [ | exact Hrest ].
      intros c [A B]. split; [exact A | ].
      unfold arming_zero in *. rewrite K1. exact B. }
    destruct (IH s1 K2 Hrest') as [A B].
    split; [rewrite A; exact K1 | exact B].
Qed.

(** X10. A cycle completed in the first second after boot (tick count at
    most 1000) loads the AttitudeSettings object and ends the gain
    scheduling: in every later cycle without [first_run] or arming the
    gains stay those loaded, also while the tick count is between 1000 and
    7000, so the high start-up gains are never applied. *)
Theorem early_first_cycle_skips_the_startup_gains :
  forall (fr : bool) (i : Inputs) (s : State) (cs : list (bool * Inputs)),
    gyro_rx i = true -> accel_rx i = true ->
    fr = true \/ init (comp s) = 0 ->
    tick_second i <= 1000 ->
    arming_zero i s = false ->
    Forall (fun c => fst c = false
                     /\ (ZeroDuringArming (AttitudeSettings i)
                         && match FlightStatus_Armed (snd c) with
                            | ARMING => true | _ => false end) = false) cs ->
    let s1 := fst (updateAttitudeComplimentary fr i s) in
    let s' := fst (run_Complimentary cs s1) in
    attitudeSettings (cfg s1) = AttitudeSettings i
    /\ init (comp s1) = 1
    /\ attitudeSettings (cfg s') = AttitudeSettings i
    /\ init (comp s') = 1.
Proof.
  intros fr i s cs Hg Ha H0 Ht Harm Hall s1 s'.
  destruct (complementary_cycle_settings fr i s Hg Ha) as [A B].
  rewrite (gain_schedule_reload fr i s H0 (or_intror Ht) Harm) in A, B.
  cbn [fst snd] in A, B. fold s1 in A, B.
  assert (Hall' : Forall (fun c => fst c = false
                                   /\ arming_zero (snd c) s1 = false) cs).
  { eapply Forall_impl; [ | exact Hall ].
    intros c [P Q]. split; [exact P | ].
    unfold arming_zero. rewrite A. exact Q. }
  destruct (run_Complimentary_keeps_settings cs s1 B Hall') as [C D].
  fold s' in C, D.
  split; [exact A | split; [exact B | split; [congruence | exact D]]].
Qed.

(** X11. An arming cycle with the zero-during-arming option forces the gains
    to AccelKp = 1, AccelKi = 0.9 and rearms the scheduling; the first
    cycle after arming, outside the start-up window, loads the
    AttitudeSettings object again. *)
Theorem arming_forces_gains_and_later_cycle_reloads :
  forall (fr fr' : bool) (i j : Inputs) (s : State),
    gyro_rx i = true -> accel_rx i = true ->
    gyro_rx j = true -> accel_rx j = true ->
    arming_zero i s = true ->
    FlightStatus_Armed j <> ARMING ->
    7000 <= tick_first j \/ tick_second j <= 1000 ->
    let s1 := fst (updateAttitudeComplimentary fr i s) in
    let s2 := fst (updateAttitudeComplimentary fr' j s1) in
    AccelKp (attitudeSettings (cfg s1)) = F32.one
    /\ AccelKi (attitudeSettings (cfg s1)) = Lit.c0_9
    /\ init (comp s1) = 0
    /\ attitudeSettings (cfg s2) = AttitudeSettings j
    /\ init (comp s2) = 1.
Proof.
  intros fr fr' i j s Hg Ha Hg' Ha' Harm Hj Ht s1 s2.
  destruct (complementary_cycle_settings fr i s Hg Ha) as [A B].
  rewrite (gain_schedule_arming fr i s Harm) in A, B.
  cbn [fst snd] in A, B. fold s1 in A, B.
  destruct (complementary_cycle_settings fr' j s1 Hg' Ha') as [C D].
  assert (Harm' : arming_zero j s1 = false).
  { unfold arming_zero. destruct (FlightStatus_Armed j);
      try (apply andb_false_r). contradiction. }
  rewrite (gain_schedule_reload fr' j s1 (or_intror B) Ht Harm') in C, D.
  fold s2 in C, D. rewrite A.
  repeat split; try reflexivity; assumption.
Qed.
(** *** GPS passthrough of the complementary filter *)

(** X12. The complementary filter writes PositionActual and VelocityActual
    only when a GPS sample was received and the cached home location is
    set; it then publishes the [getNED] position and a velocity whose Down
    component is zero.  Otherwise both objects keep their value and the
    cycle publishes the bias and the attitude only. *)
Theorem complementary_gps_passthrough_needs_home :
  forall (fr : bool) (i : Inputs) (s : State),
    gyro_rx i = true -> accel_rx i = true ->
    let s' := fst (updateAttitudeComplimentary fr i s) in
    (gps_rx i && home_Set (homeLocation (cfg s)) = false ->
     PositionActual (pub s') = PositionActual (pub s)
     /\ VelocityActual (pub s') = VelocityActual (pub s)
     /\ set_log (pub s')
        = [OBJ_AttitudeActual; OBJ_GyrosBias] ++ set_log (pub s))
    /\ (gps_rx i && home_Set (homeLocation (cfg s)) = true ->
        PositionActual (pub s')
        = ned_of_vec3 (snd (getNED (cfg s) (GPSPosition i)))
        /\ Down (VelocityActual (pub s')) = F32.zero
        /\ set_log (pub s')
           = [OBJ_VelocityActual; OBJ_PositionActual; OBJ_AttitudeActual;
              OBJ_GyrosBias] ++ set_log (pub s)).
Proof.
  intros fr i s Hg Ha s'. subst s'.
  unfold updateAttitudeComplimentary. rewrite Hg, Ha. cbn [negb].
  destruct (gain_schedule fr i s) as [settings init'].
  cbn [fst pub]. unfold gps_passthrough.
  cbn [set_attitudeSettings homeLocation].
  split; intros H; rewrite H; repeat split; reflexivity.
Qed.

(** *** What each filter leaves alone *)

(** X13. The complementary filter never calls the INS engine and never
    touches the statics of the staged filter, NEDPosition, or the cached
    home location, calibration, algorithm and transform coefficients; the
    staged filter never touches the configuration cache or the statics of
    the complementary filter. *)
Theorem filters_leave_each_other_alone :
  forall (fr od : bool) (i : Inputs) (s : State),
    let sc := fst (updateAttitudeComplimentary fr i s) in
    let si := fst (updateAttitudeINSGPS fr od i s) in
    (ins sc = ins s /\ insst sc = insst s
     /\ NEDPosition (pub sc) = NEDPosition (pub s)
     /\ homeLocation (cfg sc) = homeLocation (cfg s)
     /\ revoCalibration (cfg sc) = revoCalibration (cfg s)
     /\ revoSettings (cfg sc) = revoSettings (cfg s)
     /\ T (cfg sc) = T (cfg s))
    /\ (cfg si = cfg s /\ comp si = comp s).
Proof.
  intros fr od i s sc si. subst sc si. split.
  - unfold updateAttitudeComplimentary.
    destruct (gyro_rx i); [ | repeat split; reflexivity ].
    destruct (accel_rx i); [ | repeat split; reflexivity ].
    cbn [negb]. destruct (gain_schedule fr i s) as [settings init'].
    cbn [fst pub cfg ins insst]. unfold gps_passthrough.
    destruct (gps_rx i && home_Set _); repeat split; reflexivity.
  - unfold updateAttitudeINSGPS.
    destruct (negb (gyro_rx i) || negb (accel_rx i)); [split; reflexivity | ].
    match goal with
    | |- context [if ?c then (_, -1) else _] => destruct c
    end; [split; reflexivity | ].
    destruct (negb (if fr then false else inited (insst s)));
      [split; reflexivity | ].
    unfold ins_running.
    match goal with
    | |- context [if ?c then (INSSetPosVelVar _ _ :: _, NEDPositionSet _ _, _, _)
                  else _] => destruct c
    end; [ | destruct (negb od) ]; split; reflexivity.
Qed.

(** *** The settings callback *)


(** *** More on the coordinate transform *)

Lemma sub_self_is_zero :
  forall a, F32.is_finite a = true -> F32.is_zero (a - a)%f32 = true.
Proof.
  intros [[|] | | | s m e] H; try discriminate; try reflexivity.
  unfold F32.sub, SFsub. cbv zeta.
  rewrite Z.min_id. unfold shl_align. rewrite !Z.sub_diag. reflexivity.
Qed.

Lemma add_zero_r_finite :
  forall a b, F32.is_finite a = true -> F32.is_zero b = true ->
              F32.is_zero a = false -> (a + b)%f32 = a.
Proof.
  intros [sa | | | sa ma ea] [sb | | | ] Ha Hb Hn; try discriminate.
  reflexivity.
Qed.

Lemma mul_finite_zero :
  forall a b, F32.is_finite a = true -> F32.is_zero b = true ->
              F32.is_zero (a * b)%f32 = true.
Proof.
  intros [sa | | | sa ma ea] [sb | | | ] Ha Hb; try discriminate; reflexivity.
Qed.

(** X15. The home location itself maps to the origin: for a fix with the
    home latitude, longitude and altitude and no geoid separation, North,
    East and Down are zero as soon as the two horizontal coefficients are
    finite. *)
Theorem getNED_of_home_is_origin :
  forall (c : Config) (g : GPSPositionData),
    gps_Latitude g = home_Latitude (homeLocation c) ->
    gps_Longitude g = home_Longitude (homeLocation c) ->
    gps_Altitude g = home_Altitude (homeLocation c) ->
    F32.is_zero (gps_GeoidSeparation g) = true ->
    F32.is_finite (home_Altitude (homeLocation c)) = true ->
    F32.is_finite (v0 (T c)) = true ->
    F32.is_finite (v1 (T c)) = true ->
    v2 (T c) = Lit.minus_one ->
    let NED := snd (getNED c g) in
    F32.is_zero (v0 NED) = true
    /\ F32.is_zero (v1 NED) = true
    /\ F32.is_zero (v2 NED) = true.
Proof.
  intros c g Hlat Hlon Halt Hgeo Hfin H0 H1 H2 NED. subst NED.
  unfold getNED. cbn [snd v0 v1 v2].
  rewrite Hlat, Hlon, Halt, H2, !Z.sub_diag.
  change (F32.of_Z (int32_wrap 0) / Lit.c1e7 * Lit.DEG2RAD)%f32
    with (S754_zero false).
  split; [apply mul_finite_zero; [exact H0 | reflexivity] | ].
  split; [apply mul_finite_zero; [exact H1 | reflexivity] | ].
  set (a := home_Altitude (homeLocation c)) in *.
  assert (D : F32.is_zero (a + gps_GeoidSeparation g - a)%f32 = true).
  { destruct (F32.is_zero a) eqn:Z.
    - destruct a as [[|] | | | ]; try discriminate;
        destruct (gps_GeoidSeparation g) as [[|] | | | ]; try discriminate;
        reflexivity.
    - rewrite (add_zero_r_finite a _ Hfin Hgeo Z).
      apply sub_self_is_zero. exact Hfin. }
  destruct (a + gps_GeoidSeparation g - a)%f32; try discriminate.
  reflexivity.
Qed.

(** Signs of products and quotients. *)
Lemma mul_sign :
  forall a b sa sb, sign_is sa a -> sign_is sb b ->
                    sign_is (xorb sa sb) (a * b)%f32.
Proof.
  intros [s1 | s1 | | s1 m1 e1] [s2 | s2 | | s2 m2 e2] sa sb Ha Hb;
    cbn in Ha, Hb; subst; try exact I; try reflexivity.
  apply binary_round_aux_sign.
Qed.

Lemma div_sign :
  forall a b sa sb, sign_is sa a -> sign_is sb b ->
                    sign_is (xorb sa sb) (a / b)%f32.
Proof.
  intros [s1 | s1 | | s1 m1 e1] [s2 | s2 | | s2 m2 e2] sa sb Ha Hb;
    cbn in Ha, Hb; subst; try exact I; try reflexivity.
  unfold F32.div, SFdiv.
  destruct (SFdiv_core_binary F32.prec F32.emax (Z.pos m1) e1 (Z.pos m2) e2)
    as [[mz ez] lz].
  apply binary_round_aux_sign.
Qed.

Lemma of_Z_sign :
  forall n, sign_is (n <? 0) (F32.of_Z n).
Proof.
  intros [ | p | p]; try reflexivity;
    unfold F32.of_Z, binary_normalize, binary_round;
    destruct (shl_align _ _ _) as [mz ez];
    apply binary_round_aux_sign.
Qed.

Lemma positive_sign : forall a, (F32.zero <? a)%f32 = true -> sign_is false a.
Proof.
  intros [s | [|] | | [|] m e] H; try discriminate; reflexivity.
Qed.

Lemma sign_true_not_positive :
  forall a, sign_is true a -> (F32.zero <? a)%f32 = false.
Proof.
  intros [s | s | | s m e] H; cbn in H; subst; reflexivity.
Qed.

(** X16. With a positive North coefficient, North follows the latitude
    difference: it is never negative for a fix north of home and never
    positive for a fix south of it (differences within an int32). *)
Theorem getNED_north_has_the_sign_of_the_latitude_difference :
  forall (c : Config) (g : GPSPositionData),
    (F32.zero <? v0 (T c))%f32 = true ->
    let d := gps_Latitude g - home_Latitude (homeLocation c) in
    - 2 ^ 31 <= d < 2 ^ 31 ->
    let north := v0 (snd (getNED c g)) in
    (0 <= d -> (north <? F32.zero)%f32 = false)
    /\ (d < 0 -> (F32.zero <? north)%f32 = false).
Proof.
  intros c g HT d Hd north. subst north. unfold getNED. cbn [snd v0].
  fold d. rewrite (int32_wrap_small d Hd).
  assert (S : sign_is (d <? 0)
                (v0 (T c) * (F32.of_Z d / Lit.c1e7 * Lit.DEG2RAD))%f32).
  { replace (d <? 0) with (xorb false (xorb (xorb (d <? 0) false) false))
      by (destruct (d <? 0); reflexivity).
    apply mul_sign; [apply positive_sign; exact HT | ].
    apply mul_sign; [ | vm_compute; reflexivity ].
    apply div_sign; [apply of_Z_sign | vm_compute; reflexivity]. }
  split; intros H.
  - replace (d <? 0) with false in S by (symmetry; apply Z.ltb_ge; exact H).
    apply sign_clear_not_negative. exact S.
  - replace (d <? 0) with true in S by (symmetry; apply Z.ltb_lt; exact H).
    apply sign_true_not_positive. exact S.
Qed.

(** *** The task loop *)

Lemma FusionAlgorithm_eqb_refl : forall a, FusionAlgorithm_eqb a a = true.
Proof. intros [ | | | n]; cbn; try reflexivity. apply Z.eqb_refl. Qed.

Lemma run_AttitudeTask_Complimentary_steady :
  forall (inps : list Inputs) (s : State),
    revoSettings (cfg s) = FUSIONALGORITHM_COMPLIMENTARY ->
    snd (run_AttitudeTask (mkTaskLocals false FUSIONALGORITHM_COMPLIMENTARY)
                          inps s)
    = fst (run_Complimentary (map (pair false) inps) s).
Proof.
  induction inps as [ | i rest IH]; intros s H; [reflexivity | ].
  cbn [run_AttitudeTask map run_Complimentary fst snd].
  unfold AttitudeTask_iteration at 1 2. rewrite H. cbn [fst snd last_algorithm
    first_run FusionAlgorithm_eqb negb].
  apply IH.
  destruct (filters_leave_each_other_alone false false i s)
    as [[_ [_ [_ [_ [_ [R _]]]]]] _].
  cbv zeta in R. rewrite R. exact H.
Qed.

(** X17. With the complementary algorithm configured, the task loop started
    from its initial locals is a run of the complementary filter in which
    [first_run] is true in the first iteration and false in all later
    ones. *)
Theorem AttitudeTask_runs_first_cycle_with_first_run :
  forall (i : Inputs) (rest : list Inputs) (s : State),
    revoSettings (cfg s) = FUSIONALGORITHM_COMPLIMENTARY ->
    snd (run_AttitudeTask task_start (i :: rest) s)
    = fst (run_Complimentary ((true, i) :: map (pair false) rest) s).
Proof.
  intros i rest s H.
  cbn [run_AttitudeTask run_Complimentary fst snd].
  unfold AttitudeTask_iteration at 1 2. rewrite H.
  cbn [fst snd task_start last_algorithm first_run FusionAlgorithm_eqb negb].
  apply run_AttitudeTask_Complimentary_steady.
  destruct (filters_leave_each_other_alone true false i s)
    as [[_ [_ [_ [_ [_ [R _]]]]]] _].
  cbv zeta in R. rewrite R. exact H.
Qed.

(** *** The sign of the published quaternion *)

(** X18. Over any run of complementary cycles, with or without timeouts,
    the published scalar part of the quaternion stays not negative once it
    is so: a completed cycle publishes a sign-normalised quaternion and a
    timed-out cycle publishes nothing. *)
Theorem complementary_runs_keep_q0_not_negative :
  forall (cs : list (bool * Inputs)) (s : State),
    not_negative (q1 (AttitudeActual (pub s))) ->
    not_negative
      (q1 (AttitudeActual (pub (fst (run_Complimentary cs s))))).
Proof.
  induction cs as [ | [fr i] rest IH]; intros s H; [exact H | ].
  cbn [run_Complimentary fst]. apply IH.
  destruct (gyro_rx i && accel_rx i) eqn:E.
  - apply andb_prop in E. destruct E as [Hg Ha].
    apply published_q0_never_negative; assumption.
  - rewrite (complementary_timeout_state fr i s E). exact H.
Qed.

End Further.

(** ** The viewer *)

(** *** QMap *)

Lemma QMap_find_set :
  forall (V : Type) (k k' : Z) (v : V) (m : QMap.t V),
    QMap.find k' (QMap.set k v m) = if k =? k' then Some v else QMap.find k' m.
Proof.
  intros V k k' v m. induction m as [ | [j w] r IH]; cbn.
  - reflexivity.
  - destruct (j =? k) eqn:E; cbn.
    + apply Z.eqb_eq in E. subst j.
      destruct (k =? k'); reflexivity.
    + destruct (j =? k') eqn:E'.
      * apply Z.eqb_eq in E'. subst j. rewrite Z.eqb_sym, E. reflexivity.
      * exact IH.
Qed.

Lemma QMap_last_key_set :
  forall (V : Type) (k : Z) (v : V) (m : QMap.t V),
    QMap.last_key (QMap.set k v m)
    = Some (match QMap.last_key m with None => k | Some j => Z.max k j end).
Proof.
  intros V k v m. induction m as [ | [j w] r IH]; cbn.
  - reflexivity.
  - destruct (j =? k) eqn:E; cbn.
    + apply Z.eqb_eq in E. subst j.
      destruct (QMap.last_key r); f_equal; lia.
    + rewrite IH. destruct (QMap.last_key r); f_equal; lia.
Qed.

Lemma QMap_find_le_last_key :
  forall (V : Type) (k : Z) (v : V) (m : QMap.t V),
    QMap.find k m = Some v ->
    exists j, QMap.last_key m = Some j /\ k <= j.
Proof.
  intros V k v m. induction m as [ | [j w] r IH]; cbn; [discriminate | ].
  destruct (j =? k) eqn:E.
  - intros _. apply Z.eqb_eq in E. subst j.
    destruct (QMap.last_key r); eexists; split; try reflexivity; lia.
  - intros H. destruct (IH H) as [j' [L Hle]]. rewrite L.
    eexists; split; [reflexivity | lia].
Qed.

Lemma QMap_set_not_nil :
  forall (V : Type) (k : Z) (v : V) (m : QMap.t V), QMap.set k v m <> [].
Proof.
  intros V k v [ | [j w] r]; cbn; [discriminate | ].
  destruct (j =? k); discriminate.
Qed.

Lemma QMap_last_key_not_nil :
  forall (V : Type) (m : QMap.t V), m <> [] -> QMap.last_key m <> None.
Proof.
  intros V [ | [j w] r] H; [contradiction | ].
  cbn. destruct (QMap.last_key r); discriminate.
Qed.

Lemma mosaic_wf_set :
  forall k inner m, inner <> [] -> mosaic_wf m -> mosaic_wf (QMap.set k inner m).
Proof.
  intros k inner m Hn H. induction H as [ | [j w] r Hj Hr IH]; cbn.
  - constructor; [exact Hn | constructor].
  - destruct (j =? k); constructor; auto.
Qed.

Lemma mosaic_assign_spec :
  forall row col x m,
    mosaic_assign row col x m
    = QMap.set row
        (QMap.set col x
           (match QMap.find row m with Some inner => inner | None => [] end))
        (match QMap.find row m with Some _ => m | None => QMap.set row [] m end).
Proof.
  intros row col x m. unfold mosaic_assign, QMap.index, QMap.t in *.
  destruct (QMap.find row m); reflexivity.
Qed.

Lemma QMap_set_set :
  forall (V : Type) (k : Z) (v w : V) (m : QMap.t V),
    QMap.set k v (QMap.set k w m) = QMap.set k v m.
Proof.
  intros V k v w m. induction m as [ | [j u] r IH]; cbn.
  - rewrite Z.eqb_refl. reflexivity.
  - destruct (j =? k) eqn:E; cbn.
    + rewrite Z.eqb_refl. reflexivity.
    + rewrite E, IH. reflexivity.
Qed.

(** Assigning a cell is one update of the column map, inserted if absent. *)
Lemma mosaic_assign_set :
  forall row col x m,
    mosaic_assign row col x m
    = QMap.set row
        (QMap.set col x
           (match QMap.find row m with Some inner => inner | None => [] end)) m.
Proof.
  intros row col x m. rewrite mosaic_assign_spec.
  destruct (QMap.find row m); [reflexivity | apply QMap_set_set].
Qed.

(** Reading a cell inserts it when absent and returns its content. *)
Lemma mosaic_index_spec :
  forall row col m,
    mosaic_index row col m
    = (cell_of row col m,
       match QMap.find row m with
       | Some inner =>
           match QMap.find col inner with
           | Some _ => QMap.set row inner m
           | None => QMap.set row (QMap.set col None inner) m
           end
       | None => QMap.set row (QMap.set col None []) m
       end).
Proof.
  intros row col m. unfold mosaic_index, QMap.index, cell_of, QMap.t in *.
  destruct (QMap.find row m) as [inner | ].
  - destruct (QMap.find col inner); reflexivity.
  - cbn. rewrite QMap_set_set. reflexivity.
Qed.

Lemma cell_of_set :
  forall row col row' col' x inner m,
    QMap.find row m = Some inner \/ (QMap.find row m = None /\ inner = []) ->
    cell_of row' col' (QMap.set row (QMap.set col x inner) m)
    = if (row =? row') && (col =? col') then x else cell_of row' col' m.
Proof.
  intros row col row' col' x inner m H. unfold cell_of, QMap.t in *.
  rewrite QMap_find_set.
  destruct (row =? row') eqn:E; cbn [andb]; [ | reflexivity ].
  apply Z.eqb_eq in E. subst row'.
  rewrite QMap_find_set.
  destruct (col =? col'); [reflexivity | ].
  destruct H as [H | [H ->]]; rewrite H; reflexivity.
Qed.

Lemma QMap_set_same :
  forall (V : Type) (k : Z) (v : V) (m : QMap.t V),
    QMap.find k m = Some v -> QMap.set k v m = m.
Proof.
  intros V k v m. induction m as [ | [j u] r IH]; cbn; [discriminate | ].
  destruct (j =? k) eqn:E.
  - intros H. injection H as ->. apply Z.eqb_eq in E. subst j. reflexivity.
  - intros H. rewrite (IH H). reflexivity.
Qed.

(** *** Scene *)

Lemma existsb_item_In :
  forall (x : item) (l : list item), existsb (item_eqb x) l = true <-> In x l.
Proof.
  intros x l. rewrite existsb_exists. split.
  - intros [y [Hy E]]. apply Pos.eqb_eq in E. subst y. exact Hy.
  - intros H. exists x. split; [exact H | apply Pos.eqb_refl].
Qed.

Lemma In_scene_add :
  forall (x y : item) (l : list item),
    In x (scene_add y l) <-> x = y \/ In x l.
Proof.
  intros x y l. unfold scene_add.
  destruct (existsb (item_eqb y) l) eqn:E.
  - apply existsb_item_In in E. split; [auto | ].
    intros [-> | H]; assumption.
  - cbn. split; intros [H | H]; auto.
Qed.

Lemma In_scene_remove :
  forall (x y : item) (l : list item),
    In x (scene_remove y l) <-> In x l /\ x <> y.
Proof.
  intros x y l. unfold scene_remove. rewrite filter_In.
  unfold item_eqb. split; intros [H1 H2]; split; auto.
  - intros ->. rewrite Pos.eqb_refl in H2. discriminate.
  - apply negb_true_iff. apply Pos.eqb_neq. auto.
Qed.

(** *** setImageView *)

Section ViewerFacts.

Variable boundingRect : item -> Z * Z.

Lemma mosaic_assign_after_index :
  forall row col x m,
    mosaic_assign row col x (snd (mosaic_index row col m))
    = mosaic_assign row col x m.
Proof.
  intros row col x m. rewrite mosaic_index_spec. cbn [snd].
  rewrite !mosaic_assign_set. unfold QMap.t in *.
  destruct (QMap.find row m) as [inner | ] eqn:E.
  - destruct (QMap.find col inner) eqn:E'.
    + rewrite QMap_find_set, Z.eqb_refl, QMap_set_set. reflexivity.
    + rewrite QMap_find_set, Z.eqb_refl, !QMap_set_set. reflexivity.
  - rewrite QMap_find_set, Z.eqb_refl, !QMap_set_set. reflexivity.
Qed.

Lemma mosaic_index_empty_cell :
  forall row col m,
    cell_of row col m = None ->
    snd (mosaic_index row col m) = mosaic_assign row col None m.
Proof.
  intros row col m H. rewrite mosaic_index_spec, mosaic_assign_set. cbn [snd].
  unfold cell_of, QMap.t in *.
  destruct (QMap.find row m) as [inner | ] eqn:E; [ | reflexivity ].
  destruct (QMap.find col inner) as [c | ] eqn:E'; [ | reflexivity ].
  subst c. rewrite (QMap_set_same _ col None inner E'). reflexivity.
Qed.

(** The mosaic after [setImageView]: untouched when the item is already in
    the scene, otherwise the cell is assigned. *)
Lemma setImageView_mosaic :
  forall ii row col v,
    m_imageMosaic (setImageView boundingRect ii row col v)
    = if rejected ii v then m_imageMosaic v
      else mosaic_assign row col ii (m_imageMosaic v).
Proof.
  intros [i | ] row col v; unfold setImageView, rejected.
  - destruct (existsb (item_eqb i) (scene_items v)); [reflexivity | ].
    pose proof (mosaic_assign_after_index row col (Some i) (m_imageMosaic v)) as A.
    destruct (mosaic_index row col (m_imageMosaic v)) as [cell m1].
    cbn [snd] in A.
    destruct cell;
      destruct ((m_mosaicWidth v =? 0) && (m_mosaicHeight v =? 0));
      cbn [m_imageMosaic]; exact A.
  - pose proof (mosaic_assign_after_index row col None (m_imageMosaic v)) as A.
    pose proof (mosaic_index_empty_cell row col (m_imageMosaic v)) as B.
    rewrite mosaic_index_spec in A, B |- *. cbn [snd] in A, B.
    destruct (cell_of row col (m_imageMosaic v)); cbn [m_imageMosaic].
    + exact A.
    + apply B. reflexivity.
Qed.

Lemma setImageView_scene :
  forall ii row col v,
    scene_items (setImageView boundingRect ii row col v)
    = if rejected ii v then scene_items v
      else
        let s1 := match ii with
                  | Some i => scene_add i (scene_items v)
                  | None => scene_items v
                  end in
        match cell_of row col (m_imageMosaic v) with
        | Some old => scene_remove old s1
        | None => s1
        end.
Proof.
  intros [i | ] row col v; unfold setImageView, rejected.
  - destruct (existsb (item_eqb i) (scene_items v)); [reflexivity | ].
    rewrite mosaic_index_spec.
    destruct (cell_of row col (m_imageMosaic v));
      destruct ((m_mosaicWidth v =? 0) && (m_mosaicHeight v =? 0));
      reflexivity.
  - rewrite mosaic_index_spec.
    destruct (cell_of row col (m_imageMosaic v)); reflexivity.
Qed.

Lemma cell_of_assign :
  forall row col row' col' x m,
    cell_of row' col' (mosaic_assign row col x m)
    = if (row =? row') && (col =? col') then x else cell_of row' col' m.
Proof.
  intros row col row' col' x m. rewrite mosaic_assign_set.
  apply cell_of_set. unfold QMap.t in *.
  destruct (QMap.find row m); [left; reflexivity | right; split; reflexivity].
Qed.

Lemma cell_is_cell_of :
  forall row col v, cell row col v = cell_of row col (m_imageMosaic v).
Proof. reflexivity. Qed.

Lemma setImageView_keeps_cells_in_scene :
  forall ii row col v,
    cells_in_scene v ->
    cells_in_scene (setImageView boundingRect ii row col v).
Proof.
  intros ii row col v Inv.
  destruct (rejected ii v) eqn:R.
  { assert (E : setImageView boundingRect ii row col v = v).
    { destruct ii as [i | ]; [ | discriminate ].
      unfold setImageView. cbn in R. rewrite R. reflexivity. }
    rewrite E. exact Inv. }
  intros r c j Hj.
  rewrite cell_is_cell_of, setImageView_mosaic, R, cell_of_assign in Hj.
  rewrite setImageView_scene, R. cbv zeta.
  assert (Fresh : forall i, ii = Some i -> ~ In i (scene_items v)).
  { intros i -> H. apply existsb_item_In in H. cbn in R. congruence. }
  assert (Old : forall old, cell_of row col (m_imageMosaic v) = Some old ->
                            forall r' c', cell_of r' c' (m_imageMosaic v) = Some old ->
                                          r' = row /\ c' = col).
  { intros old Ho r' c' H'. exact (proj2 (Inv row col old Ho) r' c' H'). }
  destruct ((row =? r) && (col =? c)) eqn:Here.
  - (* the assigned cell *)
    apply andb_prop in Here. destruct Here as [Hr Hc].
    apply Z.eqb_eq in Hr, Hc. subst r c ii.
    split.
    + destruct (cell_of row col (m_imageMosaic v)) as [old | ] eqn:Ho.
      * apply In_scene_remove. split; [apply In_scene_add; left; reflexivity | ].
        intros ->. apply (Fresh old eq_refl).
        exact (proj1 (Inv row col old Ho)).
      * apply In_scene_add. left. reflexivity.
    + intros r' c' H'.
      rewrite cell_is_cell_of, setImageView_mosaic, R, cell_of_assign in H'.
      destruct ((row =? r') && (col =? c')) eqn:There.
      * apply andb_prop in There. destruct There as [A B].
        apply Z.eqb_eq in A, B. auto.
      * exfalso. apply (Fresh j eq_refl).
        exact (proj1 (Inv r' c' j H')).
  - (* another cell *)
    destruct (Inv r c j Hj) as [Hin Hinj].
    assert (Hne : forall i, ii = Some i -> j <> i).
    { intros i E ->. exact (Fresh i E Hin). }
    split.
    + destruct (cell_of row col (m_imageMosaic v)) as [old | ] eqn:Ho.
      * apply In_scene_remove. split.
        -- destruct ii; [apply In_scene_add; right | ]; exact Hin.
        -- intros ->. destruct (Old old eq_refl r c Hj) as [A B]. subst.
           rewrite !Z.eqb_refl in Here. discriminate.
      * destruct ii; [apply In_scene_add; right | ]; exact Hin.
    + intros r' c' H'.
      rewrite cell_is_cell_of, setImageView_mosaic, R, cell_of_assign in H'.
      destruct ((row =? r') && (col =? c')) eqn:There.
      * exfalso. exact (Hne j H' eq_refl).
      * exact (Hinj r' c' H').
Qed.

Lemma apply_op_keeps_cells_in_scene :
  forall o v, cells_in_scene v -> cells_in_scene (apply_op boundingRect o v).
Proof.
  intros [ii row col | si | w h] v Inv; cbn [apply_op].
  - apply setImageView_keeps_cells_in_scene. exact Inv.
  - intros r c j Hj. destruct (Inv r c j Hj) as [A B].
    split; [cbn; apply In_scene_add; right; exact A | exact B].
  - exact Inv.
Qed.

(** X19. On every viewer reached from a new one, an image view held by a
    cell of the mosaic is an item of the scene, and no image view is held by
    two cells. *)
Theorem mosaic_cells_hold_distinct_scene_items :
  forall (ops : list viewer_op) (w h : Z) (items : list item),
    cells_in_scene (run_ops boundingRect ops (Viewer_new w h items)).
Proof.
  intros ops w h items. unfold run_ops.
  assert (I0 : cells_in_scene (Viewer_new w h items))
    by (intros r c i H; discriminate H).
  revert I0. generalize (Viewer_new w h items).
  induction ops as [ | o ops IH]; intros v Inv; [exact Inv | ].
  cbn [fold_left]. apply IH. apply apply_op_keeps_cells_in_scene. exact Inv.
Qed.

End ViewerFacts.

(** *** rows and cols *)

Lemma QMap_find_In :
  forall (V : Type) (k : Z) (v : V) (m : QMap.t V),
    QMap.find k m = Some v -> In (k, v) m.
Proof.
  intros V k v m. induction m as [ | [j w] r IH]; cbn; [discriminate | ].
  destruct (j =? k) eqn:E.
  - intros H. injection H as ->. apply Z.eqb_eq in E. subst j. left. reflexivity.
  - intros H. right. exact (IH H).
Qed.

Lemma QMap_In_set :
  forall (V : Type) (k k' : Z) (v v' : V) (m : QMap.t V),
    In (k', v') (QMap.set k v m) -> (k' = k /\ v' = v) \/ In (k', v') m.
Proof.
  intros V k k' v v' m. induction m as [ | [j w] r IH]; cbn.
  - intros [H | []]. injection H as <- <-. left. split; reflexivity.
  - destruct (j =? k); cbn.
    + intros [H | H]; [injection H as <- <-; left; split; reflexivity | right; right; exact H].
    + intros [H | H]; [right; left; exact H | ].
      destruct (IH H) as [A | A]; [left; exact A | right; right; exact A].
Qed.

Lemma QMap_set_In :
  forall (V : Type) (k : Z) (v : V) (m : QMap.t V), In (k, v) (QMap.set k v m).
Proof.
  intros V k v m. induction m as [ | [j w] r IH]; cbn.
  - left. reflexivity.
  - destruct (j =? k); [left; reflexivity | right; exact IH].
Qed.

(** An entry survives an assignment unless it is the one assigned to. *)
Lemma QMap_In_kept :
  forall (V : Type) (k k' : Z) (v v' : V) (m : QMap.t V),
    In (k', v') m ->
    In (k', v') (QMap.set k v m) \/ (k' = k /\ QMap.find k m = Some v').
Proof.
  intros V k k' v v' m. induction m as [ | [j w] r IH]; cbn; [intros [] | ].
  destruct (j =? k) eqn:E.
  - intros [H | H].
    + injection H as -> ->. apply Z.eqb_eq in E. right. split; [exact E | reflexivity].
    + left. right. exact H.
  - intros [H | H].
    + left. left. exact H.
    + destruct (IH H) as [A | A]; [left; right; exact A | right; exact A].
Qed.

Lemma QMap_last_key_spec :
  forall (V : Type) (m : QMap.t V) (j : Z),
    QMap.last_key m = Some j ->
    (exists v, In (j, v) m) /\ forall k v, In (k, v) m -> k <= j.
Proof.
  intros V m. induction m as [ | [k w] r IH]; cbn; [discriminate | ].
  intros j. destruct (QMap.last_key r) as [j' | ] eqn:L.
  - intros H. injection H as <-. destruct (IH j' eq_refl) as [[v Hv] Hmax].
    split.
    + destruct (Z.max_spec k j') as [[_ ->] | [_ ->]];
        [exists v; right; exact Hv | exists w; left; reflexivity].
    + intros k' v' [H | H].
      * injection H as <- <-. lia.
      * specialize (Hmax k' v' H). lia.
  - intros H. injection H as <-. split; [exists w; left; reflexivity | ].
    intros k' v' [H | H]; [injection H as <- <-; lia | ].
    destruct r as [ | [a b] r']; [destruct H | ].
    cbn in L. destruct (QMap.last_key r'); discriminate.
Qed.

Lemma rows_loop_spec :
  forall m a,
    mosaic_wf m ->
    exists R,
      rows_loop m a = Some R
      /\ a <= R
      /\ (forall k inner j, In (k, inner) m -> QMap.last_key inner = Some j -> j <= R)
      /\ (R = a \/ exists k inner, In (k, inner) m /\ QMap.last_key inner = Some R).
Proof.
  intros m a H. revert a. induction H as [ | [k inner] r Hk Hr IH]; intros a.
  - exists a. cbn. split; [reflexivity | ]. split; [lia | ].
    split; [intros k inner j [] | left; reflexivity].
  - cbn [rows_loop]. cbn [snd] in Hk.
    destruct (QMap.last_key inner) as [j | ] eqn:L;
      [ | exfalso; exact (QMap_last_key_not_nil _ inner Hk L) ].
    destruct (IH (if a <? j then j else a)) as [R [E [Hle [Hub Hwit]]]].
    exists R. split; [exact E | ].
    assert (Ha : a <= R /\ j <= R) by (destruct (Z.ltb_spec a j); lia).
    split; [lia | ]. split.
    + intros k' inner' j' [Hin | Hin] L'.
      * injection Hin as <- <-. rewrite L in L'. injection L' as <-. lia.
      * exact (Hub k' inner' j' Hin L').
    + destruct Hwit as [-> | [k' [inner' [Hin L']]]].
      * destruct (Z.ltb_spec a j).
        -- right. exists k, inner. split; [left; reflexivity | exact L].
        -- left. reflexivity.
      * right. exists k', inner'. split; [right; exact Hin | exact L'].
Qed.

Lemma mosaic_wf_assign :
  forall row col x m, mosaic_wf m -> mosaic_wf (mosaic_assign row col x m).
Proof.
  intros row col x m H. rewrite mosaic_assign_set.
  apply mosaic_wf_set; [apply QMap_set_not_nil | exact H].
Qed.

Lemma mosaic_in_range_assign :
  forall row col x m,
    index_in_range row -> index_in_range col ->
    mosaic_in_range m -> mosaic_in_range (mosaic_assign row col x m).
Proof.
  intros row col x m Hr Hc H k inner Hin. rewrite mosaic_assign_set in Hin.
  apply QMap_In_set in Hin. destruct Hin as [[-> ->] | Hin]; [ | exact (H k inner Hin)].
  split; [exact Hr | ].
  intros j c Hj. apply QMap_In_set in Hj. destruct Hj as [[-> _] | Hj]; [exact Hc | ].
  unfold QMap.t in *.
  destruct (QMap.find row m) as [inner0 | ] eqn:E; [ | destruct Hj].
  apply QMap_find_In in E. exact (proj2 (H row inner0 E) j c Hj).
Qed.

(** The value of [cols] on a mosaic with indices in range. *)
Lemma cols_value :
  forall v,
    mosaic_in_range (m_imageMosaic v) ->
    m_imageMosaic v <> [] ->
    exists K, QMap.last_key (m_imageMosaic v) = Some K /\ cols v = Some (K + 1).
Proof.
  intros v Hr Hn. unfold cols, QMap.size.
  destruct (m_imageMosaic v) as [ | e r] eqn:E; [contradiction | ].
  cbn [length]. destruct (Z.eqb_spec (Z.of_nat (S (length r))) 0) as [H | _]; [lia | ].
  destruct (QMap.last_key (e :: r)) as [K | ] eqn:L;
    [ | exfalso; revert L; apply QMap_last_key_not_nil; discriminate ].
  exists K. split; [reflexivity | ].
  destruct (QMap_last_key_spec _ _ _ L) as [[w Hw] _].
  destruct (Hr K w Hw) as [HK _]. unfold index_in_range in HK.
  rewrite int32_wrap_small by lia. reflexivity.
Qed.

(** The value of [rows] on a mosaic with indices in range. *)
Lemma rows_value :
  forall v,
    mosaic_wf (m_imageMosaic v) ->
    mosaic_in_range (m_imageMosaic v) ->
    m_imageMosaic v <> [] ->
    exists R, rows_loop (m_imageMosaic v) 0 = Some R /\ rows v = Some (R + 1)
              /\ 0 <= R.
Proof.
  intros v Hwf Hr Hn. unfold rows, QMap.size.
  destruct (m_imageMosaic v) as [ | e r] eqn:E; [contradiction | ].
  cbn [length]. destruct (Z.eqb_spec (Z.of_nat (S (length r))) 0) as [H | _]; [lia | ].
  destruct (rows_loop_spec (e :: r) 0 Hwf) as [R [ER [Hle [_ Hwit]]]].
  exists R. rewrite ER. split; [reflexivity | ]. split; [ | exact Hle].
  assert (HR : index_in_range R).
  { destruct Hwit as [-> | [k [inner [Hin L]]]]; [unfold index_in_range; lia | ].
    destruct (QMap_last_key_spec _ _ _ L) as [[c Hc] _].
    exact (proj2 (Hr k inner Hin) R c Hc). }
  unfold index_in_range in HR. rewrite int32_wrap_small by lia. reflexivity.
Qed.

Section ViewerCounts.

Variable boundingRect : item -> Z * Z.

Lemma setImageView_rejected :
  forall ii row col v,
    rejected ii v = true -> setImageView boundingRect ii row col v = v.
Proof.
  intros [i | ] row col v R; [ | discriminate ].
  unfold setImageView. cbn in R. rewrite R. reflexivity.
Qed.

Lemma apply_op_mosaic :
  forall o v,
    m_imageMosaic (apply_op boundingRect o v)
    = match o with
      | OpSetImageView ii row col =>
          if rejected ii v then m_imageMosaic v
          else mosaic_assign row col ii (m_imageMosaic v)
      | _ => m_imageMosaic v
      end.
Proof.
  intros [ii row col | si | w h] v; cbn [apply_op];
    [apply setImageView_mosaic | reflexivity | reflexivity].
Qed.

Lemma apply_op_keeps_mosaic_inv :
  forall o v, op_in_range o -> mosaic_inv v -> mosaic_inv (apply_op boundingRect o v).
Proof.
  intros o v Ho [Hwf Hr]. unfold mosaic_inv. rewrite apply_op_mosaic.
  destruct o as [ii row col | si | w h]; try (split; assumption).
  destruct (rejected ii v); [split; assumption | ].
  destruct Ho as [H1 H2]. split.
  - apply mosaic_wf_assign. exact Hwf.
  - apply mosaic_in_range_assign; assumption.
Qed.

Lemma run_ops_mosaic_inv :
  forall ops v,
    Forall op_in_range ops -> mosaic_inv v -> mosaic_inv (run_ops boundingRect ops v).
Proof.
  intros ops v H. revert v. unfold run_ops.
  induction H as [ | o ops Ho Hops IH]; intros v Inv; [exact Inv | ].
  cbn [fold_left]. apply IH. apply apply_op_keeps_mosaic_inv; assumption.
Qed.

Lemma Viewer_new_mosaic_inv :
  forall w h items, mosaic_inv (Viewer_new w h items).
Proof.
  intros w h items. split; [constructor | intros k inner []].
Qed.

Lemma mosaic_nil_or_not :
  forall v, m_imageMosaic v = [] \/ m_imageMosaic v <> [].
Proof.
  intros v. destruct (m_imageMosaic v); [left; reflexivity | right; discriminate].
Qed.

Lemma rows_cols_of_empty :
  forall v, m_imageMosaic v = [] -> rows v = Some 0 /\ cols v = Some 0.
Proof.
  intros v E. unfold rows, cols. rewrite E. split; reflexivity.
Qed.

Lemma rows_cols_defined :
  forall v,
    mosaic_inv v ->
    exists r c, rows v = Some r /\ cols v = Some c /\ 0 <= r.
Proof.
  intros v [Hwf Hr].
  destruct (mosaic_nil_or_not v) as [E | Hn].
  - destruct (rows_cols_of_empty v E) as [A B].
    exists 0, 0. split; [exact A | ]. split; [exact B | lia].
  - destruct (rows_value v Hwf Hr Hn) as [R [_ [ER HR]]].
    destruct (cols_value v Hr Hn) as [K [_ EK]].
    exists (R + 1), (K + 1). split; [exact ER | ]. split; [exact EK | lia].
Qed.

Lemma setImageView_counts :
  forall ii row col v,
    mosaic_inv v ->
    index_in_range row -> index_in_range col ->
    rejected ii v = false ->
    exists r c,
      rows (setImageView boundingRect ii row col v) = Some r
      /\ cols (setImageView boundingRect ii row col v) = Some c
      /\ row < c /\ col < r.
Proof.
  intros ii row col v Inv Hrow Hcol Rj.
  pose proof (apply_op_keeps_mosaic_inv (OpSetImageView ii row col) v
                (conj Hrow Hcol) Inv) as [Hwf Hr].
  cbn [apply_op] in Hwf, Hr.
  pose proof (setImageView_mosaic boundingRect ii row col v) as M.
  rewrite Rj, mosaic_assign_set in M.
  set (v' := setImageView boundingRect ii row col v) in *.
  assert (Hn : m_imageMosaic v' <> []) by (rewrite M; apply QMap_set_not_nil).
  destruct (rows_value v' Hwf Hr Hn) as [R [EL [ER HR]]].
  destruct (cols_value v' Hr Hn) as [K [LK EK]].
  exists (R + 1), (K + 1). split; [exact ER | ]. split; [exact EK | ].
  split.
  - destruct (QMap_last_key_spec _ _ _ LK) as [_ Hmax].
    rewrite M in Hmax. specialize (Hmax row _ (QMap_set_In _ row _ _)). lia.
  - destruct (rows_loop_spec (m_imageMosaic v') 0 Hwf) as [R' [E' [_ [Hub _]]]].
    rewrite EL in E'. injection E' as <-.
    rewrite M in Hub.
    pose proof (Hub row _ _ (QMap_set_In _ row _ _)
                  (QMap_last_key_set _ col ii _)) as B.
    destruct (QMap.last_key _) in B; lia.
Qed.

(** A cell assignment makes no column map shorter. *)
Lemma assign_keeps_last_keys :
  forall row col x m k inner j,
    In (k, inner) m -> QMap.last_key inner = Some j ->
    exists inner' j',
      In (k, inner') (mosaic_assign row col x m)
      /\ QMap.last_key inner' = Some j' /\ j <= j'.
Proof.
  intros row col x m k inner j Hin L. rewrite mosaic_assign_set.
  destruct (QMap_In_kept _ row k
              (QMap.set col x
                 match QMap.find row m with Some i => i | None => [] end)
              inner m Hin) as [A | [-> A]].
  - exists inner, j. split; [exact A | ]. split; [exact L | lia].
  - unfold QMap.t in *. rewrite A.
    eexists. eexists. split; [apply QMap_set_In | ].
    split; [apply QMap_last_key_set | ]. rewrite L. lia.
Qed.

Lemma apply_op_counts_grow :
  forall o v r c r' c',
    mosaic_inv v -> op_in_range o -> first_index_not_negative o ->
    rows v = Some r -> cols v = Some c ->
    rows (apply_op boundingRect o v) = Some r' ->
    cols (apply_op boundingRect o v) = Some c' ->
    r <= r' /\ c <= c'.
Proof.
  intros o v r c r' c' Inv Ho Hpos Er Ec Er' Ec'.
  pose proof (apply_op_keeps_mosaic_inv o v Ho Inv) as Inv'.
  pose proof (apply_op_mosaic o v) as M.
  destruct o as [ii row col | si | w h];
    try (unfold rows, cols in *; rewrite M in Er', Ec';
         rewrite Er in Er'; rewrite Ec in Ec';
         injection Er' as <-; injection Ec' as <-; split; lia).
  destruct (rejected ii v) eqn:Rj.
  { cbn [apply_op] in Er', Ec'. rewrite (setImageView_rejected _ _ _ _ Rj) in Er', Ec'.
    rewrite Er in Er'; rewrite Ec in Ec'.
    injection Er' as <-; injection Ec' as <-; split; lia. }
  set (v' := apply_op boundingRect (OpSetImageView ii row col) v) in *.
  destruct Inv as [Hwf Hr]. destruct Inv' as [Hwf' Hr'].
  cbn in Hpos.
  assert (Hn' : m_imageMosaic v' <> [])
    by (rewrite M, mosaic_assign_set; apply QMap_set_not_nil).
  destruct (rows_value v' Hwf' Hr' Hn') as [R' [EL' [ER' HR']]].
  destruct (cols_value v' Hr' Hn') as [K' [LK' EK']].
  rewrite ER' in Er'. injection Er' as <-.
  rewrite EK' in Ec'. injection Ec' as <-.
  destruct (QMap_last_key_spec _ _ _ LK') as [_ Hmax'].
  destruct (rows_loop_spec (m_imageMosaic v') 0 Hwf') as [R2 [E2 [_ [Hub' _]]]].
  rewrite EL' in E2. injection E2 as <-.
  rewrite M in Hmax', Hub'.
  destruct (mosaic_nil_or_not v) as [E | Hn].
  - destruct (rows_cols_of_empty v E) as [A B].
    rewrite A in Er. rewrite B in Ec. injection Er as <-. injection Ec as <-.
    split; [lia | ].
    rewrite mosaic_assign_set in Hmax'.
    specialize (Hmax' row _ (QMap_set_In _ row _ _)). lia.
  - destruct (rows_value v Hwf Hr Hn) as [R [EL [ER HR]]].
    destruct (cols_value v Hr Hn) as [K [LK EK]].
    rewrite ER in Er. injection Er as <-.
    rewrite EK in Ec. injection Ec as <-.
    split.
    + destruct (rows_loop_spec (m_imageMosaic v) 0 Hwf) as [R2 [E2 [_ [_ Hwit]]]].
      rewrite EL in E2. injection E2 as <-.
      destruct Hwit as [-> | [k [inner [Hin L]]]]; [lia | ].
      destruct (assign_keeps_last_keys row col ii _ k inner R Hin L)
        as [inner' [j' [Hin' [L' Hle]]]].
      specialize (Hub' k inner' j' Hin' L'). lia.
    + destruct (QMap_last_key_spec _ _ _ LK) as [[w Hw] _].
      rewrite mosaic_assign_set in Hmax'.
      destruct (QMap_In_kept _ row K
                  (QMap.set col ii
                     match QMap.find row (m_imageMosaic v) with
                     | Some i => i | None => [] end)
                  w _ Hw) as [A | [-> _]].
      * specialize (Hmax' K w A). lia.
      * specialize (Hmax' row _ (QMap_set_In _ row _ _)). lia.
Qed.

(** X20. After a call of [setImageView] that is not turned away, with an
    image view or with NULL, [cols()] exceeds the first index of the call and
    [rows()] the second, and the cell holds the argument. *)
Theorem image_view_is_counted_by_cols_and_rows :
  forall (ops : list viewer_op) (w h : Z) (items : list item)
         (ii : option item) (row col : Z),
    Forall op_in_range ops ->
    index_in_range row -> index_in_range col ->
    let v := run_ops boundingRect ops (Viewer_new w h items) in
    rejected ii v = false ->
    exists r c,
      rows (setImageView boundingRect ii row col v) = Some r
      /\ cols (setImageView boundingRect ii row col v) = Some c
      /\ row < c /\ col < r
      /\ cell row col (setImageView boundingRect ii row col v) = ii.
Proof.
  intros ops w h items ii row col Hops Hrow Hcol v Rj.
  assert (Inv : mosaic_inv v)
    by (apply run_ops_mosaic_inv; [exact Hops | apply Viewer_new_mosaic_inv]).
  destruct (setImageView_counts ii row col v Inv Hrow Hcol Rj)
    as [r [c [Er [Ec [H1 H2]]]]].
  exists r, c. split; [exact Er | ]. split; [exact Ec | ].
  split; [exact H1 | ]. split; [exact H2 | ].
  rewrite cell_is_cell_of, setImageView_mosaic, Rj, cell_of_assign, !Z.eqb_refl.
  reflexivity.
Qed.

(** X21. On every viewer reached from a new one with indices in range,
    [rows()] and [cols()] return a value, [rows()] is not negative, and a
    further call with a first index that is not negative lowers neither
    count; clearing a cell does not lower them either. *)
Theorem rows_and_cols_are_defined_and_never_shrink :
  forall (ops : list viewer_op) (o : viewer_op) (w h : Z) (items : list item),
    Forall op_in_range ops -> op_in_range o -> first_index_not_negative o ->
    let v := run_ops boundingRect ops (Viewer_new w h items) in
    exists r c r' c',
      rows v = Some r /\ cols v = Some c
      /\ rows (apply_op boundingRect o v) = Some r'
      /\ cols (apply_op boundingRect o v) = Some c'
      /\ 0 <= r <= r' /\ c <= c'.
Proof.
  intros ops o w h items Hops Ho Hpos v.
  assert (Inv : mosaic_inv v)
    by (apply run_ops_mosaic_inv; [exact Hops | apply Viewer_new_mosaic_inv]).
  destruct (rows_cols_defined v Inv) as [r [c [Er [Ec Hr]]]].
  destruct (rows_cols_defined _ (apply_op_keeps_mosaic_inv o v Ho Inv))
    as [r' [c' [Er' [Ec' _]]]].
  destruct (apply_op_counts_grow o v r c r' c' Inv Ho Hpos Er Ec Er' Ec') as [A B].
  exists r, c, r', c'.
  split; [exact Er | ]. split; [exact Ec | ]. split; [exact Er' | ].
  split; [exact Ec' | ]. split; [lia | exact B].
Qed.

(** *** Stacking order *)

Lemma run_ops_app :
  forall ops o v,
    run_ops boundingRect (ops ++ [o]) v
    = apply_op boundingRect o (run_ops boundingRect ops v).
Proof.
  intros ops o v. unfold run_ops. rewrite fold_left_app. reflexivity.
Qed.

Lemma count_shapes_app :
  forall ops o,
    count_shapes (ops ++ [o])
    = (count_shapes ops
       + match o with OpAddShape _ => 1 | _ => 0 end)%nat.
Proof.
  intros ops o. unfold count_shapes. rewrite filter_app, length_app.
  destruct o; reflexivity.
Qed.

Lemma double_succ_min :
  forall n : nat,
    double_succ (Z.min (Z.of_nat n) (2 ^ 53)) = Z.min (Z.of_nat (S n)) (2 ^ 53).
Proof.
  intros n. unfold double_succ.
  destruct (Z.ltb_spec (Z.min (Z.of_nat n) (2 ^ 53)) (2 ^ 53)); lia.
Qed.

Lemma setImageView_keeps_z :
  forall ii row col v,
    m_currentZ (setImageView boundingRect ii row col v) = m_currentZ v
    /\ item_z (setImageView boundingRect ii row col v) = item_z v.
Proof.
  intros [i | ] row col v; unfold setImageView.
  - destruct (existsb (item_eqb i) (scene_items v)); [split; reflexivity | ].
    destruct (mosaic_index row col (m_imageMosaic v)) as [[old | ] m1];
      destruct ((m_mosaicWidth v =? 0) && (m_mosaicHeight v =? 0));
      split; reflexivity.
  - destruct (mosaic_index row col (m_imageMosaic v)) as [[old | ] m1];
      split; reflexivity.
Qed.

(** X22. The z-values given by [addShape], [addLine] and [addPolyLine] count
    the calls from 0 in call order, up to 2^53 where the counter stops;
    [setImageView] and [setWindowSize] do not touch them. *)
Theorem shapes_are_stacked_in_call_order :
  forall (ops : list viewer_op) (w h : Z) (items : list item),
    let v := run_ops boundingRect ops (Viewer_new w h items) in
    let stacked (n : nat) := Z.min (Z.of_nat n) (2 ^ 53) in
    m_currentZ v = stacked (count_shapes ops)
    /\ map snd (item_z v) = map stacked (rev (seq 0 (count_shapes ops))).
Proof.
  intros ops w h items. cbv zeta.
  induction ops as [ | o ops IH] using rev_ind; [split; reflexivity | ].
  rewrite run_ops_app, count_shapes_app.
  destruct IH as [IHz IHl].
  destruct o as [ii row col | si | ww hh]; cbn [apply_op].
  - destruct (setImageView_keeps_z ii row col
                (run_ops boundingRect ops (Viewer_new w h items))) as [A B].
    rewrite A, B, Nat.add_0_r. split; assumption.
  - cbn [addShape m_currentZ item_z map snd].
    rewrite Nat.add_1_r, seq_S, rev_app_distr. cbn [rev app map Nat.add].
    rewrite IHz, IHl, double_succ_min. split; reflexivity.
  - cbn [setWindowSize m_currentZ item_z]. rewrite Nat.add_0_r. split; assumption.
Qed.

(** *** Cell size *)

Lemma window_geometry_no_Resize :
  forall v, existsb is_Resize (window_geometry v) = false.
Proof.
  intros v. unfold window_geometry.
  destruct ((0 <? m_windowHeight v) && (0 <? m_windowWidth v)); reflexivity.
Qed.

Lemma apply_op_keeps_cell_size :
  forall o v,
    m_mosaicWidth v <> 0 \/ m_mosaicHeight v <> 0 ->
    m_mosaicWidth (apply_op boundingRect o v) = m_mosaicWidth v
    /\ m_mosaicHeight (apply_op boundingRect o v) = m_mosaicHeight v
    /\ existsb is_Resize (widget_calls (apply_op boundingRect o v))
       = existsb is_Resize (widget_calls v).
Proof.
  intros [[i | ] row col | si | ww hh] v H; cbn [apply_op]; unfold setImageView.
  - assert (E : (m_mosaicWidth v =? 0) && (m_mosaicHeight v =? 0) = false).
    { apply andb_false_iff.
      destruct H as [H | H]; [left | right]; apply Z.eqb_neq; exact H. }
    rewrite E.
    destruct (existsb (item_eqb i) (scene_items v));
      [split; [reflexivity | split; reflexivity] | ].
    destruct (mosaic_index row col (m_imageMosaic v)) as [[old | ] m1];
      cbn [m_mosaicWidth m_mosaicHeight widget_calls];
      rewrite existsb_app, window_geometry_no_Resize;
      (split; [reflexivity | split; reflexivity]).
  - destruct (mosaic_index row col (m_imageMosaic v)) as [[old | ] m1];
      (split; [reflexivity | split; reflexivity]).
  - split; [reflexivity | split; reflexivity].
  - split; [reflexivity | split; reflexivity].
Qed.

(** X23. A viewer built with a cell size other than 0 by 0 keeps it through
    every call, and is never resized. *)
Theorem given_cell_size_is_kept :
  forall (ops : list viewer_op) (w h : Z) (items : list item),
    w <> 0 \/ h <> 0 ->
    let v := run_ops boundingRect ops (Viewer_new w h items) in
    m_mosaicWidth v = w /\ m_mosaicHeight v = h
    /\ existsb is_Resize (widget_calls v) = false.
Proof.
  intros ops w h items H. cbv zeta.
  induction ops as [ | o ops IH] using rev_ind;
    [split; [reflexivity | split; reflexivity] | ].
  rewrite run_ops_app. destruct IH as [A [B C]].
  destruct (apply_op_keeps_cell_size o
              (run_ops boundingRect ops (Viewer_new w h items))) as [A' [B' C']].
  { rewrite A, B. exact H. }
  rewrite A', B', C'. split; [exact A | ]. split; [exact B | exact C].
Qed.

End ViewerCounts.

(** ** The further properties at concrete inputs *)

Lemma running_cycle_time_step_is_clamped_witness :
  inited (insst initialised_state) = true
  /\ gyro_rx example_inputs = true
  /\ accel_rx example_inputs = true
  /\ exists dT,
       prediction_steps
         (new_calls initialised_state
            (fst (updateAttitudeINSGPS (ext := example_externals)
                    false true example_inputs initialised_state)))
       = [dT; dT]
       /\ dT_in_range dT = true.
Proof.
  split; [reflexivity | split; [reflexivity | split; [reflexivity | ]]].
  exact (@running_cycle_time_step_is_clamped example_externals true
           example_inputs initialised_state eq_refl eq_refl eq_refl).
Defined.

Lemma running_cycle_bias_guard_witness :
  inited (insst initialised_state) = true
  /\ gyro_rx example_inputs = true
  /\ accel_rx example_inputs = true
  /\ let s' := fst (updateAttitudeINSGPS (ext := example_externals)
                      false true example_inputs initialised_state) in
     (exists before,
         ins s' = INSSetGyroBias zero3 :: before
         /\ bias_exceeds (Nav_gyro_bias (Nav (Externals := example_externals) before)) = true
         /\ count_calls is_INSSetGyroBias (new_calls initialised_state s') = 1%nat)
     \/ (bias_exceeds (Nav_gyro_bias (Nav (Externals := example_externals) (ins s'))) = false
         /\ count_calls is_INSSetGyroBias (new_calls initialised_state s') = 0%nat).
Proof.
  split; [reflexivity | split; [reflexivity | split; [reflexivity | ]]].
  exact (@running_cycle_bias_guard example_externals true
           example_inputs initialised_state eq_refl eq_refl eq_refl).
Defined.

Lemma running_outdoor_without_satellites_witness :
  inited (insst initialised_state) = true
  /\ gps_Satellites (GPSPosition few_satellites_inputs) < 7
  /\ snd (updateAttitudeINSGPS (ext := example_externals)
            false true few_satellites_inputs initialised_state) = 0
  /\ alarm (pub (fst (updateAttitudeINSGPS (ext := example_externals)
                        false true few_satellites_inputs initialised_state)))
     = ALARM_ERROR.
Proof.
  split; [reflexivity | split; [reflexivity | ]].
  pose proof (@running_outdoor_without_satellites example_externals
                few_satellites_inputs initialised_state
                eq_refl eq_refl eq_refl eq_refl) as H.
  split; [exact (proj1 H) | exact (proj1 (proj2 H))].
Defined.


Lemma indoor_initialisation_needs_mag_and_baro_once_witness :
  mag_updated (insst indoor_stage_one_state) = true
  /\ baro_updated (insst indoor_stage_one_state) = true
  /\ mag_rx gyro_accel_only_inputs = false
  /\ inited
       (insst (fst (run_INSGPS (ext := example_externals) false
                      (repeat (false, gyro_accel_only_inputs) 10)
                      indoor_stage_one_state))) = true.
Proof.
  split; [reflexivity | split; [reflexivity | split; [reflexivity | ]]].
  assert (F : Forall (fun c : bool * Inputs =>
                        gyro_rx (snd c) = true /\ accel_rx (snd c) = true)
                     (repeat (false, gyro_accel_only_inputs) 10))
    by (repeat constructor).
  assert (L : (1 <= 10)%nat) by (repeat constructor).
  exact (proj1
    (@indoor_initialisation_needs_mag_and_baro_once example_externals
       (repeat (false, gyro_accel_only_inputs) 10) indoor_stage_one_state
       1%nat eq_refl eq_refl L eq_refl eq_refl F eq_refl)).
Defined.

Lemma nan_gyro_resets_attitude_to_identity_witness :
  xyz_is_nan (Gyros nan_gyro_inputs) = true
  /\ quat_of_attitude
       (AttitudeActual
          (pub (fst (updateAttitudeComplimentary (ext := example_externals)
                       false nan_gyro_inputs startup_state))))
     = identity_quat.
Proof.
  split; [reflexivity | ].
  exact (proj2 (proj2
    (@nan_gyro_resets_attitude_to_identity example_externals false
       nan_gyro_inputs startup_state eq_refl eq_refl eq_refl))).
Defined.

Lemma zero_magnetometer_gives_zero_yaw_error_witness :
  xyz_is_zero (Magnetometer zero_mag_inputs) = true
  /\ mag_err (comp (fst (updateAttitudeComplimentary
                           (ext := example_externals)
                           false zero_mag_inputs startup_state)))
     = zero3.
Proof.
  split; [reflexivity | ].
  exact (proj2
    (@zero_magnetometer_gives_zero_yaw_error example_externals false
       zero_mag_inputs startup_state eq_refl eq_refl eq_refl)).
Defined.

Lemma early_first_cycle_skips_the_startup_gains_witness :
  tick_second (inputs_at 500 DISARMED) <= 1000
  /\ 1000 < tick_first (inputs_at 3000 DISARMED) < 7000
  /\ attitudeSettings
       (cfg (fst (run_Complimentary (ext := example_externals)
                    [(false, inputs_at 3000 DISARMED)]
                    (fst (updateAttitudeComplimentary
                            (ext := example_externals)
                            false (inputs_at 500 DISARMED) startup_state)))))
     = example_settings.
Proof.
  assert (T : tick_second (inputs_at 500 DISARMED) <= 1000)
    by (vm_compute; discriminate).
  split; [exact T | ].
  split; [split; reflexivity | ].
  assert (F : Forall (fun c : bool * Inputs =>
                        fst c = false
                        /\ (ZeroDuringArming
                              (AttitudeSettings (inputs_at 500 DISARMED))
                            && match FlightStatus_Armed (snd c) with
                               | ARMING => true | _ => false end) = false)
                     [(false, inputs_at 3000 DISARMED)])
    by (repeat constructor).
  exact (proj1 (proj2 (proj2
    (@early_first_cycle_skips_the_startup_gains example_externals false
       (inputs_at 500 DISARMED) startup_state
       [(false, inputs_at 3000 DISARMED)]
       eq_refl eq_refl (or_intror eq_refl) T eq_refl F)))).
Defined.

Lemma arming_forces_gains_and_later_cycle_reloads_witness :
  arming_zero (inputs_at 10000 ARMING) arming_option_state = true
  /\ AccelKi
       (attitudeSettings
          (cfg (fst (updateAttitudeComplimentary (ext := example_externals)
                       false (inputs_at 10000 ARMING) arming_option_state))))
     = Lit.c0_9
  /\ attitudeSettings
       (cfg (fst (updateAttitudeComplimentary (ext := example_externals)
                    false example_inputs
                    (fst (updateAttitudeComplimentary
                            (ext := example_externals)
                            false (inputs_at 10000 ARMING)
                            arming_option_state)))))
     = example_settings.
Proof.
  split; [reflexivity | ].
  assert (A : FlightStatus_Armed example_inputs <> ARMING) by discriminate.
  assert (T : 7000 <= tick_first example_inputs
              \/ tick_second example_inputs <= 1000)
    by (left; vm_compute; discriminate).
  pose proof (@arming_forces_gains_and_later_cycle_reloads example_externals
                false false (inputs_at 10000 ARMING) example_inputs
                arming_option_state
                eq_refl eq_refl eq_refl eq_refl eq_refl A T) as H.
  split; [exact (proj1 (proj2 H)) | exact (proj1 (proj2 (proj2 (proj2 H))))].
Defined.

Lemma complementary_gps_passthrough_needs_home_witness :
  gps_rx example_inputs && home_Set (homeLocation (cfg startup_state)) = true
  /\ Down (VelocityActual
             (pub (fst (updateAttitudeComplimentary
                          (ext := example_externals)
                          false example_inputs startup_state))))
     = F32.zero.
Proof.
  split; [reflexivity | ].
  exact (proj1 (proj2 (proj2
    (@complementary_gps_passthrough_needs_home example_externals false
       example_inputs startup_state eq_refl eq_refl) eq_refl))).
Defined.


Lemma getNED_of_home_is_origin_witness :
  gps_Latitude home_fix = home_Latitude (homeLocation example_config)
  /\ gps_Longitude home_fix = home_Longitude (homeLocation example_config)
  /\ F32.is_zero (v0 (snd (getNED example_config home_fix))) = true
  /\ F32.is_zero (v1 (snd (getNED example_config home_fix))) = true
  /\ F32.is_zero (v2 (snd (getNED example_config home_fix))) = true.
Proof.
  split; [reflexivity | split; [reflexivity | ]].
  exact (getNED_of_home_is_origin example_config home_fix
           eq_refl eq_refl eq_refl eq_refl eq_refl eq_refl eq_refl eq_refl).
Defined.

Lemma getNED_north_has_the_sign_of_the_latitude_difference_witness :
  (F32.zero <? v0 (T example_config))%f32 = true
  /\ 0 <= gps_Latitude example_gps - home_Latitude (homeLocation example_config)
  /\ (v0 (snd (getNED example_config example_gps)) <? F32.zero)%f32 = false.
Proof.
  assert (D : - 2 ^ 31
              <= gps_Latitude example_gps
                 - home_Latitude (homeLocation example_config) < 2 ^ 31)
    by (vm_compute; split; [discriminate | reflexivity]).
  assert (P : 0 <= gps_Latitude example_gps
                   - home_Latitude (homeLocation example_config))
    by (vm_compute; discriminate).
  split; [reflexivity | split; [exact P | ]].
  exact (proj1
    (getNED_north_has_the_sign_of_the_latitude_difference example_config
       example_gps eq_refl D) P).
Defined.

Lemma AttitudeTask_runs_first_cycle_with_first_run_witness :
  revoSettings (cfg startup_state) = FUSIONALGORITHM_COMPLIMENTARY
  /\ snd (run_AttitudeTask (ext := example_externals) task_start
            [example_inputs; example_inputs] startup_state)
     = fst (run_Complimentary (ext := example_externals)
              [(true, example_inputs); (false, example_inputs)]
              startup_state).
Proof.
  split; [reflexivity | ].
  exact (@AttitudeTask_runs_first_cycle_with_first_run example_externals
           example_inputs [example_inputs] startup_state eq_refl).
Defined.

Lemma complementary_runs_keep_q0_not_negative_witness :
  not_negative (q1 (AttitudeActual (pub startup_state)))
  /\ not_negative
       (q1 (AttitudeActual
              (pub (fst (run_Complimentary (ext := example_externals)
                           [(false, example_inputs); (false, timeout_inputs)]
                           startup_state))))).
Proof.
  split; [reflexivity | ].
  exact (@complementary_runs_keep_q0_not_negative example_externals
           [(false, example_inputs); (false, timeout_inputs)]
           startup_state eq_refl).
Defined.

Lemma image_view_is_counted_by_cols_and_rows_witness :
  Forall op_in_range example_ops
  /\ rejected None
       (run_ops example_boundingRect example_ops (Viewer_new 0 0 [])) = false
  /\ exists r c,
       rows (setImageView example_boundingRect None 3 2
               (run_ops example_boundingRect example_ops (Viewer_new 0 0 [])))
       = Some r
       /\ cols (setImageView example_boundingRect None 3 2
                  (run_ops example_boundingRect example_ops
                     (Viewer_new 0 0 [])))
          = Some c
       /\ 3 < c /\ 2 < r.
Proof.
  assert (F : Forall op_in_range example_ops)
    by (repeat constructor; vm_compute; discriminate).
  assert (R3 : index_in_range 3) by (split; vm_compute; [discriminate | reflexivity]).
  assert (R2 : index_in_range 2) by (split; vm_compute; [discriminate | reflexivity]).
  split; [exact F | split; [reflexivity | ]].
  destruct (image_view_is_counted_by_cols_and_rows example_boundingRect
              example_ops 0 0 [] None 3 2 F R3 R2 eq_refl)
    as [r [c [Er [Ec [H1 [H2 _]]]]]].
  exists r, c. exact (conj Er (conj Ec (conj H1 H2))).
Defined.

Lemma rows_and_cols_are_defined_and_never_shrink_witness :
  Forall op_in_range example_ops
  /\ op_in_range (OpSetImageView None 0 0)
  /\ exists r c r' c',
       rows (run_ops example_boundingRect example_ops (Viewer_new 0 0 []))
       = Some r
       /\ cols (run_ops example_boundingRect example_ops (Viewer_new 0 0 []))
          = Some c
       /\ rows (apply_op example_boundingRect (OpSetImageView None 0 0)
                  (run_ops example_boundingRect example_ops
                     (Viewer_new 0 0 []))) = Some r'
       /\ cols (apply_op example_boundingRect (OpSetImageView None 0 0)
                  (run_ops example_boundingRect example_ops
                     (Viewer_new 0 0 []))) = Some c'
       /\ 0 <= r <= r' /\ c <= c'.
Proof.
  assert (F : Forall op_in_range example_ops)
    by (repeat constructor; vm_compute; discriminate).
  assert (O : op_in_range (OpSetImageView None 0 0))
    by (repeat split; vm_compute; discriminate).
  assert (P : first_index_not_negative (OpSetImageView None 0 0))
    by (vm_compute; discriminate).
  split; [exact F | split; [exact O | ]].
  exact (rows_and_cols_are_defined_and_never_shrink example_boundingRect
           example_ops (OpSetImageView None 0 0) 0 0 [] F O P).
Defined.

Lemma given_cell_size_is_kept_witness :
  (320 <> 0 \/ 240 <> 0)
  /\ m_mosaicWidth (run_ops example_boundingRect example_ops
                      (Viewer_new 320 240 [])) = 320
  /\ m_mosaicHeight (run_ops example_boundingRect example_ops
                       (Viewer_new 320 240 [])) = 240.
Proof.
  assert (N : 320 <> 0 \/ 240 <> 0) by (left; discriminate).
  split; [exact N | ].
  pose proof (given_cell_size_is_kept example_boundingRect example_ops
                320 240 [] N) as H.
  split; [exact (proj1 H) | exact (proj1 (proj2 H))].
Defined.
